(** * EU notaries directory scraper: a shallow embedding of [main.py]

    The development follows the source file: Python string helpers,
    the logging and exception discipline, the per-profile extractor
    [get_notary_details], the pandas frames used by [save_to_excel],
    the batch coordinator [process_notaries], the pagination loop of
    [main], and then the properties of each of them.

    What the program meets from outside is data of the model.  A
    browser session is what it answers to each call made on it, any of
    which may raise.  The disk is the files it holds and the faults it
    answers with.  The spreadsheet libraries are what they do with a
    value handed to them and with a sheet read through them, which the
    world carries next to the files.  The order in which worker threads
    finish is a permutation handed to the batch coordinator. *)

From Stdlib Require Import List String Ascii ZArith NArith Bool Arith Lia.
From Stdlib Require Import Permutation Sorted DecimalString.
Import ListNotations.

Local Open Scope string_scope.
Local Open Scope list_scope.

(** ** Python [str] *)

(** A Python string is a sequence of Unicode code points. *)
Definition char : Type := N.
Definition str : Type := list char.

(** A literal of the source, character by character. *)
Definition lit (s : string) : str := map N_of_ascii (list_ascii_of_string s).

Fixpoint str_eqb (a b : str) : bool :=
  match a, b with
  | [], [] => true
  | x :: a', y :: b' => N.eqb x y && str_eqb a' b'
  | _, _ => false
  end.

(** Order of two strings, code point by code point. *)
Fixpoint str_leb (a b : str) : bool :=
  match a, b with
  | [], _ => true
  | _ :: _, [] => false
  | x :: a', y :: b' =>
      if N.ltb x y then true
      else if N.eqb x y then str_leb a' b' else false
  end.

Module PyStr.

(** The characters [str.split] and [str.isspace] take for whitespace:
    TAB..CR, FS..US, SPACE, NEL, NBSP, OGHAM SPACE MARK, EN QUAD..HAIR
    SPACE, LINE and PARAGRAPH SEPARATOR, NARROW NBSP, MEDIUM
    MATHEMATICAL SPACE and IDEOGRAPHIC SPACE. *)
Definition isspace (c : char) : bool :=
  (((9 <=? c) && (c <=? 13)) || ((28 <=? c) && (c <=? 32))
   || (c =? 133) || (c =? 160) || (c =? 5760)
   || ((8192 <=? c) && (c <=? 8202)) || (c =? 8232) || (c =? 8233)
   || (c =? 8239) || (c =? 8287) || (c =? 12288))%N.

Definition is_empty (s : str) : bool :=
  match s with [] => true | _ :: _ => false end.

(** [s.split()] with no separator: the maximal runs of non-whitespace
    characters, left to right.  [cur] is the run being read. *)
Fixpoint split_from (cur : str) (s : str) : list str :=
  match s with
  | [] => if is_empty cur then [] else [cur]
  | c :: s' =>
      if isspace c
      then (if is_empty cur then split_from [] s'
            else cur :: split_from [] s')
      else split_from (cur ++ [c]) s'
  end.

Definition split (s : str) : list str := split_from [] s.

(** [s.startswith(p)]. *)
Fixpoint startswith (p s : str) : bool :=
  match p, s with
  | [], _ => true
  | _ :: _, [] => false
  | x :: p', y :: s' => N.eqb x y && startswith p' s'
  end.

(** [s.replace(old, new)] for a non-empty [old]: every occurrence of
    [old], scanning left to right without overlap, becomes [new].
    [skip] counts the characters of a matched occurrence still to be
    passed over. *)
Fixpoint replace_from (old new : str) (skip : nat) (s : str) : str :=
  match s with
  | [] => []
  | c :: s' =>
      match skip with
      | S k => replace_from old new k s'
      | O =>
          if startswith old s
          then new ++ replace_from old new (List.length old - 1) s'
          else c :: replace_from old new 0 s'
      end
  end.

(** With an empty [old] Python puts [new] around every character. *)
Fixpoint around_each (new : str) (s : str) : str :=
  match s with
  | [] => new
  | c :: s' => new ++ c :: around_each new s'
  end.

Definition replace (old new : str) (s : str) : str :=
  if is_empty old then around_each new s else replace_from old new 0 s.

(** A whole string made of whitespace only. *)
Fixpoint all_space (s : str) : bool :=
  match s with
  | [] => true
  | c :: s' => isspace c && all_space s'
  end.

(** Stripping a prefix, for comparison with [replace]: [p] is dropped
    once when [s] starts with it, and [s] is left alone otherwise. *)
Definition strip_prefix (p s : str) : str :=
  if startswith p s then skipn (List.length p) s else s.

End PyStr.

(** [str(n)] for a length or a position. *)
Definition str_of_nat (n : nat) : str :=
  lit (NilZero.string_of_uint (Nat.to_uint n)).

(** ** Exceptions and logging *)

Inductive ExnKind : Type :=
| TimeoutException
| NoSuchElementException
| IndexError
| AttributeError
| KeyError
| TypeError
| WebDriverException
| OSError
| FileNotFoundError
| IllegalCharacterError
| OtherException.

(** An exception object: its class and [str(e)]. *)
Record Exn : Type := mkExn { exn_kind : ExnKind; exn_str : str }.

Definition ExnKind_eqb (a b : ExnKind) : bool :=
  match a, b with
  | TimeoutException, TimeoutException
  | NoSuchElementException, NoSuchElementException
  | IndexError, IndexError
  | AttributeError, AttributeError
  | KeyError, KeyError
  | TypeError, TypeError
  | WebDriverException, WebDriverException
  | OSError, OSError
  | FileNotFoundError, FileNotFoundError
  | IllegalCharacterError, IllegalCharacterError
  | OtherException, OtherException => true
  | _, _ => false
  end.

Inductive Level : Type := DEBUG | INFO | WARNING | ERROR.

Record LogRecord : Type := mkLog { levelname : Level; message : str }.

(** [logging.basicConfig(level=logging.INFO)]: records below INFO are
    dropped by the root logger. *)
Definition level_no (l : Level) : nat :=
  match l with DEBUG => 10 | INFO => 20 | WARNING => 30 | ERROR => 40 end.

Definition LOGGING_LEVEL : Level := INFO.

(** ** Frames, the workbook on disk and the world the program runs in *)

(** A value of a pandas frame or of a worksheet cell: a whole number,
    text, or the missing value [NaN], which a worksheet shows as an
    empty cell. *)
Inductive Cell : Type :=
| Int (z : Z)
| Str (s : str)
| NaN.

Record DataFrame : Type := mkFrame {
  columns : list str;
  rows : list (list Cell)
}.

(** What is found at a path: nothing, a workbook with one sheet, or a
    file that cannot be loaded as a workbook.  The sheet of a workbook
    is its header row and the values its cells were given. *)
Inductive FileState : Type :=
| Absent
| Workbook (sheet : DataFrame)
| Unreadable (e : Exn).

(** The state threaded through the program.

    - [files] and [styled]: what each path holds, and whether the
      header of the workbook there carries the styling of
      [format_excel].
    - [write_fault]: what opening a path for writing raises, if
      anything.
    - [format_fault]: what loading the workbook at a path, or opening
      the path to save it again, raises in [format_excel], if anything.
      A fault that strikes while a file is being written, and leaves
      it cut short, is not part of the model.
    - [refuses]: what the worksheet writer raises when it is handed a
      value for a cell, if anything.
    - [reads]: the data rows [pd.read_excel] makes of a sheet; missing
      markers, number-like text and empty rows are its business.
    - [log]: the records the logger has let through. *)
Record World : Type := mkWorld {
  files : str -> FileState;
  styled : str -> bool;
  write_fault : str -> option Exn;
  format_fault : str -> option Exn;
  refuses : Cell -> option Exn;
  reads : DataFrame -> list (list Cell);
  log : list LogRecord
}.

(** Computations that may raise: state passing with the state kept on
    both outcomes, as a Python exception keeps the effects that came
    before it. *)
Definition M (A : Type) : Type := World -> (Exn + A) * World.

Definition ret {A : Type} (a : A) : M A := fun w => (inr a, w).

Definition raise {A : Type} (e : Exn) : M A := fun w => (inl e, w).

Definition bind {A B : Type} (m : M A) (k : A -> M B) : M B :=
  fun w =>
    match m w with
    | (inl e, w') => (inl e, w')
    | (inr a, w') => k a w'
    end.

(** [try: body  except Exception as e: handler e]. *)
Definition try_except {A : Type} (body : M A) (handler : Exn -> M A) : M A :=
  fun w =>
    match body w with
    | (inl e, w') => handler e w'
    | (inr a, w') => (inr a, w')
    end.

(** [except K:] for one exception class: the others pass through. *)
Definition except_ {A : Type} (k : ExnKind) (handler : M A) (e : Exn) : M A :=
  if ExnKind_eqb (exn_kind e) k then handler else raise e.

Declare Scope py_scope.
Delimit Scope py_scope with py.
Notation "x <- c ;; k" := (bind c (fun x => k))
  (at level 61, c at next level, right associativity) : py_scope.
Notation "c ;; k" := (bind c (fun _ => k))
  (at level 61, right associativity) : py_scope.
Local Open Scope py_scope.

(** The result of a call made on something outside the program. *)
Definition attempt {A : Type} (r : Exn + A) : M A :=
  match r with
  | inl e => raise e
  | inr a => ret a
  end.

Definition add_log (r : LogRecord) (w : World) : World :=
  mkWorld (files w) (styled w) (write_fault w) (format_fault w)
          (refuses w) (reads w) (log w ++ [r]).

Definition logger (l : Level) (msg : str) : M unit :=
  fun w =>
    if (level_no LOGGING_LEVEL <=? level_no l)%nat
    then (inr tt, add_log (mkLog l msg) w)
    else (inr tt, w).

(** List indexing [xs[0]] and [xs[-1]]. *)
Definition item_first {A : Type} (xs : list A) : M A :=
  match xs with
  | [] => raise (mkExn IndexError (lit "list index out of range"))
  | x :: _ => ret x
  end.

Definition item_last {A : Type} (xs : list A) : M A :=
  match rev xs with
  | [] => raise (mkExn IndexError (lit "list index out of range"))
  | x :: _ => ret x
  end.

(** ** The browser session *)

(** An element as the extractor reads it: what [.text] and
    [.get_attribute] of [href] answer, each of which may raise;
    [get_attribute] answers [None] when the attribute is not there. *)
Record WebElement : Type := mkElement {
  text : Exn + str;
  href : Exn + option str
}.

(** A rendered profile page: what [find_element] answers for the two
    selectors, a [NoSuchElementException] when nothing matches. *)
Record Page : Type := mkPage {
  country_node : Exn + WebElement;
  mail_link : Exn + WebElement
}.

(** Navigation to a URL followed by the wait for the title marker either
    raises (a [TimeoutException] when the marker never shows) or leaves
    the session on a rendered page. *)
Inductive Navigation : Type :=
| Raises (e : Exn)
| Rendered (p : Page).

(** A started session, seen through what it shows. *)
Definition Driver : Type := str -> Navigation.

(** The selectors of the page contract. *)
Inductive Selector : Type := XPATH_COUNTRY | XPATH_EMAIL.

Definition find_element (p : Page) (by_xpath : Selector) : M WebElement :=
  attempt (match by_xpath with
           | XPATH_COUNTRY => country_node p
           | XPATH_EMAIL => mail_link p
           end).

(** [driver.get(url)], the settle delay and [WebDriverWait(...).until]. *)
Definition driver_get (driver : Driver) (url : str) : M Page :=
  match driver url with
  | Raises e => raise e
  | Rendered p => ret p
  end.

(** [attr.replace(old, new)] on what [get_attribute] gave: [None] has
    no [replace]. *)
Definition attribute_replace (attr : option str) (old new : str) : M str :=
  match attr with
  | Some v => ret (PyStr.replace old new v)
  | None =>
      raise (mkExn AttributeError
               (lit "'NoneType' object has no attribute 'replace'"))
  end.

(** ** The extractor *)

(** The dictionary built at the end of [get_notary_details]; the field
    order is the key order of the dictionary literal. *)
Record DetailRecord : Type := mkRecord {
  index : Z;
  Full_Name : str;
  First_Name : str;
  Email : str;
  Country : str
}.

(** [queue.Queue]: [put] at the back, [get] from the front.  An item is
    a record or the [None] a failed extraction leaves. *)
Definition Queue : Type := list (option DetailRecord).

Definition put (q : Queue) (item : option DetailRecord) : Queue := q ++ [item].

(** [get_notary_details(url, result_queue, full_name, index)].
    [setup_driver] is what the call of [setup_driver()] on the first
    line gives: a started session, or the exception it raises, which
    leaves the function before the [try] block is entered.  The queue
    is passed in and handed back.  [driver.quit()] in the [finally]
    clause keeps its own failures to itself and touches nothing that is
    modelled.  A found element is a true value, so the conditional
    around the country text always takes its first branch. *)
Definition get_notary_details (setup_driver : Exn + Driver) (url : str)
    (result_queue : Queue) (full_name : str) (index : Z) : M Queue :=
  driver <- attempt setup_driver ;;
  try_except
    (page <- driver_get driver url ;;
     country <- try_except
       (country_element <- find_element page XPATH_COUNTRY ;;
        country_text <- attempt (text country_element) ;;
        item_last (PyStr.split country_text))
       (except_ NoSuchElementException
          (logger WARNING (lit "Country not found for " ++ full_name) ;;
           ret [])) ;;
     email <- try_except
       (email_element <- find_element page XPATH_EMAIL ;;
        target <- attempt (href email_element) ;;
        attribute_replace target (lit "mailto:") [])
       (except_ NoSuchElementException
          (logger DEBUG (lit "Email not found for " ++ full_name) ;;
           ret [])) ;;
     first_name <- (if PyStr.is_empty full_name then ret []
                    else item_first (PyStr.split full_name)) ;;
     let record := mkRecord index full_name first_name email country in
     let result_queue := put result_queue (Some record) in
     logger DEBUG (lit "Successfully scraped data for " ++ full_name) ;;
     ret result_queue)
    (fun e =>
       if ExnKind_eqb (exn_kind e) TimeoutException
       then logger ERROR (lit "Timeout while loading page for " ++ full_name
                          ++ lit ": " ++ url) ;;
            ret (put result_queue None)
       else logger ERROR (lit "Error scraping " ++ full_name ++ lit ": "
                          ++ exn_str e) ;;
            ret (put result_queue None)).

(** ** pandas frames *)

Definition Cell_eqb (a b : Cell) : bool :=
  match a, b with
  | Int x, Int y => Z.eqb x y
  | Str x, Str y => str_eqb x y
  | NaN, NaN => true
  | _, _ => false
  end.

Fixpoint row_eqb (r1 r2 : list Cell) : bool :=
  match r1, r2 with
  | [], [] => true
  | a :: r1', b :: r2' => Cell_eqb a b && row_eqb r1' r2'
  | _, _ => false
  end.

Definition row_mem (r : list Cell) (seen : list (list Cell)) : bool :=
  existsb (row_eqb r) seen.

Definition col_mem (c : str) (cols : list str) : bool :=
  existsb (str_eqb c) cols.

(** Position of a column label, as [columns.get_loc]. *)
Fixpoint get_loc (c : str) (cols : list str) : option nat :=
  match cols with
  | [] => None
  | c' :: cols' =>
      if str_eqb c c' then Some O
      else match get_loc c cols' with
           | Some i => Some (S i)
           | None => None
           end
  end.

(** [pd.DataFrame(new_data)] for a list of the extractor's dictionaries:
    the columns are the keys in the order of the dictionary literal. *)
Definition RECORD_KEYS : list str :=
  [lit "index"; lit "Full Name"; lit "First Name"; lit "Email"; lit "Country"].

Definition record_values (r : DetailRecord) : list Cell :=
  [Int (index r); Str (Full_Name r); Str (First_Name r);
   Str (Email r); Str (Country r)].

Definition DataFrame_of (new_data : list DetailRecord) : DataFrame :=
  match new_data with
  | [] => mkFrame [] []
  | _ => mkFrame RECORD_KEYS (map record_values new_data)
  end.

Definition is_nan (c : Cell) : bool :=
  match c with NaN => true | _ => false end.

Definition is_int (c : Cell) : bool :=
  match c with Int _ => true | _ => false end.

Definition is_str (c : Cell) : bool :=
  match c with Str _ => true | _ => false end.

(** The whole number a 64-bit float holds for the whole number [z]:
    [z] itself up to 53 bits, and beyond that the nearest number with a
    53-bit mantissa, ties going to the even mantissa. *)
Definition float64 (z : Z) : Z :=
  let a := Z.abs z in
  let k := (Z.log2 a + 1 - 53)%Z in
  if (k <=? 0)%Z then z
  else
    let q := Z.shiftr a k in
    let r := (a - Z.shiftl q k)%Z in
    let half := Z.shiftl 1 (k - 1) in
    let q' := if (half <? r)%Z || ((r =? half)%Z && Z.odd q)
              then (q + 1)%Z else q in
    (Z.sgn z * Z.shiftl q' k)%Z.

Definition as_float (c : Cell) : Cell :=
  match c with
  | Int z => Int (float64 z)
  | _ => c
  end.

(** The values of [df] under the label [c], top to bottom. *)
Definition column_values (c : str) (df : DataFrame) : list Cell :=
  match get_loc c (columns df) with
  | Some i => map (fun row => nth i row NaN) (rows df)
  | None => []
  end.

(** Rows of [df] laid out on the labels [cols].  A label [df] does not
    have is filled with the missing value.  A label for which [widen]
    holds is a column of whole numbers that the other frame fills with
    missing values: the column becomes one of floats. *)
Definition reindex (cols : list str) (widen : str -> bool) (df : DataFrame)
  : list (list Cell) :=
  map (fun row =>
         map (fun c => match get_loc c (columns df) with
                       | Some i =>
                           if widen c then as_float (nth i row NaN)
                           else nth i row NaN
                       | None => NaN
                       end) cols)
      (rows df).

(** A label that only one of two frames has, there over a column
    without text. *)
Definition widened (a b : DataFrame) (c : str) : bool :=
  (col_mem c (columns a) && negb (col_mem c (columns b))
   && forallb (fun v => negb (is_str v)) (column_values c a))
  || (col_mem c (columns b) && negb (col_mem c (columns a))
      && forallb (fun v => negb (is_str v)) (column_values c b)).

(** [pd.concat([a, b])]: outer join on the columns, the labels of [a]
    first and then those only [b] has; rows of [a] and then rows of [b]. *)
Definition concat (a b : DataFrame) : DataFrame :=
  let cols :=
    columns a ++ filter (fun c => negb (col_mem c (columns a))) (columns b) in
  mkFrame cols (reindex cols (widened a b) a ++ reindex cols (widened a b) b).

(** [df.drop_duplicates()]: every column takes part in the comparison,
    the first of equal rows is kept, and two missing values are equal. *)
Fixpoint drop_duplicates_from (seen : list (list Cell)) (rs : list (list Cell))
  : list (list Cell) :=
  match rs with
  | [] => []
  | r :: rs' =>
      if row_mem r seen then drop_duplicates_from seen rs'
      else r :: drop_duplicates_from (r :: seen) rs'
  end.

Definition drop_duplicates (df : DataFrame) : DataFrame :=
  mkFrame (columns df) (drop_duplicates_from [] (rows df)).

(** Order of two sort keys of one kind; a column mixing numbers and
    text is refused before any comparison is made. *)
Definition key_leb (a b : Cell) : bool :=
  match a, b with
  | Int x, Int y => Z.leb x y
  | Str x, Str y => str_leb x y
  | NaN, _ => false
  | _, NaN => true
  | Int _, Str _ => true
  | Str _, Int _ => false
  end.

Definition key_at (i : nat) (row : list Cell) : Cell := nth i row NaN.

(** Insertion of a row in front of the first row whose key is not
    smaller, which keeps rows of equal keys in their order. *)
Fixpoint insert_by (i : nat) (r : list Cell) (sorted : list (list Cell))
  : list (list Cell) :=
  match sorted with
  | [] => [r]
  | r' :: rest =>
      if key_leb (key_at i r) (key_at i r') then r :: sorted
      else r' :: insert_by i r rest
  end.

Fixpoint sort_by (i : nat) (rs : list (list Cell)) : list (list Cell) :=
  match rs with
  | [] => []
  | r :: rs' => insert_by i r (sort_by i rs')
  end.

(** [df.sort_values(by)]: ascending, rows whose key is missing last and
    in the order they had.  Rows of equal keys are kept in their order
    here; pandas promises that order only for keys that differ. *)
Definition sort_values (df : DataFrame) (by_ : str) : M DataFrame :=
  match get_loc by_ (columns df) with
  | None => raise (mkExn KeyError (lit "'" ++ by_ ++ lit "'"))
  | Some i =>
      let keyed := filter (fun r => negb (is_nan (key_at i r))) (rows df) in
      let missing := filter (fun r => is_nan (key_at i r)) (rows df) in
      if existsb (fun r => is_int (key_at i r)) keyed
         && existsb (fun r => is_str (key_at i r)) keyed
      then raise (mkExn TypeError
                    (lit "'<' not supported between instances of 'str' and 'float'"))
      else ret (mkFrame (columns df) (sort_by i keyed ++ missing))
  end.

(** The double quote that [str(e)] puts around the message of a
    [KeyError] holding single quotes. *)
Definition QUOTE : char := 34%N.

Fixpoint remove_nth {A : Type} (i : nat) (l : list A) : list A :=
  match l, i with
  | [], _ => []
  | _ :: l', O => l'
  | x :: l', S j => x :: remove_nth j l'
  end.

(** [df.drop(label, axis=1)]. *)
Definition drop (df : DataFrame) (label : str) : M DataFrame :=
  match get_loc label (columns df) with
  | None =>
      raise (mkExn KeyError
               (QUOTE :: lit "['" ++ label ++ lit "'] not found in axis"
                ++ [QUOTE]))
  | Some i => ret (mkFrame (remove_nth i (columns df))
                            (map (remove_nth i) (rows df)))
  end.

(** ** The workbook *)

Definition set_file (name : str) (f : FileState) (style : bool) (w : World)
  : World :=
  mkWorld (fun n => if str_eqb n name then f else files w n)
          (fun n => if str_eqb n name then style else styled w n)
          (write_fault w) (format_fault w) (refuses w) (reads w) (log w).

Definition set_style (name : str) (style : bool) (w : World) : World :=
  mkWorld (files w) (fun n => if str_eqb n name then style else styled w n)
          (write_fault w) (format_fault w) (refuses w) (reads w) (log w).

(** [os.path.exists(filename)]. *)
Definition path_exists (filename : str) : M bool :=
  fun w => match files w filename with
           | Absent => (inr false, w)
           | _ => (inr true, w)
           end.

(** A row cut or filled up with missing values to [n] cells: a frame
    has one value in every column of every row. *)
Definition fit (n : nat) (row : list Cell) : list Cell :=
  firstn n (row ++ repeat NaN n).

(** The rows [pd.read_excel] gives for a sheet. *)
Definition loaded (w : World) (sheet : DataFrame) : list (list Cell) :=
  map (fit (List.length (columns sheet))) (reads w sheet).

(** [pd.read_excel(filename)]: the header row gives the columns, the
    library the rows. *)
Definition read_excel (filename : str) : M DataFrame :=
  fun w => match files w filename with
           | Workbook sheet => (inr (mkFrame (columns sheet) (loaded w sheet)), w)
           | Unreadable e => (inl e, w)
           | Absent =>
               (inl (mkExn FileNotFoundError
                       (lit "[Errno 2] No such file or directory: '"
                        ++ filename ++ lit "'")), w)
           end.

(** The first value of a column that the writer refuses, with the
    position of its row. *)
Fixpoint first_refused (refuse : Cell -> option Exn) (i : nat)
    (values : list Cell) : option (nat * Exn) :=
  match values with
  | [] => None
  | v :: values' =>
      match refuse v with
      | Some e => Some (i, e)
      | None => first_refused refuse (S i) values'
      end
  end.

(** The writer goes through the frame series by series: the first
    refused value of the [n] columns from column [j] on, with its
    column and row. *)
Fixpoint refused_from (refuse : Cell -> option Exn) (rs : list (list Cell))
    (j n : nat) : option (nat * nat * Exn) :=
  match n with
  | O => None
  | S n' =>
      match first_refused refuse 0 (map (fun row => nth j row NaN) rs) with
      | Some (i, e) => Some (j, i, e)
      | None => refused_from refuse rs (S j) n'
      end
  end.

(** A row of which the first [k] cells were written. *)
Definition cells_written (k : nat) (row : list Cell) : list Cell :=
  firstn k row ++ repeat NaN (List.length row - k).

(** What the sheet holds when the writer stopped at row [i] of column
    [j]: the columns before [j], and column [j] down to row [i]. *)
Definition rows_written (j i : nat) (rs : list (list Cell))
  : list (list Cell) :=
  map (cells_written (S j)) (firstn i rs)
  ++ (if Nat.eqb j 0 then [] else map (cells_written j) (skipn i rs)).

(** [df.to_excel(filename, index=False)].  The file is opened for
    writing first; then the header row and the values go to the sheet,
    and the sheet is saved when the writer is closed, which happens
    also when a value was refused: the file then holds what was written
    up to that value. *)
Definition to_excel (df : DataFrame) (filename : str) : M unit :=
  fun w =>
    match write_fault w filename with
    | Some e => (inl e, w)
    | None =>
        match refused_from (refuses w) (rows df) 0 (List.length (columns df)) with
        | None => (inr tt, set_file filename (Workbook df) false w)
        | Some (j, i, e) =>
            (inl e,
             set_file filename
               (Workbook (mkFrame (columns df) (rows_written j i (rows df))))
               false w)
        end
    end.

(** [load_workbook], the styling of the header row, the column widths
    and [wb.save]: the cells keep their values. *)
Definition restyle (filename : str) : M unit :=
  fun w =>
    match files w filename with
    | Absent =>
        (inl (mkExn FileNotFoundError
                (lit "[Errno 2] No such file or directory: '"
                 ++ filename ++ lit "'")), w)
    | Unreadable e => (inl e, w)
    | Workbook sheet =>
        match format_fault w filename with
        | Some e => (inl e, w)
        | None => (inr tt, set_style filename true w)
        end
    end.

(** [format_excel(filename)]: whatever goes wrong is logged and goes
    no further. *)
Definition format_excel (filename : str) : M unit :=
  try_except
    (restyle filename ;;
     logger DEBUG (lit "Applied formatting to " ++ filename))
    (fun e =>
       logger ERROR (lit "Error formatting Excel file " ++ filename ++ lit ": "
                     ++ exn_str e)).

(** ** The persistence merger *)

Definition OUTPUT_FILENAME : str := lit "notaries_data.xlsx".

(** The body of the [try] block of [save_to_excel]. *)
Definition save_body (new_data : list DetailRecord) (filename : str) : M unit :=
  let new_df := DataFrame_of new_data in
  file_exists <- path_exists filename ;;
  df <- (if file_exists : bool
         then existing_df <- read_excel filename ;;
              let df := drop_duplicates (concat existing_df new_df) in
              logger INFO (lit "Merged with existing data in " ++ filename) ;;
              ret df
         else logger INFO (lit "Creating new file: " ++ filename) ;;
              ret new_df) ;;
  df <- sort_values df (lit "index") ;;
  df <- drop df (lit "index") ;;
  to_excel df filename ;;
  format_excel filename ;;
  logger INFO (lit "Data saved to " ++ filename ++ lit ". Total records: "
               ++ str_of_nat (List.length (rows df))).

(** The last steps of that block, from [to_excel] on, for the frame
    [df] they are run on. *)
Definition save_frame (df : DataFrame) (filename : str) : M unit :=
  to_excel df filename ;;
  format_excel filename ;;
  logger INFO (lit "Data saved to " ++ filename ++ lit ". Total records: "
               ++ str_of_nat (List.length (rows df))).

(** [save_to_excel(new_data, filename)]. *)
Definition save_to_excel (new_data : list DetailRecord) (filename : str) : M unit :=
  match new_data with
  | [] => logger WARNING (lit "No data to save")
  | _ =>
      try_except (save_body new_data filename)
        (fun e =>
           logger ERROR (lit "Error saving data to " ++ filename ++ lit ": "
                         ++ exn_str e) ;;
           raise e)
  end.

(** ** The batch coordinator *)

(** A listing element as [process_notaries] reads it: the text of its
    heading and the [href] of its link, each of which may raise. *)
Record ListingElement : Type := mkListing {
  h3_text : Exn + str;
  a_href : Exn + option str
}.

(** Truth value of [href]: [None] and the empty text are false. *)
Definition truthy (h : option str) : bool :=
  match h with
  | None => false
  | Some s => negb (PyStr.is_empty s)
  end.

(** A started worker thread: the arguments of its [get_notary_details]. *)
Record Thread : Type := mkThread {
  thread_url : str;
  thread_full_name : str;
  thread_index : nat
}.

(** The body of the dispatch loop for the element of ordinal [i]: the
    threads it starts, one or none. *)
Definition start_thread (i : nat) (element : ListingElement) : M (list Thread) :=
  try_except
    (full_name <- attempt (h3_text element) ;;
     href <- attempt (a_href element) ;;
     match href with
     | Some url =>
         if truthy href then ret [mkThread url full_name i]
         else logger WARNING (lit "No URL found for " ++ full_name) ;; ret []
     | None => logger WARNING (lit "No URL found for " ++ full_name) ;; ret []
     end)
    (fun e =>
       logger ERROR (lit "Error extracting data from listing element: "
                     ++ exn_str e) ;;
       ret []).

(** The dispatch loop over [enumerate(elements)], from ordinal [i] on. *)
Fixpoint dispatch (i : nat) (elements : list ListingElement) : M (list Thread) :=
  match elements with
  | [] => ret []
  | element :: rest =>
      started <- start_thread i element ;;
      more <- dispatch (S i) rest ;;
      ret (started ++ more)
  end.

(** The started workers up to [thread.join()].  The threads share the
    queue and the logger and nothing else, and each puts at most one
    item, so the queue after the joins is fixed by the order in which
    the workers reach it: they are run here one after another in that
    order, and the lines they log are kept in that order too.
    [setup_driver i] is what [setup_driver()] gives the worker of
    ordinal [i].  A worker whose call raises ends there: the exception
    stays in its thread, and the queue is as it was. *)
Fixpoint run_threads (setup_driver : nat -> Exn + Driver)
    (threads : list Thread) (result_queue : Queue) : M Queue :=
  match threads with
  | [] => ret result_queue
  | t :: rest =>
      fun w =>
        match get_notary_details (setup_driver (thread_index t)) (thread_url t)
                result_queue (thread_full_name t)
                (Z.of_nat (thread_index t)) w with
        | (inr q, w') => run_threads setup_driver rest q w'
        | (inl _, w') => run_threads setup_driver rest result_queue w'
        end
  end.

(** The drain loop: [if detail:] keeps the records and drops [None]. *)
Fixpoint drain (result_queue : Queue) : list DetailRecord :=
  match result_queue with
  | [] => []
  | Some detail :: q => detail :: drain q
  | None :: q => drain q
  end.

(** [process_notaries(elements, current_page)].  [arrival] is the order
    in which the started workers finish. *)
Definition process_notaries (setup_driver : nat -> Exn + Driver)
    (arrival : list Thread -> list Thread)
    (elements : list ListingElement) (current_page : nat)
  : M (list DetailRecord) :=
  threads <- dispatch 0 elements ;;
  result_queue <- run_threads setup_driver (arrival threads) [] ;;
  let details := drain result_queue in
  match details with
  | [] => ret tt
  | _ => save_to_excel details OUTPUT_FILENAME
  end ;;
  ret details.

(** ** The pagination driver *)

Definition BATCH_SIZE : nat := 7.

(** What one navigation of the main session to a listing page gives:
    [driver.get] or the wait raises something other than the timeout of
    the wait, or the page is shown; then [marker] tells whether a list
    element turns up within the wait, and [found] is what
    [find_elements] answers. *)
Inductive Listing : Type :=
| GetRaises (e : Exn)
| Shown (marker : bool) (found : Exn + list ListingElement).

(** The site as the main session meets it: the answer to its [nav]-th
    navigation, which asks for page [page]. *)
Definition Site : Type := nat -> nat -> Listing.

(** How the [while True] loop is left. *)
Inductive Exit : Type :=
| Broke
| Raised (e : Exn)
| Unfinished.

(** A logging call outside the exception monad. *)
Definition emit (l : Level) (msg : str) (w : World) : World :=
  snd (logger l msg w).

(** The slices [list_elements[i : i + BATCH_SIZE]] for [i] in
    [range(0, len(list_elements), BATCH_SIZE)].  [cur] is the slice
    being filled, newest element first. *)
Fixpoint slices_from (cur : list ListingElement) (l : list ListingElement)
  : list (list ListingElement) :=
  match l with
  | [] => match cur with [] => [] | _ :: _ => [rev cur] end
  | x :: l' =>
      if Nat.eqb (S (List.length cur)) BATCH_SIZE
      then rev (x :: cur) :: slices_from [] l'
      else slices_from (x :: cur) l'
  end.

Definition slices (l : list ListingElement) : list (list ListingElement) :=
  slices_from [] l.

(** The [for] loop over the slices still to come, [i] being the start
    of the next one.  The first batch call that raises ends the loop;
    [all_data] keeps what was collected before. *)
Fixpoint for_batches
    (setup_driver : nat -> nat -> nat -> Exn + Driver)
    (arrival : nat -> nat -> list Thread -> list Thread)
    (page total i : nat) (remaining : list (list ListingElement))
    (all_data : list DetailRecord) (w : World)
  : option Exn * list DetailRecord * World :=
  match remaining with
  | [] => (None, all_data, w)
  | current_elements :: rest =>
      let end_index := Nat.min (i + BATCH_SIZE) total in
      let w1 := emit INFO (lit "Processing elements " ++ str_of_nat (i + 1)
                           ++ lit " to " ++ str_of_nat end_index ++ lit " of "
                           ++ str_of_nat total) w in
      match process_notaries (setup_driver page i) (arrival page i)
              current_elements page w1 with
      | (inl e, w2) => (Some e, all_data, w2)
      | (inr details, w2) =>
          for_batches setup_driver arrival page total (i + BATCH_SIZE)
            rest (all_data ++ details) w2
      end
  end.

(** The [while True] loop of [main], from page [page] at navigation
    [nav], for at most [fuel] pages. *)
Fixpoint main_loop (fuel : nat) (site : Site)
    (setup_driver : nat -> nat -> nat -> Exn + Driver)
    (arrival : nat -> nat -> list Thread -> list Thread)
    (nav page : nat) (all_data : list DetailRecord) (w : World)
  : Exit * list DetailRecord * World :=
  match fuel with
  | O => (Unfinished, all_data, w)
  | S fuel' =>
      let w1 := emit INFO (lit "Processing page " ++ str_of_nat page
                           ++ lit "...") w in
      match site nav page with
      | GetRaises e => (Raised e, all_data, w1)
      | Shown false _ =>
          (Broke, all_data, emit INFO (lit "No more pages to scrape") w1)
      | Shown true (inl e) => (Raised e, all_data, w1)
      | Shown true (inr list_elements) =>
          let total := List.length list_elements in
          let w2 := emit INFO (lit "Found " ++ str_of_nat total
                               ++ lit " notaries on page " ++ str_of_nat page)
                      w1 in
          match list_elements with
          | [] => (Broke, all_data, emit INFO (lit "No more notaries found") w2)
          | _ :: _ =>
              match for_batches setup_driver arrival page total 0
                      (slices list_elements) all_data w2 with
              | (Some e, all_data', w3) => (Raised e, all_data', w3)
              | (None, all_data', w3) =>
                  match site (S nav) (S page) with
                  | GetRaises e => (Raised e, all_data', w3)
                  | Shown _ (inl e) =>
                      (Broke, all_data',
                       emit ERROR (lit "Error checking next page: "
                                   ++ exn_str e) w3)
                  | Shown _ (inr []) =>
                      (Broke, all_data',
                       emit INFO (lit "No more notaries found on next page") w3)
                  | Shown _ (inr (_ :: _)) =>
                      main_loop fuel' site setup_driver arrival (S (S nav))
                        (S page) all_data' w3
                  end
              end
          end
      end
  end.

(** [main()].  [main_driver] is what the call of [setup_driver()] on
    the first line gives: the session of the listing pages, or the
    exception it raises, with which [main] is left at once.  Then come
    the loop, the handler for what it raises and the [finally] clause;
    the result tells how the loop was left.  A loop cut short by [fuel]
    has not reached the handler. *)
Definition main (fuel : nat) (main_driver : Exn + Site)
    (setup_driver : nat -> nat -> nat -> Exn + Driver)
    (arrival : nat -> nat -> list Thread -> list Thread) (w : World)
  : (Exn + Exit) * World :=
  match main_driver with
  | inl e => (inl e, w)
  | inr site =>
      match main_loop fuel site setup_driver arrival 0 0 [] w with
      | (Unfinished, _, w1) => (inr Unfinished, w1)
      | (exit, all_data, w1) =>
          let w2 := match exit with
                    | Raised e =>
                        emit ERROR (lit "Unexpected error in main loop: "
                                    ++ exn_str e) w1
                    | _ => w1
                    end in
          let w3 := emit INFO (lit "Scraping completed. Driver closed.") w2 in
          (inr exit,
           emit INFO (lit "Total records collected: "
                      ++ str_of_nat (List.length all_data)) w3)
      end
  end.

(** ** Vocabulary of the properties *)

(** No whitespace anywhere in a string. *)
Fixpoint no_space (s : str) : bool :=
  match s with
  | [] => true
  | c :: s' => negb (PyStr.isspace c) && no_space s'
  end.

(** A string that is empty or begins with whitespace. *)
Definition space_ahead (s : str) : Prop :=
  s = [] \/ exists c s', s = c :: s' /\ PyStr.isspace c = true.

(** A string that is empty or ends in whitespace. *)
Definition space_behind (s : str) : Prop :=
  s = [] \/ exists s' c, s = s' ++ [c] /\ PyStr.isspace c = true.

(** [tok] is the first whitespace-delimited token of [s]: only
    whitespace comes before it, it is a maximal run without whitespace. *)
Definition first_token (s tok : str) : Prop :=
  exists pre post,
    s = pre ++ tok ++ post /\ PyStr.all_space pre = true /\
    tok <> [] /\ no_space tok = true /\ space_ahead post.

(** [tok] is the last whitespace-delimited token of [s]. *)
Definition last_token (s tok : str) : Prop :=
  exists pre post,
    s = pre ++ tok ++ post /\ PyStr.all_space post = true /\
    tok <> [] /\ no_space tok = true /\ space_behind pre.

(** A library that takes every value and reads a sheet back as the
    rows it was given, as the writer and the reader do with the plain
    text of the scenarios below. *)
Definition takes_all : Cell -> option Exn := fun _ => None.

Definition as_given : DataFrame -> list (list Cell) := rows.

(** A world with no file, no fault, that library and an empty log. *)
Definition blank : World :=
  mkWorld (fun _ => Absent) (fun _ => false) (fun _ => None) (fun _ => None)
          takes_all as_given [].

(** The item one extraction leaves on its queue once its session has
    started, read off a run on an empty queue. *)
Definition outcome (driver : Driver) (url full_name : str) (index : Z)
  : option DetailRecord :=
  match fst (get_notary_details (inr driver) url [] full_name index blank) with
  | inr (item :: _) => item
  | _ => None
  end.

(** The four persisted columns, in the order of the workbook. *)
Definition STORE_COLUMNS : list str :=
  [lit "Full Name"; lit "First Name"; lit "Email"; lit "Country"].

(** The worksheet row of a record: its four text fields. *)
Definition persisted (r : DetailRecord) : list Cell :=
  [Str (Full_Name r); Str (First_Name r); Str (Email r); Str (Country r)].

Fixpoint cols_eqb (a b : list str) : bool :=
  match a, b with
  | [], [] => true
  | x :: a', y :: b' => str_eqb x y && cols_eqb a' b'
  | _, _ => false
  end.

(** A sheet of the store's shape: the four columns, four cells a row. *)
Definition store_shape (sheet : DataFrame) : bool :=
  cols_eqb (columns sheet) STORE_COLUMNS
  && forallb (fun r => Nat.eqb (List.length r) 4) (rows sheet).

(** Records in ascending order of their ordinal. *)
Definition by_ordinal (a b : DetailRecord) : Prop := (index a <= index b)%Z.

(** Records sorted by ordinal, ascending, records of equal ordinal in
    the order they had. *)
Fixpoint insert_record (r : DetailRecord) (sorted : list DetailRecord)
  : list DetailRecord :=
  match sorted with
  | [] => [r]
  | r' :: rest =>
      if (index r <=? index r')%Z then r :: sorted
      else r' :: insert_record r rest
  end.

Fixpoint sort_records (rs : list DetailRecord) : list DetailRecord :=
  match rs with
  | [] => []
  | r :: rs' => insert_record r (sort_records rs')
  end.

(** The stored rows as the specification words their order, for
    comparison with the code: every record merged so far, each under
    the ordinal it had in its own batch, ascending. *)
Definition rows_by_original_ordinal (history : list DetailRecord)
  : list (list Cell) :=
  map persisted (sort_records history).

(** ** Sample inputs *)

(** A session that shows the same rendered page at every URL. *)
Definition showing (p : Page) : Driver := fun _ => Rendered p.

Definition no_such_element : Exn :=
  mkExn NoSuchElementException (lit "Message: no such element").

(** An element with the given text and link target. *)
Definition element (t : string) (target : option string) : WebElement :=
  mkElement (inr (lit t)) (inr (option_map lit target)).

(** The profile of the specification's scenarios: country text
    [Paris, France] and a mail link to [jane@example.com]. *)
Definition jane_page : Page :=
  mkPage (inr (element "Paris, France" None))
         (inr (element "jane@example.com" (Some "mailto:jane@example.com"))).

Definition jane : DetailRecord :=
  mkRecord 0 (lit "Jane Q. Public") (lit "Jane") (lit "jane@example.com")
           (lit "France").

(** A profile with neither a country node nor a mail link. *)
Definition bare_page : Page :=
  mkPage (inl no_such_element) (inl no_such_element).

(** A profile whose country node is there but holds no text. *)
Definition blank_country_page : Page :=
  mkPage (inr (element "" None))
         (inr (element "jane@example.com" (Some "mailto:jane@example.com"))).

(** A profile whose country node holds an EM SPACE and an IDEOGRAPHIC
    SPACE and nothing else. *)
Definition wide_blank_country_page : Page :=
  mkPage (inr (mkElement (inr [8195; 12288]%N) (inr None)))
         (inr (element "jane@example.com" (Some "mailto:jane@example.com"))).

(** A profile whose mail link repeats the scheme inside its target. *)
Definition double_scheme_page : Page :=
  mkPage (inr (element "Paris, France" None))
         (inr (element "write" (Some "mailto:mailto:jane@example.com"))).

(** Names and a country text from beyond Latin-1, and a name made of
    one EM SPACE. *)
Definition radka : str :=
  [1056; 1072; 1076; 1082; 1072; 32; 1048; 1074; 1072; 1085; 1086; 1074; 1072]%N.

Definition dabrowski : str :=
  [68; 261; 98; 114; 111; 119; 115; 107; 105; 32; 74; 97; 110]%N.

Definition em_space : str := [8195%N].

(** [Sofia], an IDEOGRAPHIC SPACE, and the country in Cyrillic. *)
Definition sofia : str :=
  [83; 111; 102; 105; 97; 12288; 1041; 1098; 1083; 1075; 1072; 1088; 1080; 1103]%N.

(** [old] occurs somewhere in [s]. *)
Definition occurs (old s : str) : Prop :=
  exists a b, s = a ++ old ++ b.

(** The mail link is missing, or it is there and has a target. *)
Definition mail_target_ok (p : Page) : Prop :=
  match mail_link p with
  | inl e => exn_kind e = NoSuchElementException
  | inr el =>
      match href el with
      | inl e => exn_kind e = NoSuchElementException
      | inr (Some _) => True
      | inr None => False
      end
  end.

(** The country node is missing, or it is there and its text holds a
    token. *)
Definition country_ok (p : Page) : Prop :=
  match country_node p with
  | inl e => exn_kind e = NoSuchElementException
  | inr el =>
      match text el with
      | inl e => exn_kind e = NoSuchElementException
      | inr t => PyStr.all_space t = false
      end
  end.

(** The listed name is empty or holds a token. *)
Definition name_ok (full_name : str) : Prop :=
  full_name = [] \/ PyStr.all_space full_name = false.

(** ** Vocabulary of the merge *)

Definition record_eqb (a b : DetailRecord) : bool :=
  Z.eqb (index a) (index b) && str_eqb (Full_Name a) (Full_Name b)
  && str_eqb (First_Name a) (First_Name b)
  && str_eqb (Email a) (Email b) && str_eqb (Country a) (Country b).

(** The records of a batch with exact repetitions (ordinal included)
    left out, the first of each kept. *)
Fixpoint distinct_from (seen : list DetailRecord) (rs : list DetailRecord)
  : list DetailRecord :=
  match rs with
  | [] => []
  | r :: rs' =>
      if existsb (record_eqb r) seen then distinct_from seen rs'
      else r :: distinct_from (r :: seen) rs'
  end.

Definition distinct_records (rs : list DetailRecord) : list DetailRecord :=
  distinct_from [] rs.

(** A record laid out on the columns of the merged frame: the four
    store columns and then the ordinal, which is a float there. *)
Definition merged_row (r : DetailRecord) : list Cell :=
  persisted r ++ [Int (float64 (index r))].

(** The same layout with the ordinal as it is. *)
Definition numbered_row (r : DetailRecord) : list Cell :=
  persisted r ++ [Int (index r)].

(** A stored row laid out on the same columns: it has no ordinal. *)
Definition stored_row (row : list Cell) : list Cell := row ++ [NaN].

(** A row of the merged frame whose ordinal is a number. *)
Definition numbered (row : list Cell) : Prop := is_int (key_at 4 row) = true.

(** The rows a merge writes for the batch, whatever the store holds:
    the batch laid out on the merged frame, repetitions dropped, sorted
    by the ordinal, the ordinal removed. *)
Definition batch_rows (new_data : list DetailRecord) : list (list Cell) :=
  map (remove_nth 4)
      (sort_by 4 (drop_duplicates_from [] (map merged_row new_data))).

(** Ordinals that a float holds as they are. *)
Definition exact_ordinals (new_data : list DetailRecord) : Prop :=
  Forall (fun r => (Z.abs (index r) < 2 ^ 53)%Z) new_data.

(** The workbook at the output path, and the world after one merge. *)
Definition store (w : World) : FileState := files w OUTPUT_FILENAME.

Definition merge (new_data : list DetailRecord) (w : World) : World :=
  snd (save_to_excel new_data OUTPUT_FILENAME w).

(** The rows of a workbook, none for a missing or unreadable file. *)
Definition sheet_rows (f : FileState) : list (list Cell) :=
  match f with
  | Workbook sheet => rows sheet
  | _ => []
  end.

(** The rows [pd.read_excel] gives for the file at a path, none for a
    missing or unreadable file. *)
Definition stored_rows (filename : str) (w : World) : list (list Cell) :=
  match files w filename with
  | Workbook sheet => loaded w sheet
  | _ => []
  end.

(** The rows a merge hands to the writer: into a workbook, the rows of
    the batch and then the rows read from it, repetitions among these
    dropped; with no file yet, the batch sorted by the ordinal. *)
Definition merged_rows (w : World) (sheet : DataFrame)
    (new_data : list DetailRecord) : list (list Cell) :=
  batch_rows new_data ++ drop_duplicates_from [] (loaded w sheet).

Definition created_rows (new_data : list DetailRecord) : list (list Cell) :=
  map persisted (sort_records new_data).

Definition handed_rows (new_data : list DetailRecord) (filename : str)
    (w : World) : list (list Cell) :=
  match files w filename with
  | Workbook sheet => merged_rows w sheet new_data
  | _ => created_rows new_data
  end.

(** The writer takes every value of these rows. *)
Definition accepts (w : World) (rs : list (list Cell)) : Prop :=
  forall row v, In row rs -> In v row -> refuses w v = None.

(** The library gives the sheet back as it is. *)
Definition read_back (w : World) (sheet : DataFrame) : Prop :=
  reads w sheet = rows sheet.

(** The records of the specification's merge scenario. *)
Definition row_AB : DetailRecord :=
  mkRecord 0 (lit "A B") (lit "A") (lit "a@x.com") (lit "X").
Definition row_CD : DetailRecord :=
  mkRecord 1 (lit "C D") (lit "C") (lit "c@y.com") (lit "Y").

(** A row of four cells. *)
Definition four_cells (r : list Cell) : Prop := List.length r = 4.

(** The same notary met a second time in one batch, under the next
    ordinal. *)
Definition row_AB_again : DetailRecord :=
  mkRecord 1 (lit "A B") (lit "A") (lit "a@x.com") (lit "X").

(** ** Vocabulary of effects *)

(** The world [w] with further lines in its log and nothing else changed. *)
Definition logged (lines : list LogRecord) (w : World) : World :=
  mkWorld (files w) (styled w) (write_fault w) (format_fault w)
          (refuses w) (reads w) (log w ++ lines).

(** A computation whose only effect is to log. *)
Definition only_logs {A : Type} (m : M A) : Prop :=
  forall w r w', m w = (r, w') -> exists lines, w' = logged lines w.

(** Two worlds with the same faults and the same library. *)
Definition same_outside (w w' : World) : Prop :=
  write_fault w' = write_fault w /\ format_fault w' = format_fault w /\
  refuses w' = refuses w /\ reads w' = reads w.


(** A store that can be loaded: no file yet, or a workbook of the
    store's shape. *)
Definition store_loadable (filename : str) (w : World) : Prop :=
  files w filename = Absent \/
  exists sheet, files w filename = Workbook sheet /\ store_shape sheet = true.

(** A store that can be merged into: it can be loaded and the disk
    takes the write. *)
Definition store_ready (filename : str) (w : World) : Prop :=
  write_fault w filename = None /\ store_loadable filename w.

(** The items the worker of thread [t] leaves on the queue: none when
    its session does not start, and else the one of its extraction. *)
Definition thread_items (setup_driver : nat -> Exn + Driver) (t : Thread)
  : list (option DetailRecord) :=
  match setup_driver (thread_index t) with
  | inl _ => []
  | inr driver =>
      [outcome driver (thread_url t) (thread_full_name t)
               (Z.of_nat (thread_index t))]
  end.


(** A listing page with one entry that has a link, one without a link
    target, one whose heading cannot be read, one whose profile never
    renders, and one for whose worker no session starts. *)
Definition listed (name url : string) : ListingElement :=
  mkListing (inr (lit name)) (inr (Some (lit url))).

Definition sample_listing : list ListingElement :=
  [listed "Jane Q. Public" "https://notaries-directory.eu/en/jane";
   mkListing (inr (lit "No Link")) (inr None);
   mkListing (inl no_such_element) (inr None);
   listed "Slow Page" "https://notaries-directory.eu/en/slow";
   listed "No Session" "https://notaries-directory.eu/en/none"].

Definition sample_driver : Driver :=
  fun url =>
    if str_eqb url (lit "https://notaries-directory.eu/en/jane")
    then Rendered jane_page
    else Raises (mkExn TimeoutException (lit "Message: ")).

Definition sample_setup : nat -> Exn + Driver :=
  fun i =>
    if Nat.eqb i 4
    then inl (mkExn WebDriverException (lit "Message: session not created"))
    else inr sample_driver.

(** A disk that refuses every write, and a store file that cannot be
    read. *)
Definition locked_disk : World :=
  mkWorld (fun _ => Absent) (fun _ => false)
          (fun _ => Some (mkExn OSError (lit "[Errno 13] Permission denied")))
          (fun _ => None) takes_all as_given [].

Definition broken_file : World :=
  mkWorld (fun _ => Unreadable (mkExn OSError (lit "File is not a zip file")))
          (fun _ => false) (fun _ => None) (fun _ => None)
          takes_all as_given [].

(** The control characters a worksheet cannot hold. *)
Definition illegal_character (c : char) : bool :=
  ((c <=? 8) || (c =? 11) || (c =? 12) || ((14 <=? c) && (c <=? 31)))%N.

(** A writer that refuses text with such a character in it. *)
Definition refuse_illegal (v : Cell) : option Exn :=
  match v with
  | Str s =>
      if existsb illegal_character s
      then Some (mkExn IllegalCharacterError
                   (s ++ lit " cannot be used in worksheets."))
      else None
  | _ => None
  end.

Definition strict_writer : World :=
  mkWorld (fun _ => Absent) (fun _ => false) (fun _ => None) (fun _ => None)
          refuse_illegal as_given [].

(** A record whose country holds a vertical tab. *)
Definition row_VT : DetailRecord :=
  mkRecord 1 (lit "E F") (lit "E") (lit "e@z.com") [90; 11]%N.

(** A site with one listing page, the sample one. *)
Definition sample_site : Site :=
  fun _ page =>
    match page with
    | O => Shown true (inr sample_listing)
    | S _ => Shown false (inr [])
    end.

(** What [save_to_excel] promises about failure, from the world [w]:
    an empty batch is a warning and nothing else; whatever the body of
    the [try] block raises is logged as an error and raised again; a
    file that cannot be loaded, a disk that refuses the write and a
    value the writer refuses make the body raise; and the batch call
    that reached the merge raises the same exception. *)
Definition merge_contract (new_data : list DetailRecord) (filename : str)
    (w : World) : Prop :=
  (new_data = [] ->
   save_to_excel new_data filename w
   = (inr tt, add_log (mkLog WARNING (lit "No data to save")) w) /\
   files (snd (save_to_excel new_data filename w)) = files w) /\
  (new_data <> [] ->
   (forall e w1,
      save_body new_data filename w = (inl e, w1) ->
      save_to_excel new_data filename w
      = (inl e,
         add_log (mkLog ERROR (lit "Error saving data to " ++ filename
                               ++ lit ": " ++ exn_str e)) w1)) /\
   (forall e,
      files w filename = Unreadable e ->
      save_body new_data filename w = (inl e, w)) /\
   (forall e,
      write_fault w filename = Some e ->
      (exists e' w1, save_body new_data filename w = (inl e', w1)) /\
      (store_loadable filename w ->
       exists w1, save_body new_data filename w = (inl e, w1))) /\
   (forall r v e,
      store_ready filename w -> In r new_data -> In v (persisted r) ->
      refuses w v = Some e ->
      exists e' w1, save_body new_data filename w = (inl e', w1))) /\
  (forall setup_driver arrival elements current_page w0 threads w1 e w3,
     dispatch 0 elements w0 = (inr threads, w1) ->
     run_threads setup_driver (arrival threads) [] w1
     = (inr (flat_map (thread_items setup_driver) (arrival threads)), w) ->
     drain (flat_map (thread_items setup_driver) (arrival threads)) = new_data ->
     save_to_excel new_data OUTPUT_FILENAME w = (inl e, w3) ->
     process_notaries setup_driver arrival elements current_page w0
     = (inl e, w3)).

(** What a raising batch call does to the run: the [for] loop stops at
    it, the [while] loop is left with the exception, and [main] logs it,
    runs its [finally] clause and returns. *)
Definition run_aborts : Prop :=
  (forall setup_driver arrival page total i current rest all_data w e w3,
     process_notaries (setup_driver page i) (arrival page i) current page
       (emit INFO (lit "Processing elements " ++ str_of_nat (i + 1)
                   ++ lit " to "
                   ++ str_of_nat (Nat.min (i + BATCH_SIZE) total)
                   ++ lit " of " ++ str_of_nat total) w)
     = (inl e, w3) ->
     for_batches setup_driver arrival page total i (current :: rest) all_data w
     = (Some e, all_data, w3)) /\
  (forall fuel site setup_driver arrival nav page all_data w x xs e all_data' w3,
     site nav page = Shown true (inr (x :: xs)) ->
     for_batches setup_driver arrival page (List.length (x :: xs)) 0
       (slices (x :: xs)) all_data
       (emit INFO (lit "Found " ++ str_of_nat (List.length (x :: xs))
                   ++ lit " notaries on page " ++ str_of_nat page)
          (emit INFO (lit "Processing page " ++ str_of_nat page ++ lit "...") w))
     = (Some e, all_data', w3) ->
     main_loop (S fuel) site setup_driver arrival nav page all_data w
     = (Raised e, all_data', w3)) /\
  (forall fuel site setup_driver arrival w e all_data w1,
     main_loop fuel site setup_driver arrival 0 0 [] w = (Raised e, all_data, w1) ->
     main fuel (inr site) setup_driver arrival w
     = (inr (Raised e),
        emit INFO (lit "Total records collected: "
                   ++ str_of_nat (List.length all_data))
          (emit INFO (lit "Scraping completed. Driver closed.")
             (emit ERROR (lit "Unexpected error in main loop: " ++ exn_str e)
                w1)))).

(** ** Vocabulary of the further properties *)

(** The worlds after merging each batch of a list in turn into the
    file [filename]. *)
Fixpoint merge_all (filename : str) (batches : list (list DetailRecord))
    (w : World) : World :=
  match batches with
  | [] => w
  | new_data :: rest =>
      merge_all filename rest (snd (save_to_excel new_data filename w))
  end.


(** A disk that takes the write but refuses the re-styling. *)
Definition styling_fails : World :=
  mkWorld (fun _ => Absent) (fun _ => false) (fun _ => None)
          (fun _ => Some (mkExn OSError (lit "[Errno 13] Permission denied")))
          takes_all as_given [].


(** The store after a step from [w] to [w']: ready, and no other file
    touched. *)
Definition store_kept (filename : str) (w w' : World) : Prop :=
  store_ready filename w' /\
  forall n, n <> filename -> files w' n = files w n.

(** * Properties *)

(** ** Strings and tokens *)

Lemma str_eqb_eq (a b : str) : str_eqb a b = true <-> a = b.
Proof.
  revert b. induction a as [|x a IH]; intros [|y b]; simpl;
    try (split; intros H; congruence).
  rewrite andb_true_iff, N.eqb_eq, IH. split.
  - intros [-> ->]. reflexivity.
  - intros H. inversion H. auto.
Qed.

Lemma str_eqb_refl (a : str) : str_eqb a a = true.
Proof. now apply str_eqb_eq. Qed.

Lemma is_empty_true (s : str) : PyStr.is_empty s = true <-> s = [].
Proof. destruct s; simpl; split; intros H; congruence. Qed.

Lemma is_empty_snoc (s : str) (c : char) : PyStr.is_empty (s ++ [c]) = false.
Proof. destruct s; reflexivity. Qed.

Lemma no_space_app (a b : str) :
  no_space (a ++ b) = no_space a && no_space b.
Proof.
  induction a as [|x a IH]; simpl; [reflexivity|].
  rewrite IH. now rewrite andb_assoc.
Qed.

(** [split] yields no token exactly on whitespace-only text. *)
Lemma split_from_nil (cur s : str) :
  PyStr.split_from cur s = [] <-> cur = [] /\ PyStr.all_space s = true.
Proof.
  revert cur. induction s as [|c s IH]; intros cur; simpl.
  - destruct cur; simpl; split; intros H; try discriminate; auto.
    destruct H; discriminate.
  - destruct (PyStr.isspace c) eqn:Hc; simpl.
    + destruct cur as [|d cur]; simpl.
      * rewrite IH. tauto.
      * split; intros H; [discriminate | destruct H; discriminate].
    + rewrite IH. split; intros [H1 H2]; try discriminate.
      destruct cur; discriminate.
Qed.

Lemma split_nil (s : str) :
  PyStr.split s = [] <-> PyStr.all_space s = true.
Proof. unfold PyStr.split. rewrite split_from_nil. tauto. Qed.

(** The token being read is completed by the next stretch without
    whitespace. *)
Lemma split_from_head (s cur tok : str) (rest : list str) :
  cur <> [] ->
  PyStr.split_from cur s = tok :: rest ->
  exists t post,
    s = t ++ post /\ tok = cur ++ t /\
    no_space t = true /\ space_ahead post.
Proof.
  revert cur. induction s as [|c s IH]; intros cur Hcur H; simpl in H.
  - destruct cur; [congruence|]. simpl in H. inversion H; subst.
    exists [], []. repeat split; rewrite ?app_nil_r; auto. now left.
  - destruct (PyStr.isspace c) eqn:Hc.
    + destruct cur; [congruence|]. simpl in H. inversion H; subst.
      exists [], (c :: s). repeat split; rewrite ?app_nil_r; auto.
      right. eauto.
    + apply IH in H.
      * destruct H as (t & post & Hs & Ht & Hn & Hp).
        exists (c :: t), post. subst. simpl.
        rewrite <- app_assoc. simpl. rewrite Hc. repeat split; auto.
      * destruct cur; discriminate.
Qed.

Lemma split_first_token (s tok : str) (rest : list str) :
  PyStr.split s = tok :: rest -> first_token s tok.
Proof.
  unfold PyStr.split. induction s as [|c s IH]; simpl; intros H.
  - discriminate.
  - destruct (PyStr.isspace c) eqn:Hc; simpl in H.
    + destruct (IH H) as (pre & post & Hs & Hpre & Hne & Hn & Hp).
      exists (c :: pre), post. subst. simpl. rewrite Hc.
      repeat split; auto.
    + apply split_from_head in H; [|discriminate].
      destruct H as (t & post & Hs & Ht & Hn & Hp).
      exists [], post. subst. simpl. rewrite Hc.
      repeat split; auto. discriminate.
Qed.

Lemma space_behind_cons (c : char) (pre : str) :
  PyStr.isspace c = true -> space_behind pre -> space_behind (c :: pre).
Proof.
  intros Hc [->|(p & d & -> & Hd)]; right.
  - exists [], c. auto.
  - exists (c :: p), d. auto.
Qed.

Lemma space_behind_app (a pre : str) :
  pre <> [] -> space_behind pre -> space_behind (a ++ pre).
Proof.
  intros Hne [->|(p & d & -> & Hd)]; [congruence|]. right.
  exists (a ++ p), d. now rewrite app_assoc.
Qed.

(** The last token, for a run [cur] already read from the text. *)
Lemma split_from_last (s cur tok : str) (front : list str) :
  no_space cur = true ->
  rev (PyStr.split_from cur s) = tok :: front ->
  exists pre post,
    cur ++ s = pre ++ tok ++ post /\
    PyStr.all_space post = true /\ tok <> [] /\ no_space tok = true /\
    space_behind pre.
Proof.
  revert cur tok front.
  induction s as [|c s IH]; intros cur tok front Hcur H; simpl in H.
  - destruct cur as [|d cur]; simpl in H; [discriminate|].
    inversion H; subst. exists [], []. simpl.
    repeat split; auto; [discriminate | now left].
  - destruct (PyStr.isspace c) eqn:Hc.
    + destruct cur as [|d cur]; simpl in H.
      * destruct (IH [] tok front eq_refl H)
          as (pre & post & Hs & Hpost & Hne & Hn & Hp).
        simpl in Hs. exists (c :: pre), post. simpl. rewrite Hs.
        repeat split; auto. now apply space_behind_cons.
      * destruct (rev (PyStr.split_from [] s)) as [|x xs] eqn:E.
        -- simpl in H. inversion H; subst.
           apply (f_equal (@rev _)) in E. rewrite rev_involutive in E.
           simpl in E. apply split_from_nil in E. destruct E as [_ E].
           exists [], (c :: s). simpl. rewrite Hc, E.
           repeat split; auto; [discriminate | now left].
        -- simpl in H. inversion H; subst.
           destruct (IH [] tok xs eq_refl E)
             as (pre & post & Hs & Hpost & Hne & Hn & Hp).
           simpl in Hs.
           exists ((d :: cur) ++ c :: pre), post.
           rewrite <- app_assoc. simpl. rewrite Hs.
           repeat split; auto.
           change (d :: cur ++ c :: pre) with ((d :: cur) ++ c :: pre).
           apply space_behind_app; [discriminate|].
           now apply space_behind_cons.
    + assert (Hcur' : no_space (cur ++ [c]) = true).
      { rewrite no_space_app, Hcur. simpl. now rewrite Hc. }
      destruct (IH _ tok front Hcur' H) as (pre & post & Hs & Hrest).
      exists pre, post. split; [|exact Hrest].
      rewrite <- Hs, <- app_assoc. reflexivity.
Qed.

Lemma split_last_token (s tok : str) (front : list str) :
  rev (PyStr.split s) = tok :: front -> last_token s tok.
Proof.
  intros H. apply split_from_last in H; [|reflexivity]. exact H.
Qed.

Lemma all_space_split (s : str) :
  PyStr.all_space s = true -> PyStr.split s = [].
Proof. apply split_nil. Qed.

Lemma all_space_false_split (s : str) :
  PyStr.all_space s = false ->
  exists tok front, rev (PyStr.split s) = tok :: front.
Proof.
  intros H. destruct (rev (PyStr.split s)) as [|tok front] eqn:E; eauto.
  apply (f_equal (@rev _)) in E. rewrite rev_involutive in E. simpl in E.
  apply split_nil in E. congruence.
Qed.

Lemma name_ok_first (full_name : str) :
  name_ok full_name ->
  PyStr.is_empty full_name = true \/
  (PyStr.is_empty full_name = false /\
   exists first others, PyStr.split full_name = first :: others).
Proof.
  intros [->|H]; [now left|]. right. split.
  - destruct full_name; [discriminate | reflexivity].
  - destruct (PyStr.split full_name) as [|first others] eqn:E; eauto.
    apply split_nil in E. congruence.
Qed.

(** Names from beyond Latin-1 are split at their spaces and nowhere
    else, and the wide spaces of Unicode separate tokens and make no
    token of their own. *)
Example split_radka :
  PyStr.split radka
  = [[1056; 1072; 1076; 1082; 1072]%N;
     [1048; 1074; 1072; 1085; 1086; 1074; 1072]%N].
Proof. reflexivity. Qed.

Example split_dabrowski :
  PyStr.split dabrowski = [[68; 261; 98; 114; 111; 119; 115; 107; 105]%N; lit "Jan"].
Proof. reflexivity. Qed.

Example split_em_space : PyStr.split em_space = [].
Proof. reflexivity. Qed.

Example split_sofia :
  PyStr.split sofia
  = [lit "Sofia"; [1041; 1098; 1083; 1075; 1072; 1088; 1080; 1103]%N].
Proof. reflexivity. Qed.

(** ** The extractor *)

Arguments ExnKind_eqb !a !b.
Arguments lit : simpl never.

Ltac unfold_py :=
  unfold get_notary_details, try_except, bind, driver_get, find_element,
    except_, logger, item_last, item_first, attribute_replace, attempt,
    ret, raise, put in *.

(** The value a stuck [match] waits for. *)
Ltac innermost x :=
  lazymatch x with
  | context [match ?y with _ => _ end] => innermost y
  | _ => x
  end.

(** Case analysis along the steps of one extraction, in the order in
    which they are run. *)
Ltac step :=
  match goal with
  | |- context [match ?x with _ => _ end] =>
      let y := innermost x in destruct y eqn:?; simpl
  end.

Lemma logged_nil (w : World) : logged [] w = w.
Proof. destruct w. unfold logged. simpl. now rewrite app_nil_r. Qed.

Lemma logged_logged (a b : list LogRecord) (w : World) :
  logged b (logged a w) = logged (a ++ b) w.
Proof. unfold logged. simpl. now rewrite app_assoc. Qed.

Lemma add_log_logged (r : LogRecord) (w : World) : add_log r w = logged [r] w.
Proof. reflexivity. Qed.

Ltac show_logged :=
  rewrite ?add_log_logged, ?logged_logged;
  first [ exists []; rewrite logged_nil; reflexivity
        | eexists; reflexivity ].

(** When no session starts, the call raises what [setup_driver()]
    raised and nothing else happens. *)
Lemma get_notary_details_unstarted (e : Exn) (url : str) (q : Queue)
    (full_name : str) (index : Z) (w : World) :
  get_notary_details (inl e) url q full_name index w = (inl e, w).
Proof. reflexivity. Qed.

(** On a started session an extraction never raises: it puts exactly
    one item, the same in every world, and does nothing but log. *)
Lemma get_notary_details_puts (driver : Driver) (url : str) (q : Queue)
    (full_name : str) (index : Z) (w : World) :
  exists lines,
    get_notary_details (inr driver) url q full_name index w
    = (inr (put q (outcome driver url full_name index)), logged lines w).
Proof.
  unfold outcome. unfold_py. simpl.
  repeat step; show_logged.
Qed.

Lemma put_inj (q : Queue) (a b : option DetailRecord) :
  put q a = put q b -> a = b.
Proof.
  unfold put. intros H. apply app_inv_head in H. congruence.
Qed.

(** The item a run has put is the outcome of its extraction, and the
    session of a run that put one had started. *)
Lemma outcome_run (setup_driver : Exn + Driver) (url : str) (q : Queue)
    (full_name : str) (index : Z) (w w' : World) (item : option DetailRecord) :
  get_notary_details setup_driver url q full_name index w
  = (inr (put q item), w') ->
  exists driver,
    setup_driver = inr driver /\ outcome driver url full_name index = item.
Proof.
  intros H. destruct setup_driver as [e|driver].
  - rewrite get_notary_details_unstarted in H. discriminate.
  - exists driver. split; [reflexivity|].
    destruct (get_notary_details_puts driver url q full_name index w)
      as (lines & Hrun).
    rewrite Hrun in H. inversion H as [[Hq Hw]].
    now apply put_inj in Hq.
Qed.

(** A record comes from a rendered page only, and carries the ordinal
    and the name the call was given. *)
Lemma outcome_rendered (driver : Driver) (url full_name : str) (ordinal : Z)
    (r : DetailRecord) :
  outcome driver url full_name ordinal = Some r ->
  (exists p, driver url = Rendered p) /\
  index r = ordinal /\ Full_Name r = full_name.
Proof.
  unfold outcome. unfold_py. simpl.
  repeat step; intros H; try discriminate; inversion H; subst; simpl; eauto.
Qed.

(** The first name of the item on the queue. *)
Lemma first_name_of_outcome (driver : Driver) (url full_name : str)
    (index : Z) (r : DetailRecord) :
  outcome driver url full_name index = Some r ->
  Full_Name r = full_name /\
  First_Name r = hd [] (PyStr.split full_name) /\
  (PyStr.is_empty full_name = false -> PyStr.split full_name <> []).
Proof.
  unfold outcome. unfold_py. simpl.
  repeat step; intros H; try discriminate;
    inversion H; subst; simpl; repeat split; auto; try congruence;
    match goal with
    | Hname : PyStr.is_empty _ = true |- _ =>
        apply is_empty_true in Hname; subst; reflexivity
    end.
Qed.

(** C7: the first name of every record the extractor produces is the
    first whitespace-delimited token of the supplied full name, and the
    empty text when the full name is empty. *)
Theorem C7_first_name (setup_driver : Exn + Driver) (url : str) (q : Queue)
    (full_name : str) (index : Z) (w w' : World) (r : DetailRecord) :
  get_notary_details setup_driver url q full_name index w
  = (inr (put q (Some r)), w') ->
  Full_Name r = full_name /\
  (full_name = [] -> First_Name r = []) /\
  (full_name <> [] -> first_token full_name (First_Name r)) /\
  First_Name r = hd [] (PyStr.split full_name).
Proof.
  intros H. apply outcome_run in H. destruct H as (driver & _ & H).
  apply first_name_of_outcome in H. destruct H as (Hfull & Hfirst & Hsome).
  repeat split; auto.
  - intros ->. rewrite Hfirst. reflexivity.
  - intros Hne. rewrite Hfirst.
    destruct (PyStr.split full_name) as [|tok rest] eqn:Hs.
    + exfalso. apply Hsome; auto.
      destruct full_name; [congruence | reflexivity].
    + simpl. eapply split_first_token; eauto.
Qed.

(** The name of the witness is written in Cyrillic: its first name is
    the first of its two words. *)
Lemma C7_first_name_witness :
  get_notary_details (inr (showing jane_page)) (lit "u") [] radka 0 blank
  = (inr (put [] (Some (mkRecord 0 radka [1056; 1072; 1076; 1082; 1072]%N
                          (lit "jane@example.com") (lit "France")))),
     blank)
  /\ first_token radka [1056; 1072; 1076; 1082; 1072]%N.
Proof.
  split; [reflexivity|].
  destruct (C7_first_name (inr (showing jane_page)) (lit "u") [] radka 0
              blank blank
              (mkRecord 0 radka [1056; 1072; 1076; 1082; 1072]%N
                 (lit "jane@example.com") (lit "France")) eq_refl)
    as (_ & _ & Htok & _).
  apply Htok. discriminate.
Defined.

(** The examples of the specification: a name of three words, and an
    empty full name. *)
Example first_name_of_jane :
  get_notary_details (inr (showing jane_page)) (lit "u") []
    (lit "Jane Q. Public") 0 blank
  = (inr [Some jane], blank) /\
  First_Name jane = lit "Jane".
Proof. split; reflexivity. Qed.

Example first_name_of_empty_name :
  outcome (showing jane_page) (lit "u") [] 0
  = Some (mkRecord 0 [] [] (lit "jane@example.com") (lit "France")).
Proof. reflexivity. Qed.

(** C9: a full name that is not empty but holds whitespace only gives
    no record: on a started session the failure path logs an error and
    puts the [None] sentinel on the queue, and when no session starts
    the call raises before anything is put. *)
Theorem C9_blank_name_no_record (setup_driver : Exn + Driver) (url : str)
    (q : Queue) (full_name : str) (index : Z) (w : World) :
  full_name <> [] -> PyStr.all_space full_name = true ->
  (forall r w',
     get_notary_details setup_driver url q full_name index w
     <> (inr (put q (Some r)), w')) /\
  match setup_driver with
  | inr _ =>
      exists w' lines,
        get_notary_details setup_driver url q full_name index w
        = (inr (put q None), w')
        /\ w' = logged lines w
        /\ exists msg, In (mkLog ERROR msg) lines
  | inl e =>
      get_notary_details setup_driver url q full_name index w = (inl e, w)
  end.
Proof.
  intros Hne Hsp. apply all_space_split in Hsp.
  assert (Hemp : PyStr.is_empty full_name = false)
    by (destruct full_name; [congruence | reflexivity]).
  split.
  - intros r w' H. apply outcome_run in H. destruct H as (driver & _ & H).
    apply first_name_of_outcome in H. destruct H as (_ & _ & H).
    now apply H.
  - destruct setup_driver as [e|driver]; [reflexivity|].
    unfold_py. simpl. rewrite Hemp, Hsp.
    repeat step;
      rewrite ?add_log_logged, ?logged_logged;
      eexists; eexists; (split; [reflexivity|]); (split; [reflexivity|]);
      eexists; simpl; repeat (first [left; reflexivity | right]).
Qed.

(** The name of the witness is one EM SPACE. *)
Lemma C9_blank_name_no_record_witness :
  em_space <> [] /\ PyStr.all_space em_space = true /\
  (forall r w',
     get_notary_details (inr (showing jane_page)) (lit "u") [] em_space 0 blank
     <> (inr (put [] (Some r)), w')) /\
  exists w' lines,
    get_notary_details (inr (showing jane_page)) (lit "u") [] em_space 0 blank
    = (inr (put [] None), w')
    /\ w' = logged lines blank
    /\ exists msg, In (mkLog ERROR msg) lines.
Proof.
  split; [discriminate|]. split; [reflexivity|].
  apply (C9_blank_name_no_record (inr (showing jane_page)) (lit "u") []
           em_space 0 blank); [discriminate | reflexivity].
Defined.

Example blank_name_run :
  get_notary_details (inr (showing jane_page)) (lit "u") [] em_space 0 blank
  = (inr [None],
     add_log (mkLog ERROR (lit "Error scraping " ++ em_space
                           ++ lit ": list index out of range")) blank).
Proof. reflexivity. Qed.

(** C10: a country node that is there but whose text has no token makes
    the whole extraction fail with no record. *)
Theorem C10_blank_country_no_record (driver : Driver) (url : str)
    (q : Queue) (full_name : str) (index : Z) (w : World)
    (p : Page) (el : WebElement) (country_text : str) :
  driver url = Rendered p -> country_node p = inr el ->
  text el = inr country_text ->
  PyStr.all_space country_text = true ->
  get_notary_details (inr driver) url q full_name index w
  = (inr (put q None),
     add_log (mkLog ERROR (lit "Error scraping " ++ full_name
                           ++ lit ": list index out of range")) w).
Proof.
  intros Hnav Hc Ht Hsp. apply all_space_split in Hsp.
  unfold_py. simpl. rewrite Hnav. simpl. rewrite Hc. simpl.
  rewrite Ht. simpl. rewrite Hsp. reflexivity.
Qed.

(** The country text of the witness is an EM SPACE and an IDEOGRAPHIC
    SPACE. *)
Lemma C10_blank_country_no_record_witness :
  showing wide_blank_country_page (lit "u") = Rendered wide_blank_country_page /\
  country_node wide_blank_country_page
  = inr (mkElement (inr [8195; 12288]%N) (inr None)) /\
  PyStr.all_space [8195; 12288]%N = true /\
  get_notary_details (inr (showing wide_blank_country_page)) (lit "u") []
    (lit "Jane Q. Public") 0 blank
  = (inr (put [] None),
     add_log (mkLog ERROR (lit "Error scraping " ++ lit "Jane Q. Public"
                           ++ lit ": list index out of range")) blank).
Proof.
  split; [reflexivity|]. split; [reflexivity|]. split; [reflexivity|].
  apply (C10_blank_country_no_record (showing wide_blank_country_page)
           (lit "u") [] (lit "Jane Q. Public") 0 blank
           wide_blank_country_page
           (mkElement (inr [8195; 12288]%N) (inr None)) [8195; 12288]%N);
    reflexivity.
Defined.

(** ** [str.replace] against prefix stripping *)

Lemma startswith_app (old rest : str) : PyStr.startswith old (old ++ rest) = true.
Proof.
  induction old as [|c old IH]; simpl; [reflexivity|].
  now rewrite N.eqb_refl.
Qed.

Lemma startswith_split (old s : str) :
  PyStr.startswith old s = true -> exists b, s = old ++ b.
Proof.
  revert s. induction old as [|c old IH]; intros s H; simpl in *.
  - exists s. reflexivity.
  - destruct s as [|d s]; [discriminate|].
    apply andb_true_iff in H. destruct H as [Hc H].
    apply N.eqb_eq in Hc. subst.
    destruct (IH s H) as (b & ->). exists b. reflexivity.
Qed.

(** Once an occurrence is matched, its characters are passed over. *)
Lemma replace_from_skip (old new t rest : str) :
  PyStr.replace_from old new (List.length t) (t ++ rest)
  = PyStr.replace_from old new 0 rest.
Proof.
  induction t as [|c t IH]; simpl.
  - destruct rest; reflexivity.
  - exact IH.
Qed.

Lemma replace_from_leading (old new rest : str) :
  old <> [] ->
  PyStr.replace_from old new 0 (old ++ rest)
  = new ++ PyStr.replace_from old new 0 rest.
Proof.
  destruct old as [|c old]; [congruence|]. intros _.
  change ((c :: old) ++ rest) with (c :: (old ++ rest)).
  cbn [PyStr.replace_from].
  change (c :: (old ++ rest)) with ((c :: old) ++ rest).
  rewrite startswith_app.
  replace (List.length (c :: old) - 1) with (List.length old)
    by (simpl; lia).
  now rewrite replace_from_skip.
Qed.

Lemma occurs_cons (old s : str) (c : char) :
  occurs old s -> occurs old (c :: s).
Proof. intros (a & b & ->). exists (c :: a), b. reflexivity. Qed.

(** Text in which [old] does not occur is left as it is. *)
Lemma replace_from_absent (old new s : str) :
  ~ occurs old s -> PyStr.replace_from old new 0 s = s.
Proof.
  induction s as [|c s IH]; intros Hno; [reflexivity|].
  cbn [PyStr.replace_from].
  destruct (PyStr.startswith old (c :: s)) eqn:Hp.
  - exfalso. apply Hno. apply startswith_split in Hp. destruct Hp as (b & Hb).
    exists [], b. exact Hb.
  - rewrite IH; [reflexivity|]. intros Ho. apply Hno.
    now apply occurs_cons.
Qed.

Lemma skipn_length_app {A : Type} (p rest : list A) :
  skipn (List.length p) (p ++ rest) = rest.
Proof. induction p as [|x p IH]; simpl; [reflexivity | exact IH]. Qed.

(** A target that carries the scheme as its prefix and nowhere else
    loses exactly that prefix. *)
Lemma replace_mailto_prefix (rest : str) :
  ~ occurs (lit "mailto:") rest ->
  PyStr.replace (lit "mailto:") [] (lit "mailto:" ++ rest) = rest
  /\ PyStr.strip_prefix (lit "mailto:") (lit "mailto:" ++ rest) = rest.
Proof.
  intros Hno. split.
  - unfold PyStr.replace.
    change (PyStr.is_empty (lit "mailto:")) with false. cbv iota.
    rewrite replace_from_leading by discriminate.
    now apply replace_from_absent.
  - unfold PyStr.strip_prefix. rewrite startswith_app.
    apply skipn_length_app.
Qed.

(** Equations on one value brought together. *)
Ltac tie :=
  repeat match goal with
         | H1 : ?x = _, H2 : ?x = _ |- _ =>
             rewrite H1 in H2; inversion H2; subst; clear H2
         end.

(** C5, amended: the e-mail of a produced record is the target of the
    mail link with every occurrence of the scheme text removed, which is
    the target without its prefix when the scheme occurs only there; a
    profile with no mail link gives the empty text. *)
Theorem C5_email (driver : Driver) (url : str) (q : Queue)
    (full_name : str) (index : Z) (w w' : World) (r : DetailRecord)
    (p : Page) :
  driver url = Rendered p ->
  get_notary_details (inr driver) url q full_name index w
  = (inr (put q (Some r)), w') ->
  (forall el attribute,
     mail_link p = inr el -> href el = inr attribute ->
     exists target,
       attribute = Some target /\
       Email r = PyStr.replace (lit "mailto:") [] target /\
       (forall rest, target = lit "mailto:" ++ rest ->
          ~ occurs (lit "mailto:") rest ->
          Email r = rest /\
          Email r = PyStr.strip_prefix (lit "mailto:") target))
  /\ (forall e, mail_link p = inl e -> Email r = []).
Proof.
  intros Hnav H. apply outcome_run in H. destruct H as (d & Hd & H).
  inversion Hd; subst d. clear Hd. revert H.
  unfold outcome. unfold_py. simpl. rewrite Hnav. simpl.
  repeat step; intros H; try discriminate; inversion H; subst; simpl;
    (split; [intros el attribute Hel Hhref
            | intros e' He'; first [reflexivity | discriminate]]);
    try discriminate; inversion Hel; subst; tie;
    (eexists; split; [reflexivity|]; split; [reflexivity|];
     intros rest -> Hno; destruct (replace_mailto_prefix rest Hno) as [H1 H2];
     split; [exact H1 | transitivity rest; [exact H1 | symmetry; exact H2]]).
Qed.

Lemma C5_email_witness :
  showing jane_page (lit "u") = Rendered jane_page /\
  get_notary_details (inr (showing jane_page)) (lit "u") []
    (lit "Jane Q. Public") 0 blank
  = (inr (put [] (Some jane)), blank) /\
  (forall el attribute,
     mail_link jane_page = inr el -> href el = inr attribute ->
     exists target,
       attribute = Some target /\
       Email jane = PyStr.replace (lit "mailto:") [] target /\
       (forall rest, target = lit "mailto:" ++ rest ->
          ~ occurs (lit "mailto:") rest ->
          Email jane = rest /\
          Email jane = PyStr.strip_prefix (lit "mailto:") target))
  /\ (forall e, mail_link jane_page = inl e -> Email jane = []).
Proof.
  split; [reflexivity|]. split; [reflexivity|].
  apply (C5_email (showing jane_page) (lit "u") [] (lit "Jane Q. Public") 0
           blank blank jane jane_page); reflexivity.
Defined.

(** The example of the specification, and a profile without a mail
    link. *)
Example email_of_jane :
  PyStr.replace (lit "mailto:") [] (lit "mailto:jane@example.com")
  = lit "jane@example.com".
Proof. reflexivity. Qed.

Example email_of_bare_page :
  option_map Email (outcome (showing bare_page) (lit "u") (lit "Jane Q. Public") 0)
  = Some [].
Proof. reflexivity. Qed.

(** C5 as first stated fails on a target that holds the scheme text
    twice: stripping the prefix leaves the second one, the code removes
    both. *)
Lemma C5_counterexample :
  mail_link double_scheme_page
  = inr (element "write" (Some "mailto:mailto:jane@example.com")) /\
  get_notary_details (inr (showing double_scheme_page)) (lit "u") []
    (lit "Jane Q. Public") 0 blank
  = (inr [Some jane], blank) /\
  Email jane = lit "jane@example.com" /\
  PyStr.strip_prefix (lit "mailto:") (lit "mailto:mailto:jane@example.com")
  = lit "mailto:jane@example.com" /\
  Email jane
  <> PyStr.strip_prefix (lit "mailto:") (lit "mailto:mailto:jane@example.com").
Proof.
  repeat split; try reflexivity. discriminate.
Qed.

(** C6, amended: when the rest of the extraction goes through, a country
    node whose text holds a token gives that text's last token, and a
    missing node gives the empty text and a warning; a record is
    produced in both cases. *)
Theorem C6_country (driver : Driver) (url : str) (q : Queue)
    (full_name : str) (index : Z) (w : World) (p : Page) :
  driver url = Rendered p -> mail_target_ok p -> name_ok full_name ->
  (forall el country_text,
     country_node p = inr el -> text el = inr country_text ->
     PyStr.all_space country_text = false ->
     exists r,
       get_notary_details (inr driver) url q full_name index w
       = (inr (put q (Some r)), w) /\
       last_token country_text (Country r))
  /\ (forall e,
        country_node p = inl e -> exn_kind e = NoSuchElementException ->
        exists r,
          get_notary_details (inr driver) url q full_name index w
          = (inr (put q (Some r)),
             add_log (mkLog WARNING (lit "Country not found for " ++ full_name))
                     w)
          /\ Country r = []).
Proof.
  intros Hnav Hmail Hname. unfold mail_target_ok in Hmail.
  apply name_ok_first in Hname.
  split.
  - intros el country_text Hc Ht Hsp. apply all_space_false_split in Hsp.
    destruct Hsp as (tok & front & Htok).
    unfold_py. simpl. rewrite Hnav. simpl. rewrite Hc. simpl.
    rewrite Ht. simpl. rewrite Htok. simpl.
    destruct (mail_link p) as [me|me]; simpl;
      [ rewrite Hmail; simpl
      | destruct (href me) as [he|[target|]]; simpl;
        [ rewrite Hmail; simpl | | contradiction ] ];
      (destruct Hname as [He|(He & first & others & Hs)]; rewrite He; simpl;
       [|rewrite Hs; simpl]);
      eexists; (split; [reflexivity|]); simpl;
      eapply split_last_token; eauto.
  - intros e Hc Hk.
    unfold_py. simpl. rewrite Hnav. simpl. rewrite Hc. simpl.
    rewrite Hk. simpl.
    destruct (mail_link p) as [me|me]; simpl;
      [ rewrite Hmail; simpl
      | destruct (href me) as [he|[target|]]; simpl;
        [ rewrite Hmail; simpl | | contradiction ] ];
      (destruct Hname as [He|(He & first & others & Hs)]; rewrite He; simpl;
       [|rewrite Hs; simpl]);
      eexists; (split; [reflexivity|]); reflexivity.
Qed.

(** The country text of the witness has its two words apart by an
    IDEOGRAPHIC SPACE, and the second is written in Cyrillic. *)
Lemma C6_country_witness :
  showing (mkPage (inr (mkElement (inr sofia) (inr None))) (inl no_such_element))
    (lit "u")
  = Rendered (mkPage (inr (mkElement (inr sofia) (inr None)))
                     (inl no_such_element)) /\
  mail_target_ok (mkPage (inr (mkElement (inr sofia) (inr None)))
                         (inl no_such_element)) /\
  name_ok (lit "Jane Q. Public") /\
  PyStr.all_space sofia = false /\
  exists r,
    get_notary_details
      (inr (showing (mkPage (inr (mkElement (inr sofia) (inr None)))
                            (inl no_such_element))))
      (lit "u") [] (lit "Jane Q. Public") 0 blank
    = (inr (put [] (Some r)), blank) /\
    last_token sofia (Country r).
Proof.
  split; [reflexivity|]. split; [reflexivity|].
  split; [right; reflexivity|]. split; [reflexivity|].
  refine (proj1 (C6_country
                   (showing (mkPage (inr (mkElement (inr sofia) (inr None)))
                                    (inl no_such_element)))
                   (lit "u") [] (lit "Jane Q. Public") 0 blank
                   (mkPage (inr (mkElement (inr sofia) (inr None)))
                           (inl no_such_element))
                   eq_refl _ _)
                (mkElement (inr sofia) (inr None)) sofia eq_refl eq_refl eq_refl).
  - reflexivity.
  - right. reflexivity.
Defined.

(** The scenario of the specification, and the profile without a
    country node. *)
Example country_of_jane :
  get_notary_details (inr (showing jane_page)) (lit "u") []
    (lit "Jane Q. Public") 0 blank
  = (inr [Some jane], blank)
  /\ Country jane = lit "France"
  /\ last_token (lit "Paris, France") (lit "France").
Proof.
  repeat split. eapply (split_last_token (lit "Paris, France")). reflexivity.
Qed.

Example country_of_bare_page :
  get_notary_details (inr (showing bare_page)) (lit "u") []
    (lit "Jane Q. Public") 0 blank
  = (inr [Some (mkRecord 0 (lit "Jane Q. Public") (lit "Jane") [] [])],
     add_log (mkLog WARNING (lit "Country not found for Jane Q. Public")) blank).
Proof. reflexivity. Qed.

(** C6 as first stated fails on a country node with no text: the node
    is there and no record is produced. *)
Lemma C6_counterexample :
  showing blank_country_page (lit "u") = Rendered blank_country_page /\
  country_node blank_country_page = inr (element "" None) /\
  get_notary_details (inr (showing blank_country_page)) (lit "u") []
    (lit "Jane Q. Public") 0 blank
  = (inr [None],
     add_log (mkLog ERROR
                (lit "Error scraping Jane Q. Public: list index out of range"))
             blank).
Proof. repeat split. Qed.

(** ** Frames: equality tests, duplicates and sorting *)

Lemma Cell_eqb_eq (a b : Cell) : Cell_eqb a b = true <-> a = b.
Proof.
  destruct a, b; simpl; split; intros H; try discriminate; try reflexivity.
  - apply Z.eqb_eq in H. now subst.
  - inversion H. apply Z.eqb_refl.
  - apply str_eqb_eq in H. now subst.
  - inversion H. apply str_eqb_refl.
Qed.

Lemma row_eqb_eq (r1 r2 : list Cell) : row_eqb r1 r2 = true <-> r1 = r2.
Proof.
  revert r2. induction r1 as [|a r1 IH]; intros [|b r2]; simpl;
    split; intros H; try discriminate; try reflexivity.
  - apply andb_true_iff in H. destruct H as [H1 H2].
    apply Cell_eqb_eq in H1. apply IH in H2. now subst.
  - inversion H; subst. apply andb_true_iff. split.
    + now apply Cell_eqb_eq.
    + now apply IH.
Qed.

Lemma row_mem_In (r : list Cell) (seen : list (list Cell)) :
  row_mem r seen = true <-> In r seen.
Proof.
  unfold row_mem. rewrite existsb_exists. split.
  - intros (x & Hx & He). apply row_eqb_eq in He. now subst.
  - intros H. exists r. split; [assumption | now apply row_eqb_eq].
Qed.

Lemma row_mem_app (r : list Cell) (a b : list (list Cell)) :
  row_mem r (a ++ b) = row_mem r a || row_mem r b.
Proof. unfold row_mem. apply existsb_app. Qed.

Lemma record_eqb_eq (a b : DetailRecord) : record_eqb a b = true <-> a = b.
Proof.
  unfold record_eqb. destruct a, b; simpl.
  rewrite !andb_true_iff, Z.eqb_eq, !str_eqb_eq.
  split.
  - intros ((((-> & ->) & ->) & ->) & ->). reflexivity.
  - intros H. inversion H. auto.
Qed.

Lemma record_mem_In (r : DetailRecord) (seen : list DetailRecord) :
  existsb (record_eqb r) seen = true <-> In r seen.
Proof.
  rewrite existsb_exists. split.
  - intros (x & Hx & He). apply record_eqb_eq in He. now subst.
  - intros H. exists r. split; [assumption | now apply record_eqb_eq].
Qed.

(** What [drop_duplicates] keeps. *)
Lemma drop_duplicates_from_In (seen rs : list (list Cell)) (x : list Cell) :
  In x (drop_duplicates_from seen rs) <-> In x rs /\ ~ In x seen.
Proof.
  revert seen. induction rs as [|r rs IH]; intros seen; simpl; [tauto|].
  destruct (row_mem r seen) eqn:Hm.
  - apply row_mem_In in Hm. rewrite IH. split.
    + intros [H1 H2]. auto.
    + intros [[->|H1] H2]; [contradiction | auto].
  - assert (Hn : ~ In r seen).
    { intros Hin. apply row_mem_In in Hin. congruence. }
    simpl. rewrite IH. simpl. split.
    + intros [->|[H1 H2]]; [auto|]. split; [auto|]. intros H3. apply H2. auto.
    + intros [[->|H1] H2]; [auto|].
      destruct (row_eqb r x) eqn:E; [apply row_eqb_eq in E; auto|].
      right. split; [auto|]. intros [H3|H3]; [|contradiction].
      subst. rewrite (proj2 (row_eqb_eq x x) eq_refl) in E. discriminate.
Qed.

Lemma drop_duplicates_In (rs : list (list Cell)) (x : list Cell) :
  In x (drop_duplicates_from [] rs) <-> In x rs.
Proof. rewrite drop_duplicates_from_In. simpl. tauto. Qed.

Lemma drop_duplicates_from_NoDup (seen rs : list (list Cell)) :
  NoDup (drop_duplicates_from seen rs).
Proof.
  revert seen. induction rs as [|r rs IH]; intros seen; simpl; [constructor|].
  destruct (row_mem r seen) eqn:Hm; [apply IH|].
  constructor; [|apply IH].
  rewrite drop_duplicates_from_In. intros [_ H]. apply H. now left.
Qed.

(** Rows already seen that cannot equal any row to come play no part. *)
Lemma drop_duplicates_from_apart (rs seen others : list (list Cell)) :
  (forall r, In r rs -> ~ In r others) ->
  drop_duplicates_from (seen ++ others) rs = drop_duplicates_from seen rs.
Proof.
  revert seen. induction rs as [|r rs IH]; intros seen Hap; simpl; [reflexivity|].
  rewrite row_mem_app.
  assert (Hr : row_mem r others = false).
  { destruct (row_mem r others) eqn:E; [|reflexivity].
    apply row_mem_In in E. exfalso. apply (Hap r); simpl; auto. }
  rewrite Hr, orb_false_r.
  destruct (row_mem r seen).
  - apply IH. intros x Hx. apply Hap. now right.
  - f_equal. apply (IH (r :: seen)). intros x Hx. apply Hap. now right.
Qed.

Lemma drop_duplicates_from_app (a b seen : list (list Cell)) :
  drop_duplicates_from seen (a ++ b)
  = drop_duplicates_from seen a
    ++ drop_duplicates_from (rev (drop_duplicates_from seen a) ++ seen) b.
Proof.
  revert seen. induction a as [|r a IH]; intros seen; simpl; [reflexivity|].
  destruct (row_mem r seen); [apply IH|].
  simpl. rewrite IH. f_equal. f_equal. rewrite <- app_assoc. reflexivity.
Qed.

(** Duplicates among images under an injective layout. *)
Lemma drop_duplicates_from_stored (seen rs : list (list Cell)) :
  drop_duplicates_from (map stored_row seen) (map stored_row rs)
  = map stored_row (drop_duplicates_from seen rs).
Proof.
  revert seen. induction rs as [|r rs IH]; intros seen; simpl; [reflexivity|].
  assert (Hm : row_mem (stored_row r) (map stored_row seen) = row_mem r seen).
  { apply eq_true_iff_eq. rewrite !row_mem_In, in_map_iff. split.
    - intros (x & Hx & Hin). unfold stored_row in Hx.
      apply app_inv_tail in Hx. now subst.
    - intros H. eauto. }
  rewrite Hm. destruct (row_mem r seen); [apply IH|].
  simpl. f_equal. apply (IH (r :: seen)).
Qed.

Lemma numbered_row_inj (a b : DetailRecord) :
  numbered_row a = numbered_row b -> a = b.
Proof.
  destruct a, b. unfold numbered_row, persisted. simpl. intros H. inversion H.
  reflexivity.
Qed.

Lemma drop_duplicates_from_numbered (seen rs : list DetailRecord) :
  drop_duplicates_from (map numbered_row seen) (map numbered_row rs)
  = map numbered_row (distinct_from seen rs).
Proof.
  revert seen. induction rs as [|r rs IH]; intros seen; simpl; [reflexivity|].
  assert (Hm : row_mem (numbered_row r) (map numbered_row seen)
               = existsb (record_eqb r) seen).
  { apply eq_true_iff_eq. rewrite row_mem_In, record_mem_In, in_map_iff. split.
    - intros (x & Hx & Hin). apply numbered_row_inj in Hx. now subst.
    - intros H. eauto. }
  rewrite Hm. destruct (existsb (record_eqb r) seen); [apply IH|].
  simpl. f_equal. apply (IH (r :: seen)).
Qed.

Lemma in_map_numbered (x : DetailRecord) (l : list DetailRecord) :
  In (numbered_row x) (map numbered_row l) <-> In x l.
Proof.
  rewrite in_map_iff. split.
  - intros (y & Hy & Hin). apply numbered_row_inj in Hy. now subst.
  - intros H. eauto.
Qed.

Lemma distinct_from_In (seen rs : list DetailRecord) (x : DetailRecord) :
  In x (distinct_from seen rs) <-> In x rs /\ ~ In x seen.
Proof.
  rewrite <- (in_map_numbered x (distinct_from seen rs)).
  rewrite <- drop_duplicates_from_numbered, drop_duplicates_from_In.
  rewrite !in_map_numbered. reflexivity.
Qed.

Lemma distinct_records_In (rs : list DetailRecord) (x : DetailRecord) :
  In x (distinct_records rs) <-> In x rs.
Proof. unfold distinct_records. rewrite distinct_from_In. simpl. tauto. Qed.

Lemma distinct_records_NoDup (rs : list DetailRecord) :
  NoDup (distinct_records rs).
Proof.
  unfold distinct_records.
  apply (NoDup_map_inv numbered_row).
  rewrite <- (drop_duplicates_from_numbered [] rs).
  apply drop_duplicates_from_NoDup.
Qed.

(** A batch without repeated records is kept whole. *)
Lemma distinct_from_NoDup_id (rs seen : list DetailRecord) :
  NoDup rs -> (forall r, In r rs -> ~ In r seen) ->
  distinct_from seen rs = rs.
Proof.
  revert seen. induction rs as [|r rs IH]; intros seen Hnd Hap; simpl; [reflexivity|].
  inversion Hnd as [|? ? Hnot Hnd']; subst.
  destruct (existsb (record_eqb r) seen) eqn:E.
  - apply record_mem_In in E. exfalso. apply (Hap r); simpl; auto.
  - f_equal. apply IH; [assumption|].
    intros x Hx [->|Hin]; [contradiction|]. apply (Hap x); simpl; auto.
Qed.

(** *** Whole numbers as floats *)

Lemma float64_exact (z : Z) : (Z.abs z < 2 ^ 53)%Z -> float64 z = z.
Proof.
  intros H. unfold float64.
  assert (Hk : (Z.log2 (Z.abs z) + 1 - 53 <= 0)%Z).
  { destruct (Z.eq_dec (Z.abs z) 0) as [E|E].
    - rewrite E. simpl. lia.
    - assert (Hpos : (0 < Z.abs z)%Z) by lia.
      apply Z.log2_lt_pow2 in H; lia. }
  apply Z.leb_le in Hk. now rewrite Hk.
Qed.

Lemma merged_row_exact (r : DetailRecord) :
  (Z.abs (index r) < 2 ^ 53)%Z -> merged_row r = numbered_row r.
Proof.
  intros H. unfold merged_row, numbered_row. now rewrite float64_exact.
Qed.

Lemma map_merged_exact (l : list DetailRecord) :
  exact_ordinals l -> map merged_row l = map numbered_row l.
Proof.
  intros H. apply map_ext_in. intros r Hr.
  apply merged_row_exact. unfold exact_ordinals in H.
  rewrite Forall_forall in H. now apply H.
Qed.

(** The ordinals of the scenarios and of every batch of the run are
    small. *)
Example float64_of_small : float64 6 = 6%Z /\ float64 (2 ^ 53) = (2 ^ 53)%Z.
Proof. split; reflexivity. Qed.

(** From 2^53 on, neighbours fall together. *)
Example float64_ties :
  float64 (2 ^ 53 + 1) = (2 ^ 53)%Z /\ float64 (2 ^ 53 + 3) = (2 ^ 53 + 4)%Z.
Proof. split; reflexivity. Qed.

(** *** Sorting by the ordinal *)

Lemma insert_record_perm (r : DetailRecord) (l : list DetailRecord) :
  Permutation (insert_record r l) (r :: l).
Proof.
  induction l as [|x l IH]; simpl; [reflexivity|].
  destruct (index r <=? index x)%Z; [reflexivity|].
  rewrite IH. apply perm_swap.
Qed.

Lemma sort_records_perm (l : list DetailRecord) :
  Permutation (sort_records l) l.
Proof.
  induction l as [|x l IH]; simpl; [reflexivity|].
  rewrite insert_record_perm. now constructor.
Qed.

Lemma insert_record_sorted (r : DetailRecord) (l : list DetailRecord) :
  Sorted by_ordinal l -> Sorted by_ordinal (insert_record r l).
Proof.
  induction l as [|x l IH]; intros Hs; simpl.
  - repeat constructor.
  - destruct (index r <=? index x)%Z eqn:E.
    + constructor; [assumption|]. constructor. unfold by_ordinal.
      now apply Z.leb_le.
    + apply Z.leb_gt in E. inversion Hs as [|? ? Hs' Hhd]; subst.
      constructor; [now apply IH|].
      destruct l as [|y l]; simpl.
      * constructor. unfold by_ordinal. lia.
      * destruct (index r <=? index y)%Z; constructor; unfold by_ordinal.
        -- lia.
        -- inversion Hhd; subst. assumption.
Qed.

Lemma sort_records_sorted (l : list DetailRecord) :
  Sorted by_ordinal (sort_records l).
Proof.
  induction l as [|x l IH]; simpl; [constructor|].
  now apply insert_record_sorted.
Qed.

Lemma insert_by_perm (i : nat) (r : list Cell) (l : list (list Cell)) :
  Permutation (insert_by i r l) (r :: l).
Proof.
  induction l as [|x l IH]; simpl; [reflexivity|].
  destruct (key_leb (key_at i r) (key_at i x)); [reflexivity|].
  rewrite IH. apply perm_swap.
Qed.

Lemma sort_by_perm (i : nat) (l : list (list Cell)) :
  Permutation (sort_by i l) l.
Proof.
  induction l as [|x l IH]; simpl; [reflexivity|].
  rewrite insert_by_perm. now constructor.
Qed.

(** Sorting the numbered rows on their ordinal column is sorting the
    records. *)
Lemma sort_by_numbered (l : list DetailRecord) :
  sort_by 4 (map numbered_row l) = map numbered_row (sort_records l).
Proof.
  induction l as [|r l IH]; simpl; [reflexivity|].
  rewrite IH. clear IH.
  induction (sort_records l) as [|x xs IHx]; simpl; [reflexivity|].
  unfold key_at. simpl.
  destruct (index r <=? index x)%Z; [reflexivity|].
  simpl. f_equal. exact IHx.
Qed.

Lemma sort_by_new (l : list DetailRecord) :
  sort_by 0 (map record_values l) = map record_values (sort_records l).
Proof.
  induction l as [|r l IH]; simpl; [reflexivity|].
  rewrite IH. clear IH.
  induction (sort_records l) as [|x xs IHx]; simpl; [reflexivity|].
  unfold key_at. simpl.
  destruct (index r <=? index x)%Z; [reflexivity|].
  simpl. f_equal. exact IHx.
Qed.

(** *** The rows of the batch in a merge *)

Lemma persisted_four (r : DetailRecord) : four_cells (persisted r).
Proof. reflexivity. Qed.

Lemma remove_ordinal_merged (r : DetailRecord) :
  remove_nth 4 (merged_row r) = persisted r.
Proof. reflexivity. Qed.

(** The rows written for the batch are the rows of its records, each
    of them at least once. *)
Lemma batch_rows_In (new_data : list DetailRecord) (row : list Cell) :
  In row (batch_rows new_data) <->
  exists r, In r new_data /\ row = persisted r.
Proof.
  unfold batch_rows. rewrite in_map_iff. split.
  - intros (x & <- & Hx).
    pose proof (Permutation_in _ (sort_by_perm 4 _) Hx) as Hx'.
    apply (proj1 (drop_duplicates_In _ _)) in Hx'. apply in_map_iff in Hx'.
    destruct Hx' as (r & <- & Hr). exists r. split; [exact Hr | reflexivity].
  - intros (r & Hr & ->). exists (merged_row r). split; [reflexivity|].
    apply (Permutation_in _ (Permutation_sym (sort_by_perm 4 _))).
    apply (proj2 (drop_duplicates_In _ _)). now apply in_map.
Qed.

Lemma batch_rows_four (new_data : list DetailRecord) :
  Forall four_cells (batch_rows new_data).
Proof.
  apply Forall_forall. intros row H. apply batch_rows_In in H.
  destruct H as (r & _ & ->). apply persisted_four.
Qed.

(** With ordinals that floats hold as they are, the rows of the batch
    are those of its distinct records in ascending order of the
    ordinal. *)
Lemma batch_rows_exact (new_data : list DetailRecord) :
  exact_ordinals new_data ->
  batch_rows new_data
  = map persisted (sort_records (distinct_records new_data)).
Proof.
  intros H. unfold batch_rows. rewrite map_merged_exact by assumption.
  pose proof (drop_duplicates_from_numbered [] new_data) as Hd.
  simpl in Hd. rewrite Hd. fold (distinct_records new_data).
  rewrite sort_by_numbered, map_map. reflexivity.
Qed.

(** ** What the merger hands to the writer *)

Lemma cols_eqb_eq (a b : list str) : cols_eqb a b = true <-> a = b.
Proof.
  revert b. induction a as [|x a IH]; intros [|y b]; simpl;
    split; intros H; try discriminate; try reflexivity.
  - apply andb_true_iff in H. destruct H as [H1 H2].
    apply str_eqb_eq in H1. apply IH in H2. now subst.
  - inversion H; subst. rewrite str_eqb_refl. now apply IH.
Qed.

Lemma store_shape_spec (sheet : DataFrame) :
  store_shape sheet = true <->
  columns sheet = STORE_COLUMNS /\
  Forall four_cells (rows sheet).
Proof.
  unfold store_shape, four_cells.
  rewrite andb_true_iff, cols_eqb_eq, forallb_forall, Forall_forall.
  split; intros [H1 H2]; split; auto; intros r Hr.
  - apply Nat.eqb_eq. auto.
  - apply Nat.eqb_eq. auto.
Qed.

Lemma four_cells_inv (r : list Cell) :
  four_cells r -> exists a b c d, r = [a; b; c; d].
Proof.
  unfold four_cells.
  destruct r as [|a [|b [|c [|d [|e r]]]]]; simpl; intros H; try discriminate.
  eauto.
Qed.

(** A frame is a rectangle: what is read has one value in each of the
    sheet's columns. *)
Lemma fit_length (n : nat) (row : list Cell) : List.length (fit n row) = n.
Proof.
  unfold fit. rewrite length_firstn, length_app, repeat_length. lia.
Qed.

Lemma fit_same (row : list Cell) : fit (List.length row) row = row.
Proof.
  unfold fit. rewrite firstn_app, Nat.sub_diag, firstn_all. simpl.
  apply app_nil_r.
Qed.

Lemma loaded_four (w : World) (sheet : DataFrame) :
  columns sheet = STORE_COLUMNS -> Forall four_cells (loaded w sheet).
Proof.
  intros Hc. unfold loaded. rewrite Hc. apply Forall_forall.
  intros row H. apply in_map_iff in H. destruct H as (x & <- & _).
  apply fit_length.
Qed.

(** A sheet of the store's shape that the library gives back as it is
    is loaded as it is. *)
Lemma loaded_read_back (w : World) (sheet : DataFrame) :
  store_shape sheet = true -> read_back w sheet ->
  loaded w sheet = rows sheet.
Proof.
  intros Hs Hr. apply store_shape_spec in Hs. destruct Hs as [Hc Hf].
  unfold loaded. rewrite Hr, Hc. rewrite <- (map_id (rows sheet)) at 2.
  apply map_ext_in. intros row Hin. rewrite Forall_forall in Hf.
  specialize (Hf row Hin). unfold four_cells in Hf.
  change (List.length STORE_COLUMNS) with 4. rewrite <- Hf. apply fit_same.
Qed.

Lemma ordinals_are_numbers (N : list DetailRecord) :
  forallb (fun v => negb (is_str v))
          (map (fun row => nth 0 row NaN) (map record_values N)) = true.
Proof. induction N as [|r N IH]; simpl; [reflexivity | exact IH]. Qed.

Lemma widened_index (E : list (list Cell)) (N : list DetailRecord) :
  widened (mkFrame STORE_COLUMNS E) (mkFrame RECORD_KEYS (map record_values N))
          (lit "index")
  = true.
Proof.
  unfold widened, column_values. cbn [columns rows].
  change (get_loc (lit "index") RECORD_KEYS) with (Some 0).
  cbv iota. rewrite ordinals_are_numbers. reflexivity.
Qed.

Lemma not_widened (E X : list (list Cell)) (c : str) :
  In c STORE_COLUMNS ->
  widened (mkFrame STORE_COLUMNS E) (mkFrame RECORD_KEYS X) c = false.
Proof.
  intros [<-|[<-|[<-|[<-|[]]]]]; reflexivity.
Qed.

Lemma reindex_stored (E X : list (list Cell)) :
  Forall four_cells E ->
  reindex (STORE_COLUMNS ++ [lit "index"])
          (widened (mkFrame STORE_COLUMNS E) (mkFrame RECORD_KEYS X))
          (mkFrame STORE_COLUMNS E)
  = map stored_row E.
Proof.
  intros HE. unfold reindex. cbn [columns rows].
  apply map_ext_in. intros r Hin.
  rewrite Forall_forall in HE. apply HE in Hin.
  apply four_cells_inv in Hin. destruct Hin as (a & b' & c & d & ->).
  cbn [map app STORE_COLUMNS].
  rewrite !not_widened by (simpl; auto 6).
  reflexivity.
Qed.

Lemma reindex_new (E : list (list Cell)) (N : list DetailRecord) :
  reindex (STORE_COLUMNS ++ [lit "index"])
          (widened (mkFrame STORE_COLUMNS E)
                   (mkFrame RECORD_KEYS (map record_values N)))
          (mkFrame RECORD_KEYS (map record_values N))
  = map merged_row N.
Proof.
  unfold reindex. cbn [columns rows].
  rewrite map_map. apply map_ext. intros r.
  cbn [map app STORE_COLUMNS].
  rewrite widened_index.
  rewrite !not_widened by (simpl; auto 6).
  reflexivity.
Qed.

Lemma concat_merged (E : list (list Cell)) (r0 : DetailRecord)
    (rs : list DetailRecord) :
  Forall four_cells E ->
  concat (mkFrame STORE_COLUMNS E) (DataFrame_of (r0 :: rs))
  = mkFrame (STORE_COLUMNS ++ [lit "index"])
            (map stored_row E ++ map merged_row (r0 :: rs)).
Proof.
  intros H.
  change (DataFrame_of (r0 :: rs))
    with (mkFrame RECORD_KEYS (map record_values (r0 :: rs))).
  unfold concat. cbn [columns].
  change (STORE_COLUMNS
          ++ filter (fun c => negb (col_mem c STORE_COLUMNS)) RECORD_KEYS)
    with (STORE_COLUMNS ++ [lit "index"]).
  rewrite reindex_stored by assumption.
  rewrite reindex_new. reflexivity.
Qed.

Lemma stored_row_not_merged (row : list Cell) (r : DetailRecord) :
  stored_row row <> merged_row r.
Proof.
  unfold stored_row, merged_row. intros H.
  apply app_inj_tail in H. destruct H as [_ H]. discriminate.
Qed.

(** Duplicates in the merged frame: stored rows among themselves, new
    rows among themselves, and never a new row against a stored one,
    whose ordinal cell is missing. *)
Lemma drop_duplicates_merged (E : list (list Cell)) (N : list DetailRecord) :
  drop_duplicates_from [] (map stored_row E ++ map merged_row N)
  = map stored_row (drop_duplicates_from [] E)
    ++ drop_duplicates_from [] (map merged_row N).
Proof.
  rewrite drop_duplicates_from_app.
  pose proof (drop_duplicates_from_stored [] E) as Hs. simpl in Hs.
  rewrite Hs. f_equal. rewrite app_nil_r.
  pose proof (drop_duplicates_from_apart (map merged_row N) []
                (rev (map stored_row (drop_duplicates_from [] E)))) as Ha.
  simpl in Ha. apply Ha.
  intros r Hr Hin. apply in_map_iff in Hr. destruct Hr as (x & <- & _).
  apply in_rev in Hin. apply in_map_iff in Hin.
  destruct Hin as (row & Hrow & _).
  now apply stored_row_not_merged in Hrow.
Qed.

Lemma drop_duplicates_four (E : list (list Cell)) :
  Forall four_cells E -> Forall four_cells (drop_duplicates_from [] E).
Proof.
  rewrite !Forall_forall. intros H r Hr.
  apply (proj1 (drop_duplicates_In _ _)) in Hr. now apply H.
Qed.

Lemma key_stored (row : list Cell) :
  four_cells row -> key_at 4 (stored_row row) = NaN.
Proof.
  intros H. apply four_cells_inv in H. destruct H as (a & b & c & d & ->).
  reflexivity.
Qed.

Lemma numbered_rows (N : list DetailRecord) :
  Forall numbered (drop_duplicates_from [] (map merged_row N)).
Proof.
  apply Forall_forall. intros row H. apply (proj1 (drop_duplicates_In _ _)) in H.
  apply in_map_iff in H. destruct H as (r & <- & _). reflexivity.
Qed.

Lemma filter_keyed (E Y : list (list Cell)) :
  Forall four_cells E -> Forall numbered Y ->
  filter (fun r => negb (is_nan (key_at 4 r))) (map stored_row E ++ Y) = Y.
Proof.
  intros HE HY. rewrite filter_app.
  replace (filter (fun r => negb (is_nan (key_at 4 r))) (map stored_row E))
    with (@nil (list Cell)).
  - simpl. induction HY as [|r Y Hr HY IH]; simpl; [reflexivity|].
    unfold numbered in Hr. destruct (key_at 4 r); try discriminate.
    simpl. now rewrite IH.
  - induction HE as [|row E Hrow HE IH]; simpl; [reflexivity|].
    rewrite key_stored by assumption. simpl. exact IH.
Qed.

Lemma filter_missing (E Y : list (list Cell)) :
  Forall four_cells E -> Forall numbered Y ->
  filter (fun r => is_nan (key_at 4 r)) (map stored_row E ++ Y)
  = map stored_row E.
Proof.
  intros HE HY. rewrite filter_app.
  replace (filter (fun r => is_nan (key_at 4 r)) Y) with (@nil (list Cell)).
  - rewrite app_nil_r.
    induction HE as [|row E Hrow HE IH]; simpl; [reflexivity|].
    rewrite key_stored by assumption. simpl. now rewrite IH.
  - induction HY as [|r Y Hr HY IH]; simpl; [reflexivity|].
    unfold numbered in Hr. destruct (key_at 4 r); try discriminate.
    simpl. exact IH.
Qed.

Lemma no_text_keys (Y : list (list Cell)) :
  Forall numbered Y -> existsb (fun r => is_str (key_at 4 r)) Y = false.
Proof.
  intros HY. induction HY as [|r Y Hr HY IH]; simpl; [reflexivity|].
  unfold numbered in Hr. destruct (key_at 4 r); try discriminate.
  simpl. exact IH.
Qed.

Lemma sort_values_merged (E Y : list (list Cell)) (w : World) :
  Forall four_cells E -> Forall numbered Y ->
  sort_values (mkFrame (STORE_COLUMNS ++ [lit "index"])
                       (map stored_row E ++ Y)) (lit "index") w
  = (inr (mkFrame (STORE_COLUMNS ++ [lit "index"])
                  (sort_by 4 Y ++ map stored_row E)), w).
Proof.
  intros HE HY. unfold sort_values. cbn [columns rows].
  change (get_loc (lit "index") (STORE_COLUMNS ++ [lit "index"])) with (Some 4).
  cbv beta iota zeta.
  rewrite filter_keyed, filter_missing by assumption.
  rewrite no_text_keys, andb_false_r by assumption.
  reflexivity.
Qed.

Lemma remove_ordinal_stored (row : list Cell) :
  four_cells row -> remove_nth 4 (stored_row row) = row.
Proof.
  intros H. apply four_cells_inv in H. destruct H as (a & b & c & d & ->).
  reflexivity.
Qed.

Lemma drop_merged (E Y : list (list Cell)) (w : World) :
  Forall four_cells E ->
  drop (mkFrame (STORE_COLUMNS ++ [lit "index"]) (Y ++ map stored_row E))
       (lit "index") w
  = (inr (mkFrame STORE_COLUMNS (map (remove_nth 4) Y ++ E)), w).
Proof.
  intros HE. unfold drop. cbn [columns rows].
  change (get_loc (lit "index") (STORE_COLUMNS ++ [lit "index"])) with (Some 4).
  cbv beta iota. unfold ret.
  change (remove_nth 4 (STORE_COLUMNS ++ [lit "index"])) with STORE_COLUMNS.
  f_equal. f_equal. f_equal.
  rewrite map_app, !map_map.
  apply (f_equal2 (@app (list Cell))); [reflexivity|].
  rewrite <- (map_id E) at 2. apply map_ext_in. intros row Hin.
  rewrite Forall_forall in HE. now apply remove_ordinal_stored, HE.
Qed.

Lemma logger_shown (l : Level) (msg : str) (w : World) :
  (level_no LOGGING_LEVEL <=? level_no l)%nat = true ->
  logger l msg w = (inr tt, add_log (mkLog l msg) w).
Proof. unfold logger. now intros ->. Qed.

(** Into a workbook with the store's columns, the merge comes down to
    writing the rows of the batch and then the rows read, repetitions
    among these dropped. *)
Lemma save_body_merges (new_data : list DetailRecord) (filename : str)
    (w : World) (sheet : DataFrame) :
  new_data <> [] ->
  files w filename = Workbook sheet -> columns sheet = STORE_COLUMNS ->
  save_body new_data filename w
  = save_frame (mkFrame STORE_COLUMNS (merged_rows w sheet new_data)) filename
      (add_log (mkLog INFO (lit "Merged with existing data in " ++ filename)) w).
Proof.
  intros Hne Hfile Hcols.
  destruct new_data as [|r0 rs]; [congruence|]. clear Hne.
  pose proof (loaded_four w sheet Hcols) as Hfour.
  pose proof (drop_duplicates_four _ Hfour) as Hfour'.
  unfold save_body.
  unfold bind at 1. unfold path_exists at 1. rewrite Hfile.
  unfold bind at 1. unfold bind at 1. unfold read_excel at 1. rewrite Hfile.
  rewrite Hcols.
  unfold drop_duplicates. rewrite concat_merged by assumption.
  cbn [columns rows]. rewrite drop_duplicates_merged.
  unfold bind at 1. rewrite logger_shown by reflexivity.
  unfold ret at 1.
  unfold bind at 1.
  rewrite sort_values_merged by (assumption || apply numbered_rows).
  unfold bind at 1. rewrite drop_merged by assumption.
  reflexivity.
Qed.

Lemma filter_keyed_new (N : list DetailRecord) :
  filter (fun r => negb (is_nan (key_at 0 r))) (map record_values N)
  = map record_values N.
Proof. induction N as [|r N IH]; simpl; [reflexivity | now rewrite IH]. Qed.

Lemma filter_missing_new (N : list DetailRecord) :
  filter (fun r => is_nan (key_at 0 r)) (map record_values N) = [].
Proof. induction N as [|r N IH]; simpl; [reflexivity | exact IH]. Qed.

Lemma no_text_keys_new (N : list DetailRecord) :
  existsb (fun r => is_str (key_at 0 r)) (map record_values N) = false.
Proof. induction N as [|r N IH]; simpl; [reflexivity | exact IH]. Qed.

Lemma sort_values_new (N : list DetailRecord) (w : World) :
  sort_values (mkFrame RECORD_KEYS (map record_values N)) (lit "index") w
  = (inr (mkFrame RECORD_KEYS (map record_values (sort_records N))), w).
Proof.
  unfold sort_values. cbn [columns rows].
  change (get_loc (lit "index") RECORD_KEYS) with (Some 0).
  cbv beta iota zeta.
  rewrite filter_keyed_new, filter_missing_new, no_text_keys_new, andb_false_r.
  rewrite sort_by_new, app_nil_r. reflexivity.
Qed.

Lemma drop_new (N : list DetailRecord) (w : World) :
  drop (mkFrame RECORD_KEYS (map record_values N)) (lit "index") w
  = (inr (mkFrame STORE_COLUMNS (map persisted N)), w).
Proof.
  unfold drop. cbn [columns rows].
  change (get_loc (lit "index") RECORD_KEYS) with (Some 0).
  cbv beta iota. unfold ret.
  change (remove_nth 0 RECORD_KEYS) with STORE_COLUMNS.
  f_equal. f_equal. f_equal. rewrite map_map. reflexivity.
Qed.

(** With no file yet, the merge comes down to writing the batch in the
    order of its ordinals. *)
Lemma save_body_creates (new_data : list DetailRecord) (filename : str)
    (w : World) :
  new_data <> [] -> files w filename = Absent ->
  save_body new_data filename w
  = save_frame (mkFrame STORE_COLUMNS (created_rows new_data)) filename
      (add_log (mkLog INFO (lit "Creating new file: " ++ filename)) w).
Proof.
  intros Hne Hfile.
  destruct new_data as [|r0 rs]; [congruence|]. clear Hne.
  unfold save_body.
  unfold bind at 1. unfold path_exists at 1. rewrite Hfile.
  unfold bind at 1. unfold bind at 1. rewrite logger_shown by reflexivity.
  unfold ret at 1. unfold DataFrame_of.
  unfold bind at 1. rewrite sort_values_new.
  unfold bind at 1. rewrite drop_new.
  reflexivity.
Qed.

(** Both cases at once, for a store that can be loaded. *)
Lemma save_body_loadable (new_data : list DetailRecord) (filename : str)
    (w : World) :
  new_data <> [] -> store_loadable filename w ->
  exists line,
    save_body new_data filename w
    = save_frame (mkFrame STORE_COLUMNS (handed_rows new_data filename w))
        filename (add_log line w).
Proof.
  intros Hne [Habs|(sheet & Hfile & Hshape)]; unfold handed_rows.
  - rewrite Habs. eexists. now apply save_body_creates.
  - rewrite Hfile. eexists. apply save_body_merges; auto.
    apply store_shape_spec in Hshape. tauto.
Qed.

Lemma handed_rows_four (new_data : list DetailRecord) (filename : str)
    (w : World) :
  store_loadable filename w ->
  Forall four_cells (handed_rows new_data filename w).
Proof.
  intros [Habs|(sheet & Hfile & Hshape)]; unfold handed_rows.
  - rewrite Habs. apply Forall_forall. intros row H.
    apply in_map_iff in H. destruct H as (r & <- & _). apply persisted_four.
  - rewrite Hfile. apply Forall_app. split; [apply batch_rows_four|].
    apply drop_duplicates_four, loaded_four.
    apply store_shape_spec in Hshape. tauto.
Qed.

(** Every record of the batch has its row among the rows handed over. *)
Lemma handed_rows_batch (new_data : list DetailRecord) (filename : str)
    (w : World) (r : DetailRecord) :
  In r new_data -> In (persisted r) (handed_rows new_data filename w).
Proof.
  intros Hr. unfold handed_rows.
  assert (Hc : In (persisted r) (created_rows new_data)).
  { unfold created_rows. apply in_map.
    apply (Permutation_in _ (Permutation_sym (sort_records_perm _))).
    exact Hr. }
  destruct (files w filename); auto.
  unfold merged_rows. apply in_or_app. left.
  apply batch_rows_In. eauto.
Qed.

(** ** The writer *)

Lemma first_refused_None (refuse : Cell -> option Exn) (values : list Cell)
    (i : nat) :
  first_refused refuse i values = None <->
  forall v, In v values -> refuse v = None.
Proof.
  revert i. induction values as [|x values IH]; intros i; simpl.
  - split; [intros _ v [] | reflexivity].
  - destruct (refuse x) eqn:E.
    + split; [discriminate|]. intros H. rewrite (H x) in E by auto.
      discriminate.
    + rewrite IH. split.
      * intros H v [<-|Hv]; auto.
      * intros H v Hv. apply H. auto.
Qed.

Lemma first_refused_Some (refuse : Cell -> option Exn) (values : list Cell)
    (i k : nat) (e : Exn) :
  first_refused refuse i values = Some (k, e) ->
  exists v, In v values /\ refuse v = Some e.
Proof.
  revert i. induction values as [|x values IH]; intros i; simpl; [discriminate|].
  destruct (refuse x) eqn:E.
  - intros H. inversion H; subst. exists x. auto.
  - intros H. apply IH in H. destruct H as (v & Hv & He). eauto.
Qed.

(** The writer refuses nothing of a frame exactly when it takes all of
    its values. *)
Lemma refused_from_None (refuse : Cell -> option Exn) (rs : list (list Cell))
    (n j : nat) :
  refused_from refuse rs j n = None <->
  forall k row, j <= k < j + n -> In row rs -> refuse (nth k row NaN) = None.
Proof.
  revert j. induction n as [|n IH]; intros j; simpl.
  - split; [intros _ k row Hk; lia | reflexivity].
  - destruct (first_refused refuse 0 (map (fun row => nth j row NaN) rs))
      as [[i e]|] eqn:E.
    + split; [discriminate|]. intros H.
      apply first_refused_Some in E. destruct E as (v & Hv & He).
      apply in_map_iff in Hv. destruct Hv as (row & <- & Hrow).
      rewrite (H j row) in He by (auto; lia). discriminate.
    + rewrite IH. rewrite first_refused_None in E. split.
      * intros H k row Hk Hrow.
        destruct (Nat.eq_dec k j) as [->|Hne].
        -- apply E. apply in_map_iff. eauto.
        -- apply H; [lia | assumption].
      * intros H k row Hk Hrow. apply H; [lia | assumption].
Qed.

Lemma refused_from_accepts (w : World) (rs : list (list Cell)) (n : nat) :
  Forall (fun row => List.length row = n) rs ->
  (refused_from (refuses w) rs 0 n = None <-> accepts w rs).
Proof.
  intros Hn. rewrite Forall_forall in Hn.
  rewrite refused_from_None. unfold accepts. split.
  - intros H row v Hrow Hv.
    destruct (In_nth _ _ NaN Hv) as (k & Hk & <-).
    apply H; [|assumption]. rewrite (Hn row Hrow) in Hk. lia.
  - intros H k row Hk Hrow. apply (H row); [assumption|].
    apply nth_In. rewrite (Hn row Hrow). lia.
Qed.

Lemma refused_from_Some (refuse : Cell -> option Exn) (rs : list (list Cell))
    (n j c i : nat) (e : Exn) :
  refused_from refuse rs j n = Some (c, i, e) ->
  exists row, In row rs /\ refuse (nth c row NaN) = Some e.
Proof.
  revert j. induction n as [|n IH]; intros j; simpl; [discriminate|].
  destruct (first_refused refuse 0 (map (fun row => nth j row NaN) rs))
    as [[i' e']|] eqn:E.
  - intros H. inversion H; subst.
    apply first_refused_Some in E. destruct E as (v & Hv & He).
    apply in_map_iff in Hv. destruct Hv as (row & <- & Hrow). eauto.
  - apply IH.
Qed.

(** What is left of a frame when the writer stops has the rows of the
    frame, cut short, each as long as it was. *)
Lemma cells_written_length (k : nat) (row : list Cell) :
  List.length (cells_written k row) = List.length row.
Proof.
  unfold cells_written. rewrite length_app, length_firstn, repeat_length. lia.
Qed.

Lemma rows_written_four (j i : nat) (rs : list (list Cell)) :
  Forall four_cells rs -> Forall four_cells (rows_written j i rs).
Proof.
  intros H. rewrite <- (firstn_skipn i rs) in H.
  apply Forall_app in H. destruct H as [H1 H2].
  assert (Hcut : forall k l, Forall four_cells l ->
                   Forall four_cells (map (cells_written k) l)).
  { intros k l Hl. apply Forall_forall. intros row Hr.
    apply in_map_iff in Hr. destruct Hr as (x & <- & Hx).
    unfold four_cells. rewrite cells_written_length.
    rewrite Forall_forall in Hl. now apply Hl. }
  unfold rows_written. apply Forall_app. split; [now apply Hcut|].
  destruct (Nat.eqb j 0); [constructor | now apply Hcut].
Qed.

Lemma same_outside_refl (w : World) : same_outside w w.
Proof. repeat split. Qed.

Lemma same_outside_trans (a b c : World) :
  same_outside a b -> same_outside b c -> same_outside a c.
Proof.
  unfold same_outside. intros (H1 & H2 & H3 & H4) (K1 & K2 & K3 & K4).
  repeat split; congruence.
Qed.

(** [format_excel] never raises, leaves the cells of every file alone
    and adds to the log at most. *)
Lemma format_excel_returns (filename : str) (w : World) :
  exists w',
    format_excel filename w = (inr tt, w') /\ files w' = files w /\
    same_outside w w' /\ exists lines, log w' = log w ++ lines.
Proof.
  unfold format_excel, try_except, bind, restyle, logger.
  destruct (files w filename); simpl;
    [ | destruct (format_fault w filename); simpl | ];
    eexists; (split; [reflexivity|]); (split; [reflexivity|]);
    (split; [apply same_outside_refl || (repeat split)|]);
    first [ exists []; simpl; now rewrite app_nil_r
          | eexists; reflexivity ].
Qed.

(** The three last steps on a frame whose values the writer takes, and
    on one of which it refuses a value. *)
Lemma save_frame_accepted (df : DataFrame) (filename : str) (w : World) :
  write_fault w filename = None ->
  refused_from (refuses w) (rows df) 0 (List.length (columns df)) = None ->
  exists w',
    save_frame df filename w = (inr tt, w') /\
    files w' = files (set_file filename (Workbook df) false w) /\
    same_outside w w' /\ exists lines, log w' = log w ++ lines.
Proof.
  intros Hwf Hacc. unfold save_frame.
  unfold bind at 1. unfold to_excel at 1. rewrite Hwf, Hacc.
  unfold bind at 1.
  destruct (format_excel_returns filename
              (set_file filename (Workbook df) false w))
    as (w2 & Hfmt & Hf2 & Ho2 & (lines & Hl2)).
  rewrite Hfmt. rewrite logger_shown by reflexivity.
  eexists. split; [reflexivity|].
  split; [exact Hf2|]. split.
  - destruct Ho2 as (H1 & H2 & H3 & H4). repeat split; assumption.
  - eexists. simpl. rewrite Hl2. simpl. rewrite <- app_assoc. reflexivity.
Qed.

Lemma save_frame_refused (df : DataFrame) (filename : str) (w : World)
    (j i : nat) (e : Exn) :
  write_fault w filename = None ->
  refused_from (refuses w) (rows df) 0 (List.length (columns df))
  = Some (j, i, e) ->
  save_frame df filename w
  = (inl e,
     set_file filename
       (Workbook (mkFrame (columns df) (rows_written j i (rows df)))) false w).
Proof.
  intros Hwf Href. unfold save_frame.
  unfold bind at 1. unfold to_excel at 1. rewrite Hwf, Href. reflexivity.
Qed.

Lemma save_frame_write_fault (df : DataFrame) (filename : str) (w : World)
    (e : Exn) :
  write_fault w filename = Some e ->
  save_frame df filename w = (inl e, w).
Proof.
  intros Hwf. unfold save_frame.
  unfold bind at 1. unfold to_excel at 1. rewrite Hwf. reflexivity.
Qed.

Lemma files_set_file (name : str) (f : FileState) (style : bool) (w : World) :
  files (set_file name f style w) name = f /\
  forall n, n <> name -> files (set_file name f style w) n = files w n.
Proof.
  simpl. rewrite str_eqb_refl. split; [reflexivity|].
  intros n Hn. destruct (str_eqb n name) eqn:E; [|reflexivity].
  apply str_eqb_eq in E. contradiction.
Qed.

(** ** The merge *)

(** A merge into a ready store of whose rows the writer takes every
    value: it returns, and the workbook holds the rows handed over. *)
Lemma save_to_excel_written (new_data : list DetailRecord) (filename : str)
    (w : World) :
  new_data <> [] -> store_ready filename w ->
  accepts w (handed_rows new_data filename w) ->
  exists w',
    save_to_excel new_data filename w = (inr tt, w') /\
    files w' filename
    = Workbook (mkFrame STORE_COLUMNS (handed_rows new_data filename w)) /\
    (forall n, n <> filename -> files w' n = files w n) /\
    same_outside w w' /\ exists lines, log w' = log w ++ lines.
Proof.
  intros Hne [Hwf Hload] Hacc.
  destruct (save_body_loadable new_data filename w Hne Hload) as (line & Hbody).
  pose proof (handed_rows_four new_data filename w Hload) as Hfour.
  destruct (save_frame_accepted
              (mkFrame STORE_COLUMNS (handed_rows new_data filename w))
              filename (add_log line w) Hwf)
    as (w' & Hrun & Hfiles & Hout & (lines & Hlog)).
  { cbn [rows columns]. apply (refused_from_accepts (add_log line w)).
    - exact Hfour.
    - exact Hacc. }
  exists w'.
  destruct new_data as [|r0 rs]; [congruence|].
  unfold save_to_excel, try_except. rewrite Hbody, Hrun.
  split; [reflexivity|].
  rewrite Hfiles.
  destruct (files_set_file filename
              (Workbook (mkFrame STORE_COLUMNS
                           (handed_rows (r0 :: rs) filename w)))
              false (add_log line w)) as [H1 H2].
  split; [exact H1|]. split; [exact H2|]. split; [exact Hout|].
  exists (line :: lines). rewrite Hlog. simpl. rewrite <- app_assoc.
  reflexivity.
Qed.

(** A merge into a ready store of whose rows the writer refuses a
    value: it raises what the writer raised, and the workbook holds
    what was written until then. *)
Lemma save_to_excel_refused (new_data : list DetailRecord) (filename : str)
    (w : World) (j i : nat) (e : Exn) :
  new_data <> [] -> store_ready filename w ->
  refused_from (refuses w) (handed_rows new_data filename w) 0 4
  = Some (j, i, e) ->
  exists w',
    save_to_excel new_data filename w = (inl e, w') /\
    files w' filename
    = Workbook (mkFrame STORE_COLUMNS
                  (rows_written j i (handed_rows new_data filename w))) /\
    (forall n, n <> filename -> files w' n = files w n) /\
    same_outside w w' /\ exists lines, log w' = log w ++ lines.
Proof.
  intros Hne [Hwf Hload] Href.
  destruct (save_body_loadable new_data filename w Hne Hload) as (line & Hbody).
  pose proof (save_frame_refused
                (mkFrame STORE_COLUMNS (handed_rows new_data filename w))
                filename (add_log line w) j i e Hwf Href) as Hrun.
  destruct new_data as [|r0 rs]; [congruence|].
  unfold save_to_excel, try_except. rewrite Hbody, Hrun.
  unfold bind. rewrite logger_shown by reflexivity. unfold raise.
  eexists. split; [reflexivity|].
  cbn [files add_log set_file columns rows]. rewrite str_eqb_refl.
  split; [reflexivity|]. split.
  - intros n Hn. destruct (str_eqb n filename) eqn:E; [|reflexivity].
    apply str_eqb_eq in E. contradiction.
  - split; [repeat split|]. eexists [_; _]. simpl.
    rewrite <- app_assoc. reflexivity.
Qed.

(** Whatever the writer does, a merge into a ready store leaves a ready
    store, and a workbook of the store's shape when the batch was not
    empty. *)
Lemma save_to_excel_ready (new_data : list DetailRecord) (filename : str)
    (w : World) :
  new_data <> [] -> store_ready filename w ->
  exists res w' written,
    save_to_excel new_data filename w = (res, w') /\
    files w' filename = Workbook (mkFrame STORE_COLUMNS written) /\
    Forall four_cells written /\
    (forall n, n <> filename -> files w' n = files w n) /\
    same_outside w w' /\ (exists lines, log w' = log w ++ lines) /\
    (accepts w (handed_rows new_data filename w) ->
     res = inr tt /\ written = handed_rows new_data filename w).
Proof.
  intros Hne Hready.
  pose proof (handed_rows_four new_data filename w (proj2 Hready)) as Hfour.
  destruct (refused_from (refuses w) (handed_rows new_data filename w) 0 4)
    as [[[j i] e]|] eqn:Href.
  - destruct (save_to_excel_refused new_data filename w j i e Hne Hready Href)
      as (w' & Hrun & Hfile & Hothers & Hout & Hlog).
    exists (inl e), w', (rows_written j i (handed_rows new_data filename w)).
    split; [exact Hrun|]. split; [exact Hfile|].
    split; [now apply rows_written_four|]. split; [exact Hothers|].
    split; [exact Hout|]. split; [exact Hlog|].
    intros Hacc. apply (refused_from_accepts w _ 4 Hfour) in Hacc.
    congruence.
  - apply (refused_from_accepts w _ 4 Hfour) in Href.
    destruct (save_to_excel_written new_data filename w Hne Hready Href)
      as (w' & Hrun & Hfile & Hothers & Hout & Hlog).
    exists (inr tt), w', (handed_rows new_data filename w).
    repeat (split; [assumption|]). intros _. split; reflexivity.
Qed.

Lemma store_shape_written (written : list (list Cell)) :
  Forall four_cells written ->
  store_shape (mkFrame STORE_COLUMNS written) = true.
Proof. intros H. apply store_shape_spec. split; [reflexivity | exact H]. Qed.

(** ** The store after one and after several merges *)

(** The defect in general: a record whose row the workbook already
    gives back is written once more, since its ordinal cell sets it
    apart from the stored row when duplicates are dropped. *)
Lemma merge_repeats_stored_row (r : DetailRecord) (filename : str)
    (w : World) (sheet : DataFrame) :
  files w filename = Workbook sheet -> store_shape sheet = true ->
  write_fault w filename = None ->
  accepts w (handed_rows [r] filename w) ->
  In (persisted r) (loaded w sheet) ->
  exists w' tail,
    save_to_excel [r] filename w = (inr tt, w') /\
    files w' filename = Workbook (mkFrame STORE_COLUMNS (persisted r :: tail)) /\
    In (persisted r) tail.
Proof.
  intros Hfile Hshape Hwf Hacc Hin.
  destruct (save_to_excel_written [r] filename w) as (w' & Hrun & Hfiles & _);
    [discriminate | split; [exact Hwf | right; eauto] | exact Hacc |].
  exists w', (drop_duplicates_from [] (loaded w sheet)).
  split; [exact Hrun|]. split.
  - rewrite Hfiles. unfold handed_rows. rewrite Hfile. reflexivity.
  - now apply (proj2 (drop_duplicates_In _ _)).
Qed.

(** C1 on the code: the first merge of the batch creates one row, the
    second merge of the same batch adds the row again, so merging twice
    is not merging once.  The scenario of the specification (a stored
    row met again next to a new one) ends with three rows. *)
Theorem C1_second_merge_repeats_rows :
  store (merge [row_AB] blank)
  = Workbook (mkFrame STORE_COLUMNS [persisted row_AB]) /\
  store (merge [row_AB] (merge [row_AB] blank))
  = Workbook (mkFrame STORE_COLUMNS [persisted row_AB; persisted row_AB]) /\
  store (merge [row_AB] (merge [row_AB] blank)) <> store (merge [row_AB] blank) /\
  store (merge [row_AB; row_CD] (merge [row_AB] blank))
  = Workbook (mkFrame STORE_COLUMNS
                [persisted row_AB; persisted row_CD; persisted row_AB]).
Proof.
  split; [reflexivity|]. split; [reflexivity|]. split; [|reflexivity].
  intros H. vm_compute in H. discriminate.
Qed.

(** C2 on the code: after the second merge the workbook holds two rows
    equal in all four fields, and a first merge keeps two such rows when
    the batch brings them under different ordinals. *)
Theorem C2_identical_rows_persisted :
  sheet_rows (store (merge [row_AB] (merge [row_AB] blank)))
  = [persisted row_AB; persisted row_AB] /\
  ~ NoDup (sheet_rows (store (merge [row_AB] (merge [row_AB] blank)))) /\
  sheet_rows (store (merge [row_AB; row_AB_again] blank))
  = [persisted row_AB; persisted row_AB_again] /\
  persisted row_AB = persisted row_AB_again.
Proof.
  split; [reflexivity|]. split; [|split; reflexivity].
  intros H. vm_compute in H. inversion H as [|x l Hin _]; subst.
  apply Hin. left. reflexivity.
Qed.

(** The rows that are read back in these scenarios are the rows that
    were written, and the writer took them all. *)
Example scenario_rows_read_back :
  stored_rows OUTPUT_FILENAME (merge [row_AB] blank) = [persisted row_AB] /\
  stored_rows OUTPUT_FILENAME (merge [row_AB] (merge [row_AB] blank))
  = [persisted row_AB; persisted row_AB].
Proof. split; reflexivity. Qed.

(** C3, amended: a merge into a workbook of the store's shape hands to
    the writer the records of the batch in ascending order of their
    ordinals and after them the rows read from the workbook, which have
    no ordinal, in the order in which they were read; the sheet written
    has the four store columns, no ordinal column, and four cells a
    row. *)
Theorem C3_merge_order (new_data : list DetailRecord) (filename : str)
    (w : World) (sheet : DataFrame) :
  new_data <> [] -> exact_ordinals new_data ->
  files w filename = Workbook sheet -> store_shape sheet = true ->
  write_fault w filename = None ->
  accepts w (handed_rows new_data filename w) ->
  exists w' ordered written_sheet,
    save_to_excel new_data filename w = (inr tt, w') /\
    (forall r, In r ordered <-> In r new_data) /\
    NoDup ordered /\ Sorted by_ordinal ordered /\
    files w' filename = Workbook written_sheet /\
    rows written_sheet
    = map persisted ordered ++ drop_duplicates_from [] (loaded w sheet) /\
    columns written_sheet = STORE_COLUMNS /\
    ~ In (lit "index") (columns written_sheet) /\
    store_shape written_sheet = true.
Proof.
  intros Hne Hexact Hfile Hshape Hwf Hacc.
  assert (Hready : store_ready filename w)
    by (split; [exact Hwf | right; eauto]).
  destruct (save_to_excel_written new_data filename w Hne Hready Hacc)
    as (w' & Hrun & Hfiles & _).
  exists w', (sort_records (distinct_records new_data)).
  eexists. split; [exact Hrun|].
  split.
  { intros r. split; intros H.
    - apply distinct_records_In.
      eapply Permutation_in; [apply sort_records_perm | exact H].
    - eapply Permutation_in; [symmetry; apply sort_records_perm|].
      now apply distinct_records_In. }
  split.
  { eapply Permutation_NoDup;
      [symmetry; apply sort_records_perm | apply distinct_records_NoDup]. }
  split; [apply sort_records_sorted|].
  split; [exact Hfiles|].
  cbn [rows columns].
  split.
  { unfold handed_rows. rewrite Hfile. unfold merged_rows.
    now rewrite batch_rows_exact. }
  split; [reflexivity|].
  split.
  - intros [H|[H|[H|[H|[]]]]]; discriminate.
  - apply store_shape_written, handed_rows_four, (proj2 Hready).
Qed.

Lemma C3_merge_order_witness :
  [row_CD] <> [] /\ exact_ordinals [row_CD] /\
  files (merge [row_AB] blank) OUTPUT_FILENAME
  = Workbook (mkFrame STORE_COLUMNS [persisted row_AB]) /\
  store_shape (mkFrame STORE_COLUMNS [persisted row_AB]) = true /\
  write_fault (merge [row_AB] blank) OUTPUT_FILENAME = None /\
  accepts (merge [row_AB] blank)
    (handed_rows [row_CD] OUTPUT_FILENAME (merge [row_AB] blank)) /\
  exists w' ordered written_sheet,
    save_to_excel [row_CD] OUTPUT_FILENAME (merge [row_AB] blank) = (inr tt, w') /\
    (forall r, In r ordered <-> In r [row_CD]) /\
    NoDup ordered /\ Sorted by_ordinal ordered /\
    files w' OUTPUT_FILENAME = Workbook written_sheet /\
    rows written_sheet
    = map persisted ordered
      ++ drop_duplicates_from []
           (loaded (merge [row_AB] blank)
              (mkFrame STORE_COLUMNS [persisted row_AB])) /\
    columns written_sheet = STORE_COLUMNS /\
    ~ In (lit "index") (columns written_sheet) /\
    store_shape written_sheet = true.
Proof.
  assert (Hexact : exact_ordinals [row_CD])
    by (repeat constructor).
  assert (Hacc : accepts (merge [row_AB] blank)
                   (handed_rows [row_CD] OUTPUT_FILENAME (merge [row_AB] blank)))
    by (intros row v _ _; reflexivity).
  split; [discriminate|]. split; [exact Hexact|].
  split; [reflexivity|]. split; [reflexivity|].
  split; [reflexivity|]. split; [exact Hacc|].
  apply (C3_merge_order [row_CD] OUTPUT_FILENAME (merge [row_AB] blank)
           (mkFrame STORE_COLUMNS [persisted row_AB]));
    [discriminate | exact Hexact | reflexivity | reflexivity | reflexivity
    | exact Hacc].
Defined.

(** C3 as first stated fails: the stored row had ordinal 0 in its batch
    and the new row has ordinal 1, yet the new row is written first. *)
Lemma C3_counterexample :
  store (merge [row_CD] (merge [row_AB] blank))
  = Workbook (mkFrame STORE_COLUMNS [persisted row_CD; persisted row_AB]) /\
  (index row_AB < index row_CD)%Z /\
  rows_by_original_ordinal [row_AB; row_CD]
  = [persisted row_AB; persisted row_CD] /\
  sheet_rows (store (merge [row_CD] (merge [row_AB] blank)))
  <> rows_by_original_ordinal [row_AB; row_CD].
Proof.
  split; [reflexivity|]. split; [reflexivity|]. split; [reflexivity|].
  intros H. vm_compute in H. discriminate.
Qed.

(** ** Effects: what only logs, and the log never shrinks *)

Lemma only_logs_ret {A : Type} (a : A) : only_logs (ret a).
Proof. intros w r w' H. inversion H; subst. exists []. now rewrite logged_nil. Qed.

Lemma only_logs_raise {A : Type} (e : Exn) : only_logs (@raise A e).
Proof. intros w r w' H. inversion H; subst. exists []. now rewrite logged_nil. Qed.

Lemma only_logs_bind {A B : Type} (m : M A) (k : A -> M B) :
  only_logs m -> (forall a, only_logs (k a)) -> only_logs (bind m k).
Proof.
  intros Hm Hk w r w' H. unfold bind in H.
  destruct (m w) as [[e|a] w1] eqn:E.
  - inversion H; subst. eapply Hm; eauto.
  - destruct (Hm _ _ _ E) as (l1 & ->).
    destruct (Hk a _ _ _ H) as (l2 & ->).
    exists (l1 ++ l2). apply logged_logged.
Qed.

Lemma only_logs_try {A : Type} (body : M A) (handler : Exn -> M A) :
  only_logs body -> (forall e, only_logs (handler e)) ->
  only_logs (try_except body handler).
Proof.
  intros Hm Hk w r w' H. unfold try_except in H.
  destruct (body w) as [[e|a] w1] eqn:E.
  - destruct (Hm _ _ _ E) as (l1 & ->).
    destruct (Hk e _ _ _ H) as (l2 & ->).
    exists (l1 ++ l2). apply logged_logged.
  - inversion H; subst. eapply Hm; eauto.
Qed.

Lemma only_logs_logger (l : Level) (msg : str) : only_logs (logger l msg).
Proof.
  intros w r w' H. unfold logger in H.
  destruct (level_no LOGGING_LEVEL <=? level_no l)%nat; inversion H; subst.
  - exists [mkLog l msg]. reflexivity.
  - exists []. now rewrite logged_nil.
Qed.

Lemma only_logs_except {A : Type} (k : ExnKind) (handler : M A) (e : Exn) :
  only_logs handler -> only_logs (except_ k handler e).
Proof.
  intros H. unfold except_.
  destruct (ExnKind_eqb (exn_kind e) k); [assumption | apply only_logs_raise].
Qed.

Lemma only_logs_if {A : Type} (b : bool) (m1 m2 : M A) :
  only_logs m1 -> only_logs m2 -> only_logs (if b then m1 else m2).
Proof. destruct b; auto. Qed.

Create HintDb effects.
#[local] Hint Resolve only_logs_ret only_logs_raise only_logs_logger
  only_logs_except only_logs_if : effects.

Ltac only_logs_step :=
  first [ apply only_logs_bind; [|intros ?]
        | apply only_logs_try; [|intros ?]
        | apply only_logs_except
        | apply only_logs_if
        | apply only_logs_ret
        | apply only_logs_raise
        | apply only_logs_logger ].

Lemma only_logs_attempt {A : Type} (r : Exn + A) : only_logs (attempt r).
Proof. destruct r; simpl; auto with effects. Qed.

Lemma only_logs_get_notary_details (setup_driver : Exn + Driver) (url : str)
    (q : Queue) (full_name : str) (index : Z) :
  only_logs (get_notary_details setup_driver url q full_name index).
Proof.
  intros w r w' H. destruct setup_driver as [e|driver].
  - rewrite get_notary_details_unstarted in H. inversion H; subst.
    exists []. now rewrite logged_nil.
  - destruct (get_notary_details_puts driver url q full_name index w)
      as (lines & Hrun).
    rewrite Hrun in H. inversion H; subst. eauto.
Qed.

Lemma only_logs_start_thread (i : nat) (el : ListingElement) :
  only_logs (start_thread i el).
Proof.
  unfold start_thread. apply only_logs_try.
  - apply only_logs_bind; [apply only_logs_attempt|]. intros name.
    apply only_logs_bind; [apply only_logs_attempt|]. intros h.
    destruct h; [apply only_logs_if|]; repeat only_logs_step.
  - intros e. repeat only_logs_step.
Qed.

Lemma only_logs_dispatch (elements : list ListingElement) (i : nat) :
  only_logs (dispatch i elements).
Proof.
  revert i. induction elements as [|el rest IH]; intros i; simpl.
  - auto with effects.
  - apply only_logs_bind; [apply only_logs_start_thread|].
    intros started. apply only_logs_bind; [apply IH|].
    intros more. auto with effects.
Qed.







Lemma only_logs_sort_values (df : DataFrame) (by_ : str) :
  only_logs (sort_values df by_).
Proof.
  unfold sort_values. destruct (get_loc by_ (columns df)); [|auto with effects].
  apply only_logs_if; auto with effects.
Qed.

Lemma only_logs_drop (df : DataFrame) (label : str) :
  only_logs (drop df label).
Proof.
  unfold drop. destruct (get_loc label (columns df)); auto with effects.
Qed.





(** ** The batch coordinator *)

Lemma truthy_spec (h : option str) :
  truthy h = true <-> exists url, h = Some url /\ url <> [].
Proof.
  destruct h as [[|c s]|]; simpl; split; intros H; try discriminate.
  - destruct H as (url & Hu & Hne). inversion Hu; subst. congruence.
  - exists (c :: s). split; [reflexivity | discriminate].
  - reflexivity.
  - destruct H as (url & Hu & _). discriminate.
Qed.

(** One element: a thread when its name and link can be read and the
    link has a target, a warning when it can be read and has none, an
    error line when it cannot be read. *)
Lemma start_thread_spec (i : nat) (el : ListingElement) (w : World) :
  exists started lines,
    start_thread i el w = (inr started, logged lines w) /\
    (forall t, In t started <->
       thread_index t = i /\ h3_text el = inr (thread_full_name t) /\
       a_href el = inr (Some (thread_url t)) /\ thread_url t <> []) /\
    (forall name h,
       h3_text el = inr name -> a_href el = inr h -> truthy h = false ->
       In (mkLog WARNING (lit "No URL found for " ++ name)) lines).
Proof.
  unfold start_thread, try_except, bind, attempt.
  destruct el as [[e|name] ah]; cbn [h3_text a_href].
  - unfold raise. rewrite logger_shown by reflexivity. unfold ret.
    eexists. eexists. split; [reflexivity|]. split.
    + intros t. split; [intros [] | intros (_ & H & _); discriminate].
    + intros nm h H. discriminate.
  - destruct ah as [e|[url|]]; unfold ret at 1.
    + unfold raise. rewrite logger_shown by reflexivity. unfold ret.
      eexists. eexists. split; [reflexivity|]. split.
      * intros t. split; [intros [] | intros (_ & _ & H & _); discriminate].
      * intros nm h _ H. discriminate.
    + unfold ret at 1. destruct (truthy (Some url)) eqn:Htr.
      * exists [mkThread url name i], []. unfold ret. rewrite logged_nil.
        split; [reflexivity|]. split.
        -- intros t. simpl. split.
           ++ intros [<-|[]]. simpl. repeat split.
              apply truthy_spec in Htr. destruct Htr as (u & Hu & Hne).
              inversion Hu; subst. exact Hne.
           ++ intros (H1 & H2 & H3 & _). left. destruct t; simpl in *.
              inversion H2; inversion H3; subst. reflexivity.
        -- intros nm h _ H Hf. inversion H; subst. congruence.
      * rewrite logger_shown by reflexivity.
        eexists. eexists. split; [reflexivity|]. split.
        -- intros t. split; [intros []|]. intros (_ & _ & H & Hne).
           inversion H; subst. simpl in Htr.
           destruct (thread_url t); [congruence | discriminate].
        -- intros nm h H1 _ _. inversion H1; subst. left. reflexivity.
    + unfold ret at 1. rewrite logger_shown by reflexivity.
      eexists. eexists. split; [reflexivity|]. split.
      * intros t. split; [intros [] | intros (_ & _ & H & _); discriminate].
      * intros nm h H1 _ _. inversion H1; subst. left. reflexivity.
Qed.

(** The dispatch loop never raises; it starts a thread exactly for the
    elements whose name and link could be read and whose link has a
    target, and it warns about every element read without one. *)
Lemma dispatch_spec (elements : list ListingElement) (i : nat) (w : World) :
  exists threads lines,
    dispatch i elements w = (inr threads, logged lines w) /\
    (forall t, In t threads <->
       exists k el,
         nth_error elements k = Some el /\ thread_index t = i + k /\
         h3_text el = inr (thread_full_name t) /\
         a_href el = inr (Some (thread_url t)) /\ thread_url t <> []) /\
    (forall k el name h,
       nth_error elements k = Some el -> h3_text el = inr name ->
       a_href el = inr h -> truthy h = false ->
       In (mkLog WARNING (lit "No URL found for " ++ name)) lines).
Proof.
  revert i w. induction elements as [|el rest IH]; intros i w.
  - exists [], []. simpl. unfold ret. rewrite logged_nil.
    split; [reflexivity|]. split.
    + intros t. split; [intros [] | intros (k & x & H & _)].
      destruct k; discriminate.
    + intros k x name h H. destruct k; discriminate.
  - cbn [dispatch].
    destruct (start_thread_spec i el w) as (started & l1 & Hs & Hst & Hsw).
    destruct (IH (S i) (logged l1 w)) as (more & l2 & Hrun & Hth & Hwarn).
    unfold bind. rewrite Hs, Hrun. unfold ret. rewrite logged_logged.
    eexists. eexists. split; [reflexivity|]. split.
    + intros t. rewrite in_app_iff, Hst, Hth. split.
      * intros [(H1 & H2)|(k & x & H1 & H2 & H3)].
        -- exists 0, el. split; [reflexivity|]. split; [lia | exact H2].
        -- exists (S k), x. split; [exact H1|]. split; [lia | exact H3].
      * intros (k & x & H1 & H2 & H3). destruct k as [|k].
        -- left. simpl in H1. inversion H1; subst. split; [lia | exact H3].
        -- right. exists k, x. split; [exact H1|]. split; [lia | exact H3].
    + intros k x nm h H1 H2 H3 H4. apply in_or_app. destruct k as [|k].
      * left. simpl in H1. inversion H1; subst. eapply Hsw; eauto.
      * right. eapply Hwarn; eauto.
Qed.

(** The workers never make the batch raise: each leaves the items of
    its thread behind those already on the queue, and lines in the
    log. *)
Lemma run_threads_spec (setup_driver : nat -> Exn + Driver)
    (threads : list Thread) (q : Queue) (w : World) :
  exists lines,
    run_threads setup_driver threads q w
    = (inr (q ++ flat_map (thread_items setup_driver) threads),
       logged lines w).
Proof.
  revert q w. induction threads as [|t rest IH]; intros q w; simpl.
  - exists []. unfold ret. now rewrite logged_nil, app_nil_r.
  - unfold thread_items at 1.
    destruct (setup_driver (thread_index t)) as [e|driver] eqn:Hsetup.
    + rewrite get_notary_details_unstarted.
      destruct (IH q w) as (lines & Hrest). rewrite Hrest.
      exists lines. reflexivity.
    + destruct (get_notary_details_puts driver (thread_url t) q
                  (thread_full_name t) (Z.of_nat (thread_index t)) w)
        as (l1 & Hrun).
      rewrite Hrun.
      destruct (IH (put q (outcome driver (thread_url t) (thread_full_name t)
                             (Z.of_nat (thread_index t)))) (logged l1 w))
        as (l2 & Hrest).
      rewrite Hrest. exists (l1 ++ l2). rewrite logged_logged. unfold put.
      simpl. now rewrite <- app_assoc.
Qed.



(** The rows handed to the writer are rows of the batch or rows read
    from the store, and the log has no part in them. *)
Lemma handed_rows_sources (new_data : list DetailRecord) (filename : str)
    (w : World) (row : list Cell) :
  In row (handed_rows new_data filename w) ->
  (exists r, In r new_data /\ row = persisted r) \/
  In row (stored_rows filename w).
Proof.
  unfold handed_rows, stored_rows.
  assert (Hc : In row (created_rows new_data) ->
               exists r, In r new_data /\ row = persisted r).
  { unfold created_rows. intros H. apply in_map_iff in H.
    destruct H as (r & <- & Hr). exists r. split; [|reflexivity].
    eapply Permutation_in; [apply sort_records_perm | exact Hr]. }
  destruct (files w filename) as [|sheet|e]; auto.
  unfold merged_rows. intros H. apply in_app_or in H. destruct H as [H|H].
  - left. now apply batch_rows_In.
  - right. now apply (proj1 (drop_duplicates_In _ _)).
Qed.

Lemma accepts_handed_rows (new_data : list DetailRecord) (filename : str)
    (w : World) :
  accepts w (map persisted new_data ++ stored_rows filename w) ->
  accepts w (handed_rows new_data filename w).
Proof.
  intros H row v Hrow Hv. apply (H row); [|exact Hv].
  apply in_or_app. apply handed_rows_sources in Hrow.
  destruct Hrow as [(r & Hr & ->)|Hrow]; [left; now apply in_map | now right].
Qed.

(** The batch call, stage by stage. *)
Lemma process_notaries_run (setup_driver : nat -> Exn + Driver)
    (arrival : list Thread -> list Thread)
    (elements : list ListingElement) (current_page : nat) (w : World)
    (threads : list Thread) (w1 w2 : World) :
  dispatch 0 elements w = (inr threads, w1) ->
  run_threads setup_driver (arrival threads) [] w1
  = (inr (flat_map (thread_items setup_driver) (arrival threads)), w2) ->
  process_notaries setup_driver arrival elements current_page w
  = match drain (flat_map (thread_items setup_driver) (arrival threads)) with
    | [] => (inr [], w2)
    | d :: ds =>
        match save_to_excel (d :: ds) OUTPUT_FILENAME w2 with
        | (inl e, w3) => (inl e, w3)
        | (inr _, w3) => (inr (d :: ds), w3)
        end
    end.
Proof.
  intros Hd Hr. unfold process_notaries, bind. rewrite Hd, Hr.
  destruct (drain (flat_map (thread_items setup_driver) (arrival threads)))
    as [|d ds]; [reflexivity|].
  destruct (save_to_excel (d :: ds) OUTPUT_FILENAME w2) as [[e|u] w3];
    reflexivity.
Qed.



(** The sample batch: one record comes back, the entry without a link
    target and the unreadable entry start no worker, the profile that
    never renders and the worker without a session leave no record,
    and the batch call returns. *)
Example sample_batch :
  fst (process_notaries sample_setup (@rev Thread) sample_listing 0 blank)
  = inr [jane] /\
  fst (dispatch 0 sample_listing blank)
  = inr [mkThread (lit "https://notaries-directory.eu/en/jane")
           (lit "Jane Q. Public") 0;
         mkThread (lit "https://notaries-directory.eu/en/slow")
           (lit "Slow Page") 3;
         mkThread (lit "https://notaries-directory.eu/en/none")
           (lit "No Session") 4] /\
  flat_map (thread_items sample_setup)
    [mkThread (lit "https://notaries-directory.eu/en/jane")
       (lit "Jane Q. Public") 0;
     mkThread (lit "https://notaries-directory.eu/en/slow")
       (lit "Slow Page") 3;
     mkThread (lit "https://notaries-directory.eu/en/none")
       (lit "No Session") 4]
  = [Some jane; None].
Proof. repeat split. Qed.

(** ** Failures of the merge *)

Lemma only_logs_write_fault {A : Type} (m : M A) (w w' : World) (r : Exn + A)
    (filename : str) :
  only_logs m -> m w = (r, w') ->
  write_fault w' filename = write_fault w filename.
Proof. intros Hm H. destruct (Hm _ _ _ H) as (l & ->). reflexivity. Qed.

(** With a disk that refuses the write, the steps from [to_excel] on
    raise what the disk answers. *)
Lemma write_refused (df : DataFrame) (filename : str) (e : Exn) (w : World)
    (k : unit -> M unit) :
  write_fault w filename = Some e ->
  bind (to_excel df filename) k w = (inl e, w).
Proof. intros H. unfold bind, to_excel. now rewrite H. Qed.

(** A file that cannot be loaded: [read_excel] raises and the body
    stops there. *)
Lemma save_body_unreadable (new_data : list DetailRecord) (filename : str)
    (w : World) (e : Exn) :
  files w filename = Unreadable e ->
  save_body new_data filename w = (inl e, w).
Proof.
  intros H. unfold save_body, bind, path_exists, read_excel.
  rewrite H. cbv iota beta. rewrite H. reflexivity.
Qed.

(** A disk that refuses the write: the body raises, whatever the file
    held. *)
Lemma save_body_write_fault (new_data : list DetailRecord) (filename : str)
    (w : World) (e : Exn) :
  write_fault w filename = Some e ->
  exists e' w1, save_body new_data filename w = (inl e', w1).
Proof.
  intros Hwf. unfold save_body.
  unfold bind at 1. unfold path_exists at 1.
  assert (Htail : forall (df : DataFrame) (w0 : World),
    write_fault w0 filename = Some e ->
    exists e' w1,
      bind (sort_values df (lit "index"))
        (fun df1 =>
           bind (drop df1 (lit "index"))
             (fun df2 =>
                bind (to_excel df2 filename)
                  (fun _ =>
                     bind (format_excel filename)
                       (fun _ =>
                          logger INFO
                            (lit "Data saved to " ++ filename
                             ++ lit ". Total records: "
                             ++ str_of_nat (List.length (rows df2))))))) w0
      = (inl e', w1)).
  { intros df w0 H0. unfold bind at 1.
    destruct (sort_values df (lit "index") w0) as [[e1|df1] w1] eqn:E1;
      [eauto|].
    pose proof (only_logs_write_fault _ _ _ _ filename
                  (only_logs_sort_values df (lit "index")) E1) as H1.
    unfold bind at 1.
    destruct (drop df1 (lit "index") w1) as [[e2|df2] w2] eqn:E2; [eauto|].
    pose proof (only_logs_write_fault _ _ _ _ filename
                  (only_logs_drop df1 (lit "index")) E2) as H2.
    rewrite write_refused with (e := e) by congruence. eauto. }
  destruct (files w filename) as [|sheet|e0] eqn:Hfile.
  - unfold bind at 1. unfold bind at 1. rewrite logger_shown by reflexivity.
    unfold ret at 1. apply Htail. exact Hwf.
  - unfold bind at 1. unfold bind at 1. unfold read_excel at 1. rewrite Hfile.
    unfold bind at 1. rewrite logger_shown by reflexivity.
    unfold ret at 1. apply Htail. exact Hwf.
  - unfold bind at 1. unfold bind at 1. unfold read_excel at 1. rewrite Hfile.
    eauto.
Qed.

(** On a store that can be loaded, what the refused write raises is the
    disk's own answer. *)
Lemma save_body_write_fault_ready (new_data : list DetailRecord)
    (filename : str) (w : World) (e : Exn) :
  new_data <> [] ->
  write_fault w filename = Some e ->
  store_loadable filename w ->
  exists w1, save_body new_data filename w = (inl e, w1).
Proof.
  intros Hne Hwf Hload.
  destruct (save_body_loadable new_data filename w Hne Hload) as (line & Hbody).
  rewrite Hbody. rewrite save_frame_write_fault with (e := e) by exact Hwf.
  eauto.
Qed.

(** A value of the batch that the writer refuses: the body raises. *)
Lemma save_body_refused (new_data : list DetailRecord) (filename : str)
    (w : World) (r : DetailRecord) (v : Cell) (e : Exn) :
  store_ready filename w -> In r new_data -> In v (persisted r) ->
  refuses w v = Some e ->
  exists e' w1, save_body new_data filename w = (inl e', w1).
Proof.
  intros [Hwf Hload] Hr Hv He.
  assert (Hne : new_data <> []) by (intros ->; destruct Hr).
  destruct (save_body_loadable new_data filename w Hne Hload) as (line & Hbody).
  pose proof (handed_rows_four new_data filename w Hload) as Hfour.
  destruct (refused_from (refuses w) (handed_rows new_data filename w) 0 4)
    as [[[j i] e']|] eqn:Href.
  - rewrite Hbody.
    rewrite (save_frame_refused
               (mkFrame STORE_COLUMNS (handed_rows new_data filename w))
               filename (add_log line w) j i e' Hwf Href).
    eauto.
  - apply (refused_from_accepts w _ 4 Hfour) in Href.
    rewrite (Href (persisted r) v) in He;
      [discriminate | now apply handed_rows_batch | exact Hv].
Qed.

Lemma run_aborts_holds : run_aborts.
Proof.
  unfold run_aborts. split; [|split].
  - intros sd arr page total i current rest all_data w e w3 H.
    cbn [for_batches]. cbv zeta. rewrite H. reflexivity.
  - intros fuel site sd arr nav page all_data w x xs e all_data' w3 Hsite H.
    cbn [main_loop]. cbv zeta. rewrite Hsite. rewrite H. reflexivity.
  - intros fuel site sd arr w e all_data w1 H.
    unfold main. rewrite H. reflexivity.
Qed.

(** C8: an empty batch is a warning and leaves the files as they were;
    a failure while loading, combining or writing is logged as an error
    and raised again to the caller, through the batch call up to the
    handler of [main], which ends the run. *)
Theorem C8_merge_failure (new_data : list DetailRecord) (filename : str)
    (w : World) :
  merge_contract new_data filename w /\ run_aborts.
Proof.
  split; [|exact run_aborts_holds].
  unfold merge_contract. split; [|split].
  - intros ->. split; reflexivity.
  - intros Hne. split; [|split; [|split]].
    + intros e w1 Hbody. destruct new_data as [|r0 rs]; [congruence|].
      unfold save_to_excel, try_except. rewrite Hbody.
      unfold bind. rewrite logger_shown by reflexivity. reflexivity.
    + intros e. apply save_body_unreadable.
    + intros e Hwf. split.
      * eapply save_body_write_fault; eauto.
      * intros Hload. eapply save_body_write_fault_ready; eauto.
    + intros r v e Hready Hr Hv He. eapply save_body_refused; eauto.
  - intros sd arr elements page w0 threads w1 e w3 Hd Hr Hdr Hs.
    rewrite (process_notaries_run sd arr elements page w0 threads w1 w Hd Hr).
    rewrite Hdr. destruct new_data as [|d ds].
    + simpl in Hs. unfold logger in Hs. simpl in Hs. discriminate.
    + rewrite Hs. reflexivity.
Qed.

(** The contract at an empty batch, at a store file that cannot be
    read, at a disk that refuses the write and at a value the writer
    refuses, with its conditions met. *)
Lemma C8_merge_failure_witness :
  save_to_excel [] OUTPUT_FILENAME blank
  = (inr tt, add_log (mkLog WARNING (lit "No data to save")) blank) /\
  save_to_excel [row_AB] OUTPUT_FILENAME broken_file
  = (inl (mkExn OSError (lit "File is not a zip file")),
     add_log (mkLog ERROR (lit "Error saving data to " ++ OUTPUT_FILENAME
                           ++ lit ": " ++ lit "File is not a zip file"))
             broken_file) /\
  (exists w1,
     save_body [row_AB] OUTPUT_FILENAME locked_disk
     = (inl (mkExn OSError (lit "[Errno 13] Permission denied")), w1)) /\
  (exists e' w1,
     save_body [row_VT] OUTPUT_FILENAME strict_writer = (inl e', w1)).
Proof.
  split; [|split; [|split]].
  - destruct (C8_merge_failure [] OUTPUT_FILENAME blank) as [[Hempty _] _].
    destruct (Hempty eq_refl) as [Hrun _]. exact Hrun.
  - destruct (C8_merge_failure [row_AB] OUTPUT_FILENAME broken_file)
      as [[_ [Hfull _]] _].
    assert (Hne : [row_AB] <> []) by discriminate.
    destruct (Hfull Hne) as (Hraise & Hload & _).
    apply Hraise. apply Hload. reflexivity.
  - destruct (C8_merge_failure [row_AB] OUTPUT_FILENAME locked_disk)
      as [[_ [Hfull _]] _].
    assert (Hne : [row_AB] <> []) by discriminate.
    destruct (Hfull Hne) as (_ & _ & Hwrite & _).
    destruct (Hwrite (mkExn OSError (lit "[Errno 13] Permission denied"))
                eq_refl) as [_ Hsame].
    apply Hsame. left. reflexivity.
  - destruct (C8_merge_failure [row_VT] OUTPUT_FILENAME strict_writer)
      as [[_ [Hfull _]] _].
    assert (Hne : [row_VT] <> []) by discriminate.
    destruct (Hfull Hne) as (_ & _ & _ & Hrefused).
    apply (Hrefused row_VT (Str [90; 11]%N)
             (mkExn IllegalCharacterError
                ([90; 11]%N ++ lit " cannot be used in worksheets."))).
    + split; [reflexivity | left; reflexivity].
    + left. reflexivity.
    + simpl. auto.
    + reflexivity.
Defined.

(** The cases run: the empty batch, the unreadable file, the refused
    write and the refused value. *)
Example merge_of_nothing :
  save_to_excel [] OUTPUT_FILENAME blank
  = (inr tt, add_log (mkLog WARNING (lit "No data to save")) blank).
Proof. reflexivity. Qed.

Example merge_into_broken_file :
  fst (save_to_excel [row_AB] OUTPUT_FILENAME broken_file)
  = inl (mkExn OSError (lit "File is not a zip file")) /\
  log (snd (save_to_excel [row_AB] OUTPUT_FILENAME broken_file))
  = [mkLog ERROR
       (lit "Error saving data to notaries_data.xlsx: File is not a zip file")] /\
  store (merge [row_AB] broken_file) = store broken_file.
Proof. repeat split. Qed.

Example merge_onto_locked_disk :
  fst (save_to_excel [row_AB] OUTPUT_FILENAME locked_disk)
  = inl (mkExn OSError (lit "[Errno 13] Permission denied")) /\
  log (snd (save_to_excel [row_AB] OUTPUT_FILENAME locked_disk))
  = [mkLog INFO (lit "Creating new file: notaries_data.xlsx");
     mkLog ERROR
       (lit "Error saving data to notaries_data.xlsx: [Errno 13] Permission denied")].
Proof. repeat split. Qed.

(** A value the writer refuses, in the last column of the second row
    of the frame handed over: the call raises, and the workbook is left
    with the first row and with what was written of the second. *)
Example merge_of_refused_value :
  fst (save_to_excel [row_VT] OUTPUT_FILENAME (merge [row_AB] strict_writer))
  = inl (mkExn IllegalCharacterError
           ([90; 11]%N ++ lit " cannot be used in worksheets.")) /\
  store (merge [row_VT] (merge [row_AB] strict_writer))
  = Workbook
      (mkFrame STORE_COLUMNS
         [[Str (lit "E F"); Str (lit "E"); Str (lit "e@z.com"); NaN];
          [Str (lit "A B"); Str (lit "A"); Str (lit "a@x.com"); NaN]]).
Proof. split; reflexivity. Qed.

(** A name the writer refuses, in the first cell it is handed: the
    workbook is left with its header row alone, and the row it held is
    gone. *)
Example merge_of_refused_name :
  store (merge [mkRecord 0 [11; 66]%N [11; 66]%N (lit "b@x.com") (lit "X")]
           (merge [row_AB] strict_writer))
  = Workbook (mkFrame STORE_COLUMNS []).
Proof. reflexivity. Qed.

(** A run against a disk that refuses the write: the first batch call
    raises, no further page is asked for, and [main] returns after
    logging the failure. *)
Example run_onto_locked_disk :
  fst (main 5 (inr sample_site) (fun _ _ => sample_setup) (fun _ _ ts => ts)
         locked_disk)
  = inr (Raised (mkExn OSError (lit "[Errno 13] Permission denied"))) /\
  skipn 8 (log (snd (main 5 (inr sample_site) (fun _ _ => sample_setup)
                       (fun _ _ ts => ts) locked_disk)))
  = [mkLog ERROR
       (lit "Unexpected error in main loop: [Errno 13] Permission denied");
     mkLog INFO (lit "Scraping completed. Driver closed.");
     mkLog INFO (lit "Total records collected: 0")].
Proof. split; reflexivity. Qed.

(** A run on a healthy disk ends by leaving the loop. *)
Example run_to_the_end :
  fst (main 5 (inr sample_site) (fun _ _ => sample_setup) (fun _ _ ts => ts)
         blank)
  = inr Broke /\
  store (snd (main 5 (inr sample_site) (fun _ _ => sample_setup)
                (fun _ _ ts => ts) blank))
  = Workbook (mkFrame STORE_COLUMNS [persisted jane]).
Proof. split; reflexivity. Qed.

(** When the session of the listing pages does not start, [main] is
    left with the exception before anything is logged. *)
Example run_without_session :
  main 5 (inl (mkExn WebDriverException (lit "Message: session not created")))
       (fun _ _ => sample_setup) (fun _ _ ts => ts) blank
  = (inl (mkExn WebDriverException (lit "Message: session not created")), blank).
Proof. reflexivity. Qed.

(** * Further properties of the code *)

(** ** The extractor *)

(** X1: on a started session an extraction never raises and changes
    nothing but the log and the queue, to which it adds exactly one
    item behind those already there; which item it adds depends on the
    session, the URL, the name and the ordinal alone, not on the queue
    or on what was logged or stored before.  When [setup_driver()]
    raises, the call raises the same exception and nothing else
    happens: nothing is put and nothing is logged. *)
Theorem X1_extraction_puts_one_item (url full_name : str) (index : Z) :
  (forall driver : Driver,
     exists item,
       forall (q : Queue) (w : World),
         exists lines,
           get_notary_details (inr driver) url q full_name index w
           = (inr (q ++ [item]), logged lines w)) /\
  (forall (e : Exn) (q : Queue) (w : World),
     get_notary_details (inl e) url q full_name index w = (inl e, w)).
Proof.
  split.
  - intros driver. exists (outcome driver url full_name index). intros q w.
    apply get_notary_details_puts.
  - intros e q w. reflexivity.
Qed.

Lemma ExnKind_eqb_eq (a b : ExnKind) : ExnKind_eqb a b = true <-> a = b.
Proof. destruct a, b; simpl; split; intros H; congruence. Qed.

Lemma tokens_not_blank (s tok : str) (front : list str) :
  rev (PyStr.split s) = tok :: front -> PyStr.all_space s = false.
Proof.
  intros H. destruct (PyStr.all_space s) eqn:E; [|reflexivity].
  apply all_space_split in E. rewrite E in H. discriminate.
Qed.

Lemma token_not_blank (s first : str) (others : list str) :
  PyStr.split s = first :: others -> PyStr.all_space s = false.
Proof.
  intros H. destruct (PyStr.all_space s) eqn:E; [|reflexivity].
  apply all_space_split in E. congruence.
Qed.

Lemma blank_no_token (s : str) :
  rev (PyStr.split s) = [] -> PyStr.all_space s = true.
Proof.
  intros H. apply split_nil.
  apply (f_equal (@rev _)) in H. now rewrite rev_involutive in H.
Qed.

(** When an extraction yields a record. *)
Lemma outcome_some_iff (driver : Driver) (url full_name : str) (ordinal : Z) :
  (exists r, outcome driver url full_name ordinal = Some r) <->
  exists p,
    driver url = Rendered p /\ country_ok p /\ mail_target_ok p /\
    name_ok full_name.
Proof.
  split.
  - intros (r & H). revert H. unfold outcome. unfold_py. simpl.
    repeat step; intros H; try discriminate;
      (eexists; split; [reflexivity|]);
      unfold country_ok, mail_target_ok, name_ok;
      repeat match goal with
             | E : ?x = _ |- context [match ?x with _ => _ end] => rewrite E
             end;
      repeat split;
      first [ now apply ExnKind_eqb_eq
            | eapply tokens_not_blank; eassumption
            | left; now apply is_empty_true
            | right; eapply token_not_blank; eassumption ].
  - intros (p & Hnav & Hc & Hm & Hn).
    apply name_ok_first in Hn.
    unfold outcome. unfold_py. simpl. rewrite Hnav. simpl.
    unfold country_ok, mail_target_ok in Hc, Hm. revert Hc Hm.
    destruct Hn as [He|(He & first & others & Hs)]; rewrite He; simpl;
      [|rewrite Hs; simpl];
      repeat step; intros Hc Hm;
      first [ eexists; reflexivity
            | contradiction
            | apply ExnKind_eqb_eq in Hc; congruence
            | apply ExnKind_eqb_eq in Hm; congruence
            | match goal with
              | E : rev (PyStr.split _) = [] |- _ =>
                  apply blank_no_token in E; congruence
              end ].
Qed.

(** X2: an extraction puts a record, and not the [None] sentinel,
    exactly when its session starts, the page renders, the country node
    is missing or its text holds a token, the mail link is missing or
    has a target, and the name is empty or holds a token; any other
    exception of the session makes it put none.  The record then
    carries the ordinal and the name it was given. *)
Theorem X2_record_iff (setup_driver : Exn + Driver) (url : str) (q : Queue)
    (full_name : str) (ordinal : Z) (w : World) :
  ((exists r w',
      get_notary_details setup_driver url q full_name ordinal w
      = (inr (q ++ [Some r]), w')) <->
   (exists driver p,
      setup_driver = inr driver /\
      driver url = Rendered p /\ country_ok p /\ mail_target_ok p /\
      name_ok full_name)) /\
  (forall r w',
     get_notary_details setup_driver url q full_name ordinal w
     = (inr (q ++ [Some r]), w') ->
     index r = ordinal /\ Full_Name r = full_name).
Proof.
  split.
  - split.
    + intros (r & w' & H). apply outcome_run in H.
      destruct H as (driver & Hs & H). exists driver.
      destruct (proj1 (outcome_some_iff driver url full_name ordinal))
        as (p & Hp); [eauto|].
      exists p. tauto.
    + intros (driver & p & -> & Hp).
      destruct (proj2 (outcome_some_iff driver url full_name ordinal))
        as (r & H); [eauto|].
      destruct (get_notary_details_puts driver url q full_name ordinal w)
        as (lines & Hrun).
      exists r, (logged lines w). rewrite Hrun, H. reflexivity.
  - intros r w' H. apply outcome_run in H. destruct H as (driver & _ & H).
    apply outcome_rendered in H. tauto.
Qed.

(** A mail link whose attribute cannot be read for another reason than
    that it is missing, and a country node whose text cannot be read:
    no record. *)
Example stale_elements :
  outcome (showing (mkPage (inl no_such_element)
                      (inr (mkElement (inr (lit "x"))
                              (inl (mkExn WebDriverException
                                      (lit "Message: stale element")))))))
          (lit "u") (lit "Jane Q. Public") 0 = None /\
  outcome (showing (mkPage (inr (mkElement
                                   (inl (mkExn WebDriverException
                                           (lit "Message: stale element")))
                                   (inr None)))
                           (inl no_such_element)))
          (lit "u") (lit "Jane Q. Public") 0 = None.
Proof. split; reflexivity. Qed.

(** ** The persistence merger *)

Lemma accepts_perm (w : World) (a b : list (list Cell)) :
  (forall row, In row b -> In row a) -> accepts w a -> accepts w b.
Proof. intros Hsub H row v Hrow Hv. apply (H row); auto. Qed.

(** X3: when the file does not exist yet, the disk takes the write and
    the writer takes every value of the batch, a merge of a non-empty
    batch creates the workbook with the four store columns and one row
    for every record of the batch, repeated records included, in
    ascending order of their ordinals, and touches no other file. *)
Theorem X3_first_merge_creates (new_data : list DetailRecord)
    (filename : str) (w : World) :
  new_data <> [] ->
  files w filename = Absent -> write_fault w filename = None ->
  accepts w (map persisted new_data) ->
  exists w' ordered,
    save_to_excel new_data filename w = (inr tt, w') /\
    Permutation ordered new_data /\ Sorted by_ordinal ordered /\
    files w' filename = Workbook (mkFrame STORE_COLUMNS (map persisted ordered)) /\
    (forall n, n <> filename -> files w' n = files w n).
Proof.
  intros Hne Hfile Hwf Hacc.
  assert (Hready : store_ready filename w) by (split; [exact Hwf | now left]).
  assert (Hrows : handed_rows new_data filename w
                  = map persisted (sort_records new_data)).
  { unfold handed_rows. rewrite Hfile. reflexivity. }
  destruct (save_to_excel_written new_data filename w Hne Hready)
    as (w' & Hrun & Hfiles & Hother & _).
  { rewrite Hrows. revert Hacc. apply accepts_perm. intros row H.
    apply in_map_iff in H. destruct H as (r & <- & Hr). apply in_map.
    eapply Permutation_in; [apply sort_records_perm | exact Hr]. }
  exists w', (sort_records new_data).
  split; [exact Hrun|]. split; [apply sort_records_perm|].
  split; [apply sort_records_sorted|].
  split; [now rewrite <- Hrows | exact Hother].
Qed.

Lemma X3_first_merge_creates_witness :
  [row_CD; row_AB] <> [] /\
  files blank OUTPUT_FILENAME = Absent /\
  write_fault blank OUTPUT_FILENAME = None /\
  accepts blank (map persisted [row_CD; row_AB]) /\
  exists w' ordered,
    save_to_excel [row_CD; row_AB] OUTPUT_FILENAME blank = (inr tt, w') /\
    Permutation ordered [row_CD; row_AB] /\ Sorted by_ordinal ordered /\
    files w' OUTPUT_FILENAME
    = Workbook (mkFrame STORE_COLUMNS (map persisted ordered)) /\
    (forall n, n <> OUTPUT_FILENAME -> files w' n = files blank n).
Proof.
  assert (Hacc : accepts blank (map persisted [row_CD; row_AB]))
    by (intros row v _ _; reflexivity).
  split; [discriminate|]. split; [reflexivity|]. split; [reflexivity|].
  split; [exact Hacc|].
  apply (X3_first_merge_creates [row_CD; row_AB] OUTPUT_FILENAME blank);
    [discriminate | reflexivity | reflexivity | exact Hacc].
Defined.

(** X4: [format_excel] never raises.  When the file is not there, when
    it cannot be loaded and when the path cannot be opened to save it
    again, it logs one error line with the exception and leaves
    everything else as it is; otherwise the workbook is saved with its
    header styled and its cells as they were, and nothing is logged at
    the level of the script.  So a merge into a ready store, of rows
    whose values the writer takes, returns and leaves the rows handed
    to the writer in the workbook, whether the styling fails or not. *)
Theorem X4_formatting_failure_is_swallowed (filename : str) (w : World) :
  (exists w',
     format_excel filename w = (inr tt, w') /\
     w' = match files w filename, format_fault w filename with
          | Workbook _, None => set_style filename true w
          | Workbook _, Some e =>
              add_log (mkLog ERROR (lit "Error formatting Excel file "
                                    ++ filename ++ lit ": " ++ exn_str e)) w
          | Unreadable e, _ =>
              add_log (mkLog ERROR (lit "Error formatting Excel file "
                                    ++ filename ++ lit ": " ++ exn_str e)) w
          | Absent, _ =>
              add_log (mkLog ERROR
                         (lit "Error formatting Excel file " ++ filename
                          ++ lit ": [Errno 2] No such file or directory: '"
                          ++ filename ++ lit "'")) w
          end) /\
  (forall new_data,
     new_data <> [] -> store_ready filename w ->
     accepts w (handed_rows new_data filename w) ->
     exists w',
       save_to_excel new_data filename w = (inr tt, w') /\
       files w' filename
       = Workbook (mkFrame STORE_COLUMNS (handed_rows new_data filename w)) /\
       (forall r, In r new_data ->
          In (persisted r) (handed_rows new_data filename w))).
Proof.
  split.
  - unfold format_excel, try_except, bind, restyle, logger.
    destruct (files w filename); simpl;
      [ | destruct (format_fault w filename); simpl | ];
      eexists; split; reflexivity.
  - intros new_data Hne Hready Hacc.
    destruct (save_to_excel_written new_data filename w Hne Hready Hacc)
      as (w' & Hrun & Hfiles & _).
    exists w'. split; [exact Hrun|]. split; [exact Hfiles|].
    intros r Hr. now apply handed_rows_batch.
Qed.

(** A disk that takes the write but on which the styling fails. *)
Lemma X4_formatting_failure_is_swallowed_witness :
  format_fault styling_fails OUTPUT_FILENAME
  = Some (mkExn OSError (lit "[Errno 13] Permission denied")) /\
  format_excel OUTPUT_FILENAME styling_fails
  = (inr tt,
     add_log (mkLog ERROR
                (lit "Error formatting Excel file notaries_data.xlsx: [Errno 2] No such file or directory: 'notaries_data.xlsx'"))
       styling_fails) /\
  exists w',
    save_to_excel [row_AB] OUTPUT_FILENAME styling_fails = (inr tt, w') /\
    files w' OUTPUT_FILENAME
    = Workbook (mkFrame STORE_COLUMNS
                  (handed_rows [row_AB] OUTPUT_FILENAME styling_fails)) /\
    (forall r, In r [row_AB] ->
       In (persisted r) (handed_rows [row_AB] OUTPUT_FILENAME styling_fails)).
Proof.
  assert (Hne : [row_AB] <> []) by discriminate.
  assert (Hready : store_ready OUTPUT_FILENAME styling_fails)
    by (split; [reflexivity | left; reflexivity]).
  assert (Hacc : accepts styling_fails
                   (handed_rows [row_AB] OUTPUT_FILENAME styling_fails))
    by (intros row v _ _; reflexivity).
  destruct (X4_formatting_failure_is_swallowed OUTPUT_FILENAME styling_fails)
    as [Hfmt Hmerge].
  split; [reflexivity|]. split; [reflexivity|].
  exact (Hmerge [row_AB] Hne Hready Hacc).
Defined.

(** The styling failing after a write, and going through. *)
Example merge_styling_fails :
  log (merge [row_AB] styling_fails)
  = [mkLog INFO (lit "Creating new file: notaries_data.xlsx");
     mkLog ERROR (lit "Error formatting Excel file notaries_data.xlsx: [Errno 13] Permission denied");
     mkLog INFO (lit "Data saved to notaries_data.xlsx. Total records: 1")] /\
  styled (merge [row_AB] styling_fails) OUTPUT_FILENAME = false /\
  styled (merge [row_AB] blank) OUTPUT_FILENAME = true.
Proof. repeat split. Qed.

(** X5: a merge into a ready store, when the writer takes every value
    of the batch and of the rows read from the store, loses none of
    those rows: every row [pd.read_excel] gave for the workbook is in
    the new workbook, every record of the batch has its row there, and
    the new workbook holds no other row. *)
Theorem X5_merge_loses_no_row (new_data : list DetailRecord)
    (filename : str) (w : World) :
  new_data <> [] -> store_ready filename w ->
  accepts w (map persisted new_data ++ stored_rows filename w) ->
  exists w' sheet,
    save_to_excel new_data filename w = (inr tt, w') /\
    files w' filename = Workbook sheet /\
    (forall row, In row (stored_rows filename w) -> In row (rows sheet)) /\
    (forall r, In r new_data -> In (persisted r) (rows sheet)) /\
    (forall row, In row (rows sheet) ->
       (exists r, In r new_data /\ row = persisted r) \/
       In row (stored_rows filename w)).
Proof.
  intros Hne Hready Hacc. apply accepts_handed_rows in Hacc.
  destruct (save_to_excel_written new_data filename w Hne Hready Hacc)
    as (w' & Hrun & Hfiles & _).
  eexists. eexists. split; [exact Hrun|]. split; [exact Hfiles|].
  cbn [rows]. split; [|split].
  - unfold stored_rows, handed_rows.
    destruct (files w filename) as [|sheet|e]; try (intros row []).
    intros row Hin. unfold merged_rows. apply in_or_app. right.
    now apply (proj2 (drop_duplicates_In _ _)).
  - intros r Hr. now apply handed_rows_batch.
  - intros row Hin. now apply handed_rows_sources.
Qed.

Lemma X5_merge_loses_no_row_witness :
  [row_CD] <> [] /\
  store_ready OUTPUT_FILENAME (merge [row_AB] blank) /\
  accepts (merge [row_AB] blank)
    (map persisted [row_CD]
     ++ stored_rows OUTPUT_FILENAME (merge [row_AB] blank)) /\
  exists w' sheet,
    save_to_excel [row_CD] OUTPUT_FILENAME (merge [row_AB] blank) = (inr tt, w') /\
    files w' OUTPUT_FILENAME = Workbook sheet /\
    (forall row,
       In row (stored_rows OUTPUT_FILENAME (merge [row_AB] blank)) ->
       In row (rows sheet)) /\
    (forall r, In r [row_CD] -> In (persisted r) (rows sheet)) /\
    (forall row, In row (rows sheet) ->
       (exists r, In r [row_CD] /\ row = persisted r) \/
       In row (stored_rows OUTPUT_FILENAME (merge [row_AB] blank))).
Proof.
  assert (Hne : [row_CD] <> []) by discriminate.
  assert (Hready : store_ready OUTPUT_FILENAME (merge [row_AB] blank)).
  { split; [reflexivity|]. right.
    exists (mkFrame STORE_COLUMNS [persisted row_AB]). split; reflexivity. }
  assert (Hacc : accepts (merge [row_AB] blank)
                   (map persisted [row_CD]
                    ++ stored_rows OUTPUT_FILENAME (merge [row_AB] blank)))
    by (intros row v _ _; reflexivity).
  split; [exact Hne|]. split; [exact Hready|]. split; [exact Hacc|].
  exact (X5_merge_loses_no_row [row_CD] OUTPUT_FILENAME (merge [row_AB] blank)
           Hne Hready Hacc).
Defined.

(** *** Merging the same batch again *)

Lemma row_mem_cons (x r : list Cell) (seen : list (list Cell)) :
  row_mem x (r :: seen) = row_eqb r x || row_mem x seen.
Proof.
  unfold row_mem. simpl. f_equal.
  apply eq_true_iff_eq. rewrite !row_eqb_eq. split; congruence.
Qed.

(** On rows without repetition, dropping duplicates only filters out
    the rows seen before. *)
Lemma drop_duplicates_from_filter (l seen : list (list Cell)) :
  NoDup l ->
  drop_duplicates_from seen l = filter (fun r => negb (row_mem r seen)) l.
Proof.
  revert seen. induction l as [|r l IH]; intros seen Hnd; simpl; [reflexivity|].
  inversion Hnd as [|? ? Hnot Hnd']; subst.
  destruct (row_mem r seen) eqn:Hm; simpl; [now apply IH|].
  f_equal. rewrite IH by assumption.
  apply filter_ext_in. intros x Hx. rewrite row_mem_cons.
  destruct (row_eqb r x) eqn:E; [|reflexivity].
  apply row_eqb_eq in E. subst. contradiction.
Qed.

Lemma filter_none {A : Type} (f : A -> bool) (l : list A) :
  (forall x, In x l -> f x = false) -> filter f l = [].
Proof.
  induction l as [|x l IH]; intros H; simpl; [reflexivity|].
  rewrite (H x) by (now left). apply IH. intros y Hy. apply H. now right.
Qed.

Lemma filter_all {A : Type} (f : A -> bool) (l : list A) :
  (forall x, In x l -> f x = true) -> filter f l = l.
Proof.
  induction l as [|x l IH]; intros H; simpl; [reflexivity|].
  rewrite (H x) by (now left). f_equal. apply IH. intros y Hy. apply H. now right.
Qed.

(** Dropping duplicates a second time behind the same rows changes
    nothing. *)
Lemma drop_duplicates_again (A B : list (list Cell)) :
  drop_duplicates_from [] (A ++ drop_duplicates_from [] (A ++ B))
  = drop_duplicates_from [] (A ++ B).
Proof.
  rewrite (drop_duplicates_from_app A B []).
  set (dA := drop_duplicates_from [] A).
  set (X := drop_duplicates_from (rev dA ++ []) B).
  rewrite (drop_duplicates_from_app A (dA ++ X) []). fold dA. f_equal.
  assert (Hnd : NoDup (dA ++ X)).
  { unfold dA, X. rewrite <- drop_duplicates_from_app.
    apply drop_duplicates_from_NoDup. }
  rewrite drop_duplicates_from_filter by exact Hnd.
  rewrite filter_app, filter_none, filter_all; [reflexivity | |].
  - intros x Hx. unfold X in Hx. apply drop_duplicates_from_In in Hx.
    destruct Hx as [_ Hx].
    destruct (row_mem x (rev dA ++ [])) eqn:E; [|reflexivity].
    apply row_mem_In in E. contradiction.
  - intros x Hx. apply negb_false_iff. apply row_mem_In.
    apply in_or_app. left. now apply in_rev in Hx.
Qed.

(** A merge into a workbook that the library gives back as it is. *)
Lemma merge_read_back (new_data : list DetailRecord) (filename : str)
    (w w0 : World) (R : list (list Cell)) :
  new_data <> [] -> write_fault w filename = None -> same_outside w w0 ->
  Forall four_cells R ->
  files w0 filename = Workbook (mkFrame STORE_COLUMNS R) ->
  read_back w (mkFrame STORE_COLUMNS R) ->
  accepts w (batch_rows new_data ++ drop_duplicates_from [] R) ->
  exists w',
    save_to_excel new_data filename w0 = (inr tt, w') /\
    files w' filename
    = Workbook (mkFrame STORE_COLUMNS
                  (batch_rows new_data ++ drop_duplicates_from [] R)) /\
    same_outside w w'.
Proof.
  intros Hne Hwf Hout H4 Hfile Hrb Hacc.
  pose proof Hout as (Ho1 & Ho2 & Ho3 & Ho4).
  assert (Hshape : store_shape (mkFrame STORE_COLUMNS R) = true)
    by now apply store_shape_written.
  assert (Hready : store_ready filename w0).
  { split; [congruence|]. right. eauto. }
  assert (Hrows : handed_rows new_data filename w0
                  = batch_rows new_data ++ drop_duplicates_from [] R).
  { unfold handed_rows. rewrite Hfile. unfold merged_rows.
    rewrite loaded_read_back; [reflexivity | exact Hshape|].
    unfold read_back in *. congruence. }
  destruct (save_to_excel_written new_data filename w0 Hne Hready)
    as (w' & Hrun & Hfiles & _ & Hout' & _).
  { rewrite Hrows. intros row v Hrow Hv. rewrite Ho3. now apply (Hacc row). }
  exists w'. split; [exact Hrun|]. split; [now rewrite <- Hrows|].
  now apply (same_outside_trans w w0 w').
Qed.

Lemma merge_all_repeat (new_data : list DetailRecord) (filename : str)
    (k : nat) (w w0 : World) (f : FileState) :
  (forall w0, files w0 filename = f -> same_outside w w0 ->
     files (snd (save_to_excel new_data filename w0)) filename = f /\
     same_outside w (snd (save_to_excel new_data filename w0))) ->
  files w0 filename = f -> same_outside w w0 ->
  files (merge_all filename (repeat new_data k) w0) filename = f.
Proof.
  intros Hstep. revert w0. induction k as [|k IH]; intros w0 Hf Ho; simpl.
  - exact Hf.
  - destruct (Hstep w0 Hf Ho) as [Hf' Ho']. now apply IH.
Qed.

(** X6: once a batch has been merged twice into an existing store, any
    number of further merges of the same batch leaves the workbook as
    the second merge left it; this when the writer takes every value of
    the batch and of the rows read from the store, and when
    [pd.read_excel] gives the workbooks that the first and the second
    merge leave as they were written. *)
Theorem X6_merge_settles_after_two (new_data : list DetailRecord)
    (filename : str) (w : World) (sheet : DataFrame) (k : nat) :
  new_data <> [] ->
  files w filename = Workbook sheet -> store_shape sheet = true ->
  write_fault w filename = None ->
  accepts w (map persisted new_data ++ stored_rows filename w) ->
  (forall j sheet',
     j = 1 \/ j = 2 ->
     files (merge_all filename (repeat new_data j) w) filename
     = Workbook sheet' ->
     read_back w sheet') ->
  files (merge_all filename (repeat new_data (2 + k)) w) filename
  = files (merge_all filename (repeat new_data 2) w) filename.
Proof.
  intros Hne Hfile Hshape Hwf Hacc Hrb.
  set (B := batch_rows new_data).
  set (X := drop_duplicates_from [] (loaded w sheet)).
  assert (HX4 : Forall four_cells X).
  { apply drop_duplicates_four, loaded_four.
    apply store_shape_spec in Hshape. tauto. }
  assert (HB4 : Forall four_cells B) by apply batch_rows_four.
  assert (Hready : store_ready filename w) by (split; [exact Hwf | right; eauto]).
  assert (Hrows : handed_rows new_data filename w = B ++ X).
  { unfold handed_rows. rewrite Hfile. reflexivity. }
  assert (Hacc1 : accepts w (B ++ X)).
  { rewrite <- Hrows. now apply accepts_handed_rows. }
  destruct (save_to_excel_written new_data filename w Hne Hready)
    as (w1 & Hrun1 & Hfiles1 & _ & Hout1 & _);
    [now rewrite Hrows|].
  rewrite Hrows in Hfiles1.
  assert (Hrb1 : read_back w (mkFrame STORE_COLUMNS (B ++ X))).
  { apply (Hrb 1); [now left|]. simpl. rewrite Hrun1. exact Hfiles1. }
  assert (Hsub : forall Y, (forall row, In row Y -> In row (B ++ X)) ->
                   accepts w (B ++ drop_duplicates_from [] Y)).
  { intros Y HY row v Hrow Hv. apply (Hacc1 row); [|exact Hv].
    apply in_app_or in Hrow. destruct Hrow as [Hrow|Hrow].
    - apply in_or_app. now left.
    - apply HY. now apply (proj1 (drop_duplicates_In _ _)). }
  assert (H14 : Forall four_cells (B ++ X)) by (apply Forall_app; now split).
  destruct (merge_read_back new_data filename w w1 (B ++ X)
              Hne Hwf Hout1 H14 Hfiles1 Hrb1)
    as (w2 & Hrun2 & Hfiles2 & Hout2); [apply Hsub; auto|].
  set (S2 := B ++ drop_duplicates_from [] (B ++ X)) in *.
  assert (Hrb2 : read_back w (mkFrame STORE_COLUMNS S2)).
  { apply (Hrb 2); [now right|]. simpl. rewrite Hrun1. simpl. rewrite Hrun2.
    exact Hfiles2. }
  assert (H24 : Forall four_cells S2).
  { unfold S2. apply Forall_app. split; [exact HB4|].
    now apply drop_duplicates_four. }
  assert (Hacc2 : accepts w S2) by (apply Hsub; auto).
  change (repeat new_data (2 + k))
    with (new_data :: new_data :: repeat new_data k).
  cbn [repeat merge_all]. rewrite Hrun1. cbn [snd]. rewrite Hrun2. cbn [snd].
  apply (merge_all_repeat new_data filename k w); [|reflexivity | exact Hout2].
  intros w0 Hf0 Ho0. rewrite Hfiles2 in Hf0.
  destruct (merge_read_back new_data filename w w0 S2
              Hne Hwf Ho0 H24 Hf0 Hrb2)
    as (w' & Hrun & Hfiles & Hout).
  - unfold S2 at 1. rewrite drop_duplicates_again. exact Hacc2.
  - rewrite Hrun. cbn [snd]. split; [|exact Hout].
    rewrite Hfiles, Hfiles2. unfold S2 at 1. now rewrite drop_duplicates_again.
Qed.

Lemma X6_merge_settles_after_two_witness :
  [row_AB] <> [] /\
  files (merge [row_AB] blank) OUTPUT_FILENAME
  = Workbook (mkFrame STORE_COLUMNS [persisted row_AB]) /\
  store_shape (mkFrame STORE_COLUMNS [persisted row_AB]) = true /\
  write_fault (merge [row_AB] blank) OUTPUT_FILENAME = None /\
  accepts (merge [row_AB] blank)
    (map persisted [row_AB]
     ++ stored_rows OUTPUT_FILENAME (merge [row_AB] blank)) /\
  (forall j sheet',
     j = 1 \/ j = 2 ->
     files (merge_all OUTPUT_FILENAME (repeat [row_AB] j)
              (merge [row_AB] blank)) OUTPUT_FILENAME
     = Workbook sheet' ->
     read_back (merge [row_AB] blank) sheet') /\
  files (merge_all OUTPUT_FILENAME (repeat [row_AB] (2 + 3))
           (merge [row_AB] blank)) OUTPUT_FILENAME
  = files (merge_all OUTPUT_FILENAME (repeat [row_AB] 2)
             (merge [row_AB] blank)) OUTPUT_FILENAME.
Proof.
  assert (Hacc : accepts (merge [row_AB] blank)
                   (map persisted [row_AB]
                    ++ stored_rows OUTPUT_FILENAME (merge [row_AB] blank)))
    by (intros row v _ _; reflexivity).
  assert (Hrb : forall j sheet',
            j = 1 \/ j = 2 ->
            files (merge_all OUTPUT_FILENAME (repeat [row_AB] j)
                     (merge [row_AB] blank)) OUTPUT_FILENAME
            = Workbook sheet' ->
            read_back (merge [row_AB] blank) sheet')
    by (intros j sheet' _ _; reflexivity).
  split; [discriminate|]. split; [reflexivity|]. split; [reflexivity|].
  split; [reflexivity|]. split; [exact Hacc|]. split; [exact Hrb|].
  apply (X6_merge_settles_after_two [row_AB] OUTPUT_FILENAME
           (merge [row_AB] blank) (mkFrame STORE_COLUMNS [persisted row_AB]) 3);
    [discriminate | reflexivity | reflexivity | reflexivity | exact Hacc
    | exact Hrb].
Defined.

(** Three merges of the same record: two rows after the second, and the
    same two after the third. *)
Example merged_three_times :
  sheet_rows (store (merge [row_AB] (merge [row_AB] (merge [row_AB] blank))))
  = [persisted row_AB; persisted row_AB] /\
  store (merge [row_AB] (merge [row_AB] (merge [row_AB] blank)))
  = store (merge [row_AB] (merge [row_AB] blank)).
Proof. split; reflexivity. Qed.

(** *** The shape of the store over a run *)

Lemma save_keeps_ready (new_data : list DetailRecord) (filename : str)
    (w : World) :
  store_ready filename w ->
  store_ready filename (snd (save_to_excel new_data filename w)) /\
  same_outside w (snd (save_to_excel new_data filename w)) /\
  (new_data <> [] ->
   exists sheet,
     files (snd (save_to_excel new_data filename w)) filename = Workbook sheet) /\
  (forall sheet, files w filename = Workbook sheet ->
   exists sheet',
     files (snd (save_to_excel new_data filename w)) filename = Workbook sheet').
Proof.
  intros Hready. destruct new_data as [|r0 rs].
  - simpl. unfold logger. simpl. split; [exact Hready|].
    split; [repeat split|]. split; [congruence | eauto].
  - assert (Hne : r0 :: rs <> []) by discriminate.
    destruct (save_to_excel_ready _ filename w Hne Hready)
      as (res & w' & written & Hrun & Hfile & H4 & _ & Hout & _).
    rewrite Hrun. cbn [snd]. split; [|split; [exact Hout|split; eauto]].
    destruct Hready as [Hwf _]. destruct Hout as (Ho1 & _).
    split; [congruence|]. right. eexists. split; [exact Hfile|].
    now apply store_shape_written.
Qed.

(** X7: over any sequence of merges into a ready store the store stays
    ready: the file is missing or is a workbook with exactly the four
    store columns and four cells in every row, and it is such a workbook
    as soon as one batch of the sequence was not empty. *)
Theorem X7_store_shape_is_kept (filename : str)
    (batches : list (list DetailRecord)) (w : World) :
  store_ready filename w ->
  store_ready filename (merge_all filename batches w) /\
  (Exists (fun new_data => new_data <> []) batches ->
   exists sheet,
     files (merge_all filename batches w) filename = Workbook sheet /\
     columns sheet = STORE_COLUMNS /\ Forall four_cells (rows sheet)).
Proof.
  intros Hready.
  assert (Hkeep : forall bs w0,
            store_ready filename w0 ->
            store_ready filename (merge_all filename bs w0) /\
            (forall sheet, files w0 filename = Workbook sheet ->
             exists sheet',
               files (merge_all filename bs w0) filename = Workbook sheet')).
  { induction bs as [|b bs IH]; intros w0 H0; simpl.
    - split; [exact H0 | eauto].
    - destruct (save_keeps_ready b filename w0 H0) as (H1 & _ & _ & H3).
      destruct (IH _ H1) as [H4 H5]. split; [exact H4|].
      intros sheet Hs. destruct (H3 sheet Hs) as (sheet' & Hs'). eauto. }
  split; [now apply Hkeep|].
  intros Hex.
  assert (Hbook : exists sheet,
            files (merge_all filename batches w) filename = Workbook sheet).
  { revert w Hready. induction Hex as [b bs Hb|b bs _ IH]; intros w Hready; simpl.
    - destruct (save_keeps_ready b filename w Hready) as (H1 & _ & H2 & _).
      destruct (H2 Hb) as (sheet & Hs).
      destruct (Hkeep bs _ H1) as [_ H5]. eauto.
    - destruct (save_keeps_ready b filename w Hready) as (H1 & _).
      now apply IH. }
  destruct Hbook as (sheet & Hs). exists sheet. split; [exact Hs|].
  destruct (Hkeep batches w Hready) as [[_ [Habs|(sheet' & Hs' & Hshape)]] _].
  - congruence.
  - rewrite Hs in Hs'. inversion Hs'; subst.
    apply store_shape_spec in Hshape. exact Hshape.
Qed.

Lemma X7_store_shape_is_kept_witness :
  store_ready OUTPUT_FILENAME strict_writer /\
  store_ready OUTPUT_FILENAME
    (merge_all OUTPUT_FILENAME [[row_AB]; []; [row_CD; row_VT]] strict_writer) /\
  (Exists (fun new_data => new_data <> []) [[row_AB]; []; [row_CD; row_VT]] ->
   exists sheet,
     files (merge_all OUTPUT_FILENAME [[row_AB]; []; [row_CD; row_VT]]
              strict_writer)
           OUTPUT_FILENAME = Workbook sheet /\
     columns sheet = STORE_COLUMNS /\ Forall four_cells (rows sheet)).
Proof.
  assert (Hready : store_ready OUTPUT_FILENAME strict_writer)
    by (split; [reflexivity | left; reflexivity]).
  split; [exact Hready|].
  exact (X7_store_shape_is_kept OUTPUT_FILENAME
           [[row_AB]; []; [row_CD; row_VT]] strict_writer Hready).
Defined.

(** A merge that the writer breaks off: the rows are there, the refused
    cell and those behind it are empty. *)
Example store_after_refused_value :
  sheet_rows (store (merge_all OUTPUT_FILENAME [[row_AB]; []; [row_CD; row_VT]]
                       strict_writer))
  = [[Str (lit "C D"); Str (lit "C"); Str (lit "c@y.com"); Str (lit "Y")];
     [Str (lit "E F"); Str (lit "E"); Str (lit "e@z.com"); NaN];
     [Str (lit "A B"); Str (lit "A"); Str (lit "a@x.com"); NaN]].
Proof. reflexivity. Qed.

(** ** The batch coordinator *)

Lemma start_thread_at_most_one (i : nat) (el : ListingElement) (w : World) :
  exists started w1,
    start_thread i el w = (inr started, w1) /\
    (started = [] \/ exists t, started = [t] /\ thread_index t = i).
Proof.
  destruct (start_thread_spec i el w) as (started & lines & Hrun & Hin & _).
  exists started, (logged lines w). split; [exact Hrun|].
  revert Hrun. unfold start_thread, try_except, bind, attempt.
  destruct el as [[e|name] [e'|[url|]]]; cbn [h3_text a_href];
    unfold raise, ret, logger; simpl;
    try (intros H; inversion H; left; reflexivity).
  destruct (PyStr.is_empty url); simpl; intros H; inversion H;
    [left; reflexivity | right; eexists; split; reflexivity].
Qed.

(** The threads of a dispatch carry different ordinals, each the
    position of an element of the batch. *)
Lemma dispatch_indices (elements : list ListingElement) (i : nat) (w : World)
    (threads : list Thread) (w1 : World) :
  dispatch i elements w = (inr threads, w1) ->
  NoDup (map thread_index threads) /\
  Forall (fun t => i <= thread_index t < i + List.length elements) threads /\
  List.length threads <= List.length elements.
Proof.
  revert i w threads w1.
  induction elements as [|el rest IH]; intros i w threads w1 H.
  - simpl in H. inversion H; subst. simpl.
    split; [constructor|]. split; [constructor | lia].
  - cbn [dispatch] in H. unfold bind in H.
    destruct (start_thread_at_most_one i el w) as (started & w0 & Hs & Hcase).
    rewrite Hs in H.
    destruct (dispatch (S i) rest w0) as [[e|more] w2] eqn:Hd; [discriminate|].
    unfold ret in H. inversion H; subst. clear H.
    destruct (IH _ _ _ _ Hd) as (Hnd & Hall & Hlen).
    assert (Hall' : Forall (fun t => i <= thread_index t
                                     < i + List.length (el :: rest)) more).
    { eapply Forall_impl; [|exact Hall]. simpl. intros t Ht. lia. }
    destruct Hcase as [->|(t & -> & Ht)]; simpl.
    + split; [exact Hnd|]. split; [exact Hall' | lia].
    + split; [|split; [|lia]].
      * constructor; [|exact Hnd]. intros Hin. apply in_map_iff in Hin.
        destruct Hin as (t' & Heq & Hin'). rewrite Forall_forall in Hall.
        apply Hall in Hin'. lia.
      * constructor; [simpl; lia | exact Hall'].
Qed.

Lemma drain_length (q : Queue) : List.length (drain q) <= List.length q.
Proof. induction q as [|[r|] q IH]; simpl; lia. Qed.

Lemma thread_items_length (setup_driver : nat -> Exn + Driver)
    (threads : list Thread) :
  List.length (flat_map (thread_items setup_driver) threads)
  <= List.length threads.
Proof.
  induction threads as [|t rest IH]; simpl; [lia|].
  rewrite length_app. unfold thread_items at 1.
  destruct (setup_driver (thread_index t)); simpl; lia.
Qed.

Lemma drain_ordinals (setup_driver : nat -> Exn + Driver)
    (threads : list Thread) :
  NoDup (map thread_index threads) ->
  NoDup (map index (drain (flat_map (thread_items setup_driver) threads))) /\
  (forall r, In r (drain (flat_map (thread_items setup_driver) threads)) ->
     exists t, In t threads /\ index r = Z.of_nat (thread_index t)).
Proof.
  induction threads as [|t rest IH]; intros Hnd; simpl.
  - split; [constructor | intros r []].
  - inversion Hnd as [|? ? Hnot Hnd']; subst.
    destruct (IH Hnd') as [IH1 IH2].
    unfold thread_items at 1 3.
    destruct (setup_driver (thread_index t)) as [e|driver]; simpl.
    + split; [exact IH1|]. intros r' Hin.
      destruct (IH2 r' Hin) as (t' & Ht' & Hi'). eauto.
    + destruct (outcome driver (thread_url t) (thread_full_name t)
                  (Z.of_nat (thread_index t))) as [r|] eqn:Hout; simpl.
      * apply outcome_rendered in Hout.
        destruct Hout as (_ & Hidx & _). split.
        -- constructor; [|exact IH1]. intros Hin. apply in_map_iff in Hin.
           destruct Hin as (r' & Heq & Hin').
           destruct (IH2 r' Hin') as (t' & Ht' & Hi').
           apply Hnot. apply in_map_iff. exists t'. split; [lia | exact Ht'].
        -- intros r' [<-|Hin]; [exists t; auto|].
           destruct (IH2 r' Hin) as (t' & Ht' & Hi'). eauto.
      * split; [exact IH1|]. intros r' Hin.
        destruct (IH2 r' Hin) as (t' & Ht' & Hi'). eauto.
Qed.

(** What a batch call returns, when it returns, is what its workers
    left. *)
Lemma process_notaries_returned (setup_driver : nat -> Exn + Driver)
    (arrival : list Thread -> list Thread)
    (elements : list ListingElement) (current_page : nat) (w : World)
    (threads : list Thread) (w1 w2 : World) (details : list DetailRecord) :
  dispatch 0 elements w = (inr threads, w1) ->
  run_threads setup_driver (arrival threads) [] w1
  = (inr (flat_map (thread_items setup_driver) (arrival threads)), w2) ->
  fst (process_notaries setup_driver arrival elements current_page w)
  = inr details ->
  details = drain (flat_map (thread_items setup_driver) (arrival threads)).
Proof.
  intros Hd Hr Hres.
  rewrite (process_notaries_run setup_driver arrival elements current_page
             w threads _ _ Hd Hr) in Hres.
  destruct (drain (flat_map (thread_items setup_driver) (arrival threads)))
    as [|d ds]; [simpl in Hres; congruence|].
  destruct (save_to_excel (d :: ds) OUTPUT_FILENAME _) as [[e|u] w3];
    simpl in Hres; congruence.
Qed.

(** X8: the records a batch call returns carry pairwise different
    ordinals, each the position in the batch of the element it came
    from, and there are no more records than elements. *)
Theorem X8_batch_ordinals (setup_driver : nat -> Exn + Driver)
    (arrival : list Thread -> list Thread)
    (elements : list ListingElement) (current_page : nat) (w : World)
    (details : list DetailRecord) :
  (forall ts, Permutation (arrival ts) ts) ->
  fst (process_notaries setup_driver arrival elements current_page w)
  = inr details ->
  NoDup (map index details) /\
  Forall (fun r => (0 <= index r < Z.of_nat (List.length elements))%Z) details /\
  List.length details <= List.length elements.
Proof.
  intros Harr Hres.
  destruct (dispatch_spec elements 0 w) as (threads & l1 & Hd & _).
  destruct (run_threads_spec setup_driver (arrival threads) [] (logged l1 w))
    as (l2 & Hr).
  simpl in Hr.
  pose proof (process_notaries_returned setup_driver arrival elements
                current_page w threads _ _ details Hd Hr Hres) as Hdet.
  destruct (dispatch_indices elements 0 w threads _ Hd) as (Hnd & Hall & Hlen).
  assert (Hnd' : NoDup (map thread_index (arrival threads))).
  { eapply Permutation_NoDup; [|exact Hnd].
    apply Permutation_map. symmetry. apply Harr. }
  destruct (drain_ordinals setup_driver (arrival threads) Hnd') as [H1 H2].
  subst details. split; [exact H1|]. split.
  - apply Forall_forall. intros r Hin. destruct (H2 r Hin) as (t & Ht & Hi).
    apply (Permutation_in _ (Harr threads)) in Ht.
    rewrite Forall_forall in Hall. apply Hall in Ht. lia.
  - pose proof (drain_length
                  (flat_map (thread_items setup_driver) (arrival threads)))
      as Hdl.
    pose proof (thread_items_length setup_driver (arrival threads)) as Htl.
    rewrite (Permutation_length (Harr threads)) in Htl. lia.
Qed.

Lemma X8_batch_ordinals_witness :
  (forall ts : list Thread, Permutation (rev ts) ts) /\
  fst (process_notaries (fun _ => inr (showing jane_page)) (@rev Thread)
         sample_listing 0 blank)
  = inr [mkRecord 4 (lit "No Session") (lit "No") (lit "jane@example.com")
           (lit "France");
         mkRecord 3 (lit "Slow Page") (lit "Slow") (lit "jane@example.com")
           (lit "France");
         jane] /\
  NoDup (map index
           [mkRecord 4 (lit "No Session") (lit "No") (lit "jane@example.com")
              (lit "France");
            mkRecord 3 (lit "Slow Page") (lit "Slow") (lit "jane@example.com")
              (lit "France");
            jane]) /\
  Forall (fun r => (0 <= index r < Z.of_nat (List.length sample_listing))%Z)
         [mkRecord 4 (lit "No Session") (lit "No") (lit "jane@example.com")
            (lit "France");
          mkRecord 3 (lit "Slow Page") (lit "Slow") (lit "jane@example.com")
            (lit "France");
          jane] /\
  List.length
    [mkRecord 4 (lit "No Session") (lit "No") (lit "jane@example.com")
       (lit "France");
     mkRecord 3 (lit "Slow Page") (lit "Slow") (lit "jane@example.com")
       (lit "France");
     jane]
  <= List.length sample_listing.
Proof.
  assert (H : forall ts : list Thread, Permutation (rev ts) ts)
    by (intros ts; symmetry; apply Permutation_rev).
  split; [exact H|]. split; [reflexivity|].
  apply (X8_batch_ordinals (fun _ => inr (showing jane_page)) (@rev Thread)
           sample_listing 0 blank _ H). reflexivity.
Defined.




(** ** The pagination driver *)

Lemma slices_from_concat (l cur : list ListingElement) :
  List.concat (slices_from cur l) = rev cur ++ l.
Proof.
  revert cur. induction l as [|x l IH]; intros cur; cbn [slices_from].
  - destruct cur; cbn [List.concat]; now rewrite ?app_nil_r.
  - destruct (Nat.eqb (S (List.length cur)) BATCH_SIZE); cbn [List.concat].
    + rewrite IH. cbn [rev app]. now rewrite <- app_assoc.
    + rewrite IH. cbn [rev]. now rewrite <- app_assoc.
Qed.

Lemma slices_from_sizes (l cur : list ListingElement) :
  List.length cur < BATCH_SIZE ->
  Forall (fun s => 1 <= List.length s <= BATCH_SIZE) (slices_from cur l) /\
  Forall (fun s => List.length s = BATCH_SIZE) (removelast (slices_from cur l)).
Proof.
  revert cur. induction l as [|x l IH]; intros cur Hcur; cbn [slices_from].
  - destruct cur as [|c cur]; simpl; [split; constructor|].
    split; [|constructor]. constructor; [|constructor].
    rewrite length_app, length_rev. simpl in *. lia.
  - destruct (Nat.eqb (S (List.length cur)) BATCH_SIZE) eqn:E.
    + apply Nat.eqb_eq in E.
      assert (Hlen : List.length (rev cur ++ [x]) = BATCH_SIZE)
        by (rewrite length_app, length_rev; simpl; lia).
      destruct (IH [] ltac:(unfold BATCH_SIZE; simpl; lia)) as [H1 H2].
      cbn [rev]. split.
      * constructor; [rewrite Hlen; unfold BATCH_SIZE; lia | exact H1].
      * cbn [removelast]. destruct (slices_from [] l) as [|s ss] eqn:Es;
          [constructor|]. constructor; [exact Hlen | exact H2].
    + apply Nat.eqb_neq in E. apply IH. simpl. lia.
Qed.

(** Lists cut into runs of [n], the last one possibly shorter, are the
    slices of their concatenation. *)
Lemma nth_of_runs {A : Type} (n : nat) (L : list (list A)) (k : nat) :
  Forall (fun s => List.length s <= n) L ->
  Forall (fun s => List.length s = n) (removelast L) ->
  k < List.length L ->
  nth k L [] = firstn n (skipn (k * n) (List.concat L)).
Proof.
  revert k. induction L as [|a rest IH]; intros k Hle Hfull Hk; simpl in Hk.
  - lia.
  - inversion Hle as [|? ? Ha Hrest]; subst. destruct rest as [|b rest'].
    + assert (k = 0) by (simpl in Hk; lia). subst. simpl.
      rewrite app_nil_r. symmetry. apply firstn_all2. exact Ha.
    + cbn [removelast] in Hfull.
      inversion Hfull as [|? ? Han Hfull']; subst. destruct k as [|k].
      * simpl. rewrite firstn_app, firstn_all, Nat.sub_diag. simpl.
        now rewrite app_nil_r.
      * change (nth (S k) (a :: b :: rest') []) with (nth k (b :: rest') []).
        change (List.concat (a :: b :: rest'))
          with (a ++ List.concat (b :: rest')).
        rewrite (IH k Hrest Hfull'); [|simpl in *; lia].
        f_equal. replace (S k * List.length a) with (k * List.length a + List.length a)
          by (simpl; lia).
        rewrite <- skipn_skipn. rewrite skipn_app, skipn_all, Nat.sub_diag.
        reflexivity.
Qed.

(** X11: the batches of a page are its slices: the [k]-th batch is the
    elements from position [k * BATCH_SIZE] up to [BATCH_SIZE] further,
    so the batches follow one another without gap or overlap, each has
    between one and [BATCH_SIZE] elements, and all but the last have
    exactly [BATCH_SIZE]. *)
Theorem X11_batches_are_slices (list_elements : list ListingElement) :
  List.concat (slices list_elements) = list_elements /\
  Forall (fun s => 1 <= List.length s <= BATCH_SIZE) (slices list_elements) /\
  Forall (fun s => List.length s = BATCH_SIZE) (removelast (slices list_elements)) /\
  (forall k, k < List.length (slices list_elements) ->
     nth k (slices list_elements) []
     = firstn BATCH_SIZE (skipn (k * BATCH_SIZE) list_elements)).
Proof.
  assert (Hc : List.concat (slices list_elements) = list_elements)
    by (unfold slices; now rewrite slices_from_concat).
  destruct (slices_from_sizes list_elements [])
    as [H1 H2]; [unfold BATCH_SIZE; simpl; lia|].
  fold (slices list_elements) in H1, H2.
  split; [exact Hc|]. split; [exact H1|]. split; [exact H2|].
  intros k Hk. rewrite <- Hc at 2. apply nth_of_runs; [|exact H2 | exact Hk].
  eapply Forall_impl; [|exact H1]. simpl. intros s Hs. lia.
Qed.

(** The loop ends at a page that never shows a list element. *)
Lemma main_loop_ends (site : Site)
    (setup_driver : nat -> nat -> nat -> Exn + Driver)
    (arrival : nat -> nat -> list Thread -> list Thread) (n : nat) :
  (forall nav, exists found, site nav n = Shown false found) ->
  forall d fuel nav page all_data w,
    page + d = n -> d < fuel ->
    fst (fst (main_loop fuel site setup_driver arrival nav page all_data w))
    <> Unfinished.
Proof.
  intros Hend. induction d as [|d IH]; intros fuel nav page all_data w Hp Hf;
    (destruct fuel as [|fuel]; [lia|]); cbn [main_loop]; cbv zeta.
  - assert (page = n) by lia. subst page.
    destruct (Hend nav) as (found & ->). simpl. discriminate.
  - destruct (site nav page) as [e|[|] [e|[|x xs]]]; simpl; try discriminate.
    destruct (for_batches setup_driver arrival page _ 0 _ all_data _)
      as [[[e|] all_data'] w3]; simpl; [discriminate|].
    destruct (site (S nav) (S page)) as [e|marker [e|[|y ys]]]; simpl;
      try discriminate.
    apply IH; lia.
Qed.

(** X10: when the main session has started and some page of the
    directory never shows a list element, [main] comes to its end once
    it may visit that many pages: the loop is left by [break] or by an
    exception, [main] returns, and the last two lines logged are those
    of the [finally] clause. *)
Theorem X10_main_terminates (site : Site)
    (setup_driver : nat -> nat -> nat -> Exn + Driver)
    (arrival : nat -> nat -> list Thread -> list Thread)
    (n fuel : nat) (w : World) :
  (forall nav, exists found, site nav n = Shown false found) ->
  n < fuel ->
  exists exit collected w1,
    main fuel (inr site) setup_driver arrival w
    = (inr exit,
       emit INFO (lit "Total records collected: " ++ str_of_nat collected)
         (emit INFO (lit "Scraping completed. Driver closed.") w1)) /\
    exit <> Unfinished.
Proof.
  intros Hend Hfuel.
  pose proof (main_loop_ends site setup_driver arrival n Hend n fuel 0 0 [] w
                eq_refl Hfuel) as Hloop.
  unfold main.
  destruct (main_loop fuel site setup_driver arrival 0 0 [] w)
    as [[exit all_data] w1].
  simpl in Hloop. destruct exit as [|e|]; [| |congruence].
  - eexists. eexists. eexists. split; [reflexivity | discriminate].
  - eexists. eexists. eexists. split; [reflexivity | discriminate].
Qed.

Lemma X10_main_terminates_witness :
  (forall nav, exists found, sample_site nav 1 = Shown false found) /\
  1 < 2 /\
  exists exit collected w1,
    main 2 (inr sample_site) (fun _ _ => sample_setup) (fun _ _ ts => ts) blank
    = (inr exit,
       emit INFO (lit "Total records collected: " ++ str_of_nat collected)
         (emit INFO (lit "Scraping completed. Driver closed.") w1)) /\
    exit <> Unfinished.
Proof.
  assert (H : forall nav, exists found, sample_site nav 1 = Shown false found)
    by (intros nav; eexists; reflexivity).
  split; [exact H|]. split; [lia|].
  apply (X10_main_terminates sample_site (fun _ _ => sample_setup)
           (fun _ _ ts => ts) 1 2 blank H). lia.
Defined.

(** ** What a batch call leaves in the store *)





(** The sample batch on a store that holds one row: the record of the
    one worker that came back is put in front of it. *)
Example sample_batch_stored :
  sheet_rows (store (snd (process_notaries sample_setup (@rev Thread)
                            sample_listing 0 (merge [row_AB] blank))))
  = [persisted jane; persisted row_AB].
Proof. reflexivity. Qed.

(** ** The store over a run *)

Lemma emit_logged (l : Level) (msg : str) (w : World) :
  exists lines, emit l msg w = logged lines w.
Proof.
  unfold emit, logger.
  destruct (level_no LOGGING_LEVEL <=? level_no l)%nat; simpl.
  - exists [mkLog l msg]. reflexivity.
  - exists []. now rewrite logged_nil.
Qed.

Lemma store_kept_refl (filename : str) (w : World) :
  store_ready filename w -> store_kept filename w w.
Proof. intros H. split; [exact H | reflexivity]. Qed.

Lemma store_kept_trans (filename : str) (a b c : World) :
  store_kept filename a b -> store_kept filename b c ->
  store_kept filename a c.
Proof.
  intros [_ H1] [H2 H3]. split; [exact H2|].
  intros n Hn. rewrite H3, H1; auto.
Qed.

Lemma store_kept_logged (filename : str) (w w' : World)
    (lines : list LogRecord) :
  store_kept filename w w' -> store_kept filename w (logged lines w').
Proof. intros H. exact H. Qed.

Lemma store_kept_emit (filename : str) (w w' : World) (l : Level) (msg : str) :
  store_kept filename w w' -> store_kept filename w (emit l msg w').
Proof.
  intros H. destruct (emit_logged l msg w') as (lines & ->).
  now apply store_kept_logged.
Qed.

(** A merge keeps the store, whatever becomes of it. *)
Lemma save_keeps_store (new_data : list DetailRecord) (filename : str)
    (w : World) :
  store_ready filename w ->
  store_kept filename w (snd (save_to_excel new_data filename w)).
Proof.
  intros Hready.
  destruct (save_keeps_ready new_data filename w Hready) as (Hready' & _).
  split; [exact Hready'|].
  destruct new_data as [|r0 rs].
  - reflexivity.
  - assert (Hne : r0 :: rs <> []) by discriminate.
    destruct (save_to_excel_ready _ filename w Hne Hready)
      as (res & w' & written & Hrun & _ & _ & Hothers & _).
    rewrite Hrun. exact Hothers.
Qed.

(** A batch call keeps the store, whether it returns or raises. *)
Lemma process_notaries_keeps_store (setup_driver : nat -> Exn + Driver)
    (arrival : list Thread -> list Thread)
    (elements : list ListingElement) (current_page : nat) (w : World) :
  store_ready OUTPUT_FILENAME w ->
  store_kept OUTPUT_FILENAME w
    (snd (process_notaries setup_driver arrival elements current_page w)).
Proof.
  intros Hready.
  destruct (dispatch_spec elements 0 w) as (threads & l1 & Hd & _).
  destruct (run_threads_spec setup_driver (arrival threads) [] (logged l1 w))
    as (l2 & Hr).
  simpl in Hr. rewrite logged_logged in Hr.
  rewrite (process_notaries_run setup_driver arrival elements current_page
             w threads _ _ Hd Hr).
  assert (Hready' : store_ready OUTPUT_FILENAME (logged (l1 ++ l2) w))
    by exact Hready.
  destruct (drain (flat_map (thread_items setup_driver) (arrival threads)))
    as [|d ds].
  - apply store_kept_logged, store_kept_refl, Hready.
  - pose proof (save_keeps_store (d :: ds) OUTPUT_FILENAME
                  (logged (l1 ++ l2) w) Hready') as Hkept.
    destruct (save_to_excel (d :: ds) OUTPUT_FILENAME (logged (l1 ++ l2) w))
      as [[e|u] w3]; exact Hkept.
Qed.

Lemma for_batches_keeps_store
    (setup_driver : nat -> nat -> nat -> Exn + Driver)
    (arrival : nat -> nat -> list Thread -> list Thread)
    (page total : nat) (remaining : list (list ListingElement)) :
  forall i all_data w0 w,
    store_kept OUTPUT_FILENAME w0 w ->
    store_kept OUTPUT_FILENAME w0
      (snd (for_batches setup_driver arrival page total i remaining
              all_data w)).
Proof.
  induction remaining as [|current rest IH]; intros i all_data w0 w Hk;
    cbn [for_batches]; cbv zeta.
  - exact Hk.
  - match goal with
    | |- context [process_notaries _ _ current page (emit ?l ?m w)] =>
        pose proof (store_kept_emit _ _ _ l m Hk) as Hk1;
        set (w1 := emit l m w) in *
    end.
    pose proof (process_notaries_keeps_store (setup_driver page i)
                  (arrival page i) current page w1 (proj1 Hk1)) as Hk2.
    pose proof (store_kept_trans _ _ _ _ Hk1 Hk2) as Hk3.
    destruct (process_notaries (setup_driver page i) (arrival page i)
                current page w1) as [[e|details] w2]; cbn [snd] in *.
    + exact Hk3.
    + now apply IH.
Qed.

Lemma main_loop_keeps_store (site : Site)
    (setup_driver : nat -> nat -> nat -> Exn + Driver)
    (arrival : nat -> nat -> list Thread -> list Thread) :
  forall fuel nav page all_data w0 w,
    store_kept OUTPUT_FILENAME w0 w ->
    store_kept OUTPUT_FILENAME w0
      (snd (main_loop fuel site setup_driver arrival nav page all_data w)).
Proof.
  induction fuel as [|fuel IH]; intros nav page all_data w0 w Hk;
    cbn [main_loop]; cbv zeta.
  - exact Hk.
  - destruct (site nav page) as [e|[|] [e|[|x xs]]]; cbn [snd];
      try (repeat apply store_kept_emit; exact Hk).
    match goal with
    | |- context [for_batches _ _ _ _ _ _ _ ?w2] =>
        assert (Hk2 : store_kept OUTPUT_FILENAME w0 w2)
          by (repeat apply store_kept_emit; exact Hk);
        pose proof (for_batches_keeps_store setup_driver arrival page
                      (List.length (x :: xs)) (slices (x :: xs)) 0 all_data
                      w0 w2 Hk2) as Hk3;
        destruct (for_batches setup_driver arrival page
                    (List.length (x :: xs)) 0 (slices (x :: xs)) all_data w2)
          as [[[e|] all_data'] w3]; cbn [snd] in *
    end.
    + exact Hk3.
    + destruct (site (S nav) (S page)) as [e|marker [e|[|y ys]]]; cbn [snd];
        try (repeat apply store_kept_emit; exact Hk3).
      now apply IH.
Qed.

(** X13: a run of [main] that starts on a ready store ends on a ready
    store, however it ends: the output file is still missing, or it is
    a workbook with the four store columns and four cells in every row;
    the disk still takes the write; and no file but the output file has
    been written or removed. *)
Theorem X13_run_keeps_the_store (fuel : nat) (main_driver : Exn + Site)
    (setup_driver : nat -> nat -> nat -> Exn + Driver)
    (arrival : nat -> nat -> list Thread -> list Thread) (w : World) :
  store_ready OUTPUT_FILENAME w ->
  store_ready OUTPUT_FILENAME
    (snd (main fuel main_driver setup_driver arrival w)) /\
  (forall n, n <> OUTPUT_FILENAME ->
     files (snd (main fuel main_driver setup_driver arrival w)) n
     = files w n).
Proof.
  intros Hready.
  change (store_kept OUTPUT_FILENAME w
            (snd (main fuel main_driver setup_driver arrival w))).
  unfold main. destruct main_driver as [e|site]; cbn [snd].
  - now apply store_kept_refl.
  - pose proof (main_loop_keeps_store site setup_driver arrival fuel 0 0 []
                  w w (store_kept_refl _ _ Hready)) as Hk.
    destruct (main_loop fuel site setup_driver arrival 0 0 [] w)
      as [[exit all_data] w1]; cbn [snd] in *.
    destruct exit as [|e|]; cbn [snd];
      repeat apply store_kept_emit; exact Hk.
Qed.

Lemma X13_run_keeps_the_store_witness :
  store_ready OUTPUT_FILENAME strict_writer /\
  store_ready OUTPUT_FILENAME
    (snd (main 5 (inr sample_site) (fun _ _ => sample_setup)
            (fun _ _ ts => ts) strict_writer)) /\
  (forall n, n <> OUTPUT_FILENAME ->
     files (snd (main 5 (inr sample_site) (fun _ _ => sample_setup)
                   (fun _ _ ts => ts) strict_writer)) n
     = files strict_writer n).
Proof.
  assert (Hready : store_ready OUTPUT_FILENAME strict_writer)
    by (split; [reflexivity | left; reflexivity]).
  split; [exact Hready|].
  exact (X13_run_keeps_the_store 5 (inr sample_site) (fun _ _ => sample_setup)
           (fun _ _ ts => ts) strict_writer Hready).
Defined.
